(** * TeamViewer-Clone: a shallow embedding of the session protocol

    The development follows the Python sources module by module:
    [Encryption] (Encryption.py), [FunctionsModule] (FunctionsModule.py),
    [ServerThreads] (ServerThreads.py) and [ClientThreads]
    (ClientThreads.py).  Python exceptions are values of [exn], a call
    that may raise returns a [result], and code that mutates objects is
    written in a state-and-exception monad in which the mutations made
    before a [raise] persist, as they do in Python. *)

From Stdlib Require Import String Ascii Strings.Byte DecimalString.
From Stdlib Require Import ZArith QArith Bool Arith Lia List.
From Stdlib Require Import Qminmax.
From Equations Require Import Equations.
Import ListNotations.

Open Scope nat_scope.

(** ** Python values shared by all modules *)

Definition bytes := list byte.

(** The exception classes the sources raise or catch. *)
Inductive exn : Type :=
| ValueError
| OverflowError
| ConnectionError
| ConnectionResetError
| socket_timeout
| OSError
| RuntimeError
| UnicodeDecodeError
| zlib_error
| KeyError
| IndexError
| OtherException.

Definition exn_eqb (a b : exn) : bool :=
  match a, b with
  | ValueError, ValueError | OverflowError, OverflowError
  | ConnectionError, ConnectionError
  | ConnectionResetError, ConnectionResetError
  | socket_timeout, socket_timeout | OSError, OSError
  | RuntimeError, RuntimeError | UnicodeDecodeError, UnicodeDecodeError
  | zlib_error, zlib_error | KeyError, KeyError | IndexError, IndexError
  | OtherException, OtherException => true
  | _, _ => false
  end.

(** [except ConnectionError] also catches the subclass
    [ConnectionResetError]; every class is an [Exception]. *)
Definition is_ConnectionError (e : exn) : bool :=
  match e with
  | ConnectionError | ConnectionResetError => true
  | _ => false
  end.

Inductive result (A : Type) : Type :=
| Ok (a : A)
| Raise (e : exn).
Arguments Ok {A} a.
Arguments Raise {A} e.

Definition result_bind {A B} (r : result A) (k : A -> result B) : result B :=
  match r with
  | Ok a => k a
  | Raise e => Raise e
  end.

Declare Scope result_scope.
Delimit Scope result_scope with result.
Notation "x <-? r ;; k" := (result_bind r (fun x => k))
  (at level 61, r at next level, right associativity) : result_scope.
Notation "' p <-? r ;; k" := (result_bind r (fun p => k))
  (at level 61, p pattern, r at next level, right associativity) : result_scope.

(** ** Mutable state and exceptions

    A statement sequence over a state [S]: it returns a value or
    raises, and in both cases hands on the state it has reached. *)
Definition M (S A : Type) : Type := S -> result A * S.

Definition ret {S A} (a : A) : M S A := fun s => (Ok a, s).

Definition bind {S A B} (m : M S A) (k : A -> M S B) : M S B :=
  fun s =>
    match m s with
    | (Ok a, s') => k a s'
    | (Raise e, s') => (Raise e, s')
    end.

Definition raise {S A} (e : exn) : M S A := fun s => (Raise e, s).

Definition lift {S A} (r : result A) : M S A := fun s => (r, s).

Definition gets {S A} (f : S -> A) : M S A := fun s => (Ok (f s), s).

Definition modify {S} (f : S -> S) : M S unit := fun s => (Ok tt, f s).

(** [try: m  except Exception as e: h e] *)
Definition try_except {S A} (m : M S A) (h : exn -> M S A) : M S A :=
  fun s =>
    match m s with
    | (Ok a, s') => (Ok a, s')
    | (Raise e, s') => h e s'
    end.

(** [try: m  finally: f] *)
Definition try_finally {S A} (m : M S A) (f : M S unit) : M S A :=
  fun s =>
    let '(r, s') := m s in
    match f s' with
    | (Ok _, s'') => (r, s'')
    | (Raise e, s'') => (Raise e, s'')
    end.

Declare Scope monad_scope.
Delimit Scope monad_scope with monad.
Notation "x <- m ;; k" := (bind m (fun x => k))
  (at level 61, m at next level, right associativity) : monad_scope.
Notation "' p <- m ;; k" := (bind m (fun p => k))
  (at level 61, p pattern, m at next level, right associativity) : monad_scope.
Notation "m ;; k" := (bind m (fun _ => k))
  (at level 61, right associativity) : monad_scope.

(** [for x in l: body x] *)
Fixpoint for_each {S A} (l : list A) (body : A -> M S unit) : M S unit :=
  match l with
  | [] => ret tt
  | x :: l' => bind (body x) (fun _ => for_each l' body)
  end.

(** A [while] loop that is observed for finitely many turns has either
    left the loop or is still turning. *)
Inductive loop_state : Type :=
| Finished
| StillRunning.

(** [int.to_bytes(length, 'big')] and [int.from_bytes(b, 'big')]. *)
Definition byte_of_nat (n : nat) : byte :=
  match Byte.of_nat n with
  | Some b => b
  | None => x00
  end.

Fixpoint to_bytes_loop (length : nat) (n : N) (acc : bytes) : bytes :=
  match length with
  | 0 => acc
  | S length' =>
      to_bytes_loop length' (N.div n 256)
        (byte_of_nat (N.to_nat (N.modulo n 256)) :: acc)
  end.

Definition to_bytes (n : nat) (length : nat) : result bytes :=
  if (N.of_nat n <? N.pow 256 (N.of_nat length))%N
  then Ok (to_bytes_loop length (N.of_nat n) [])
  else Raise OverflowError.

Definition from_bytes (b : bytes) : nat :=
  N.to_nat (fold_left (fun acc x => (acc * 256 + Byte.to_N x)%N) b 0%N).

(** [os.urandom]: the operating system's entropy pool is an unbounded
    stream of bytes and a read position; a call returns the next [n]
    bytes and advances the position. *)
Record entropy : Type := { pool : nat -> byte; pool_pos : nat }.

Definition os_urandom (n : nat) (e : entropy) : bytes * entropy :=
  (map (fun i => pool e (pool_pos e + i)) (seq 0 n),
   {| pool := pool e; pool_pos := pool_pos e + n |}).

(** A Python [str] or [bytes] argument ([type(text) is not bytes]); a
    [str] is kept as its UTF-8 text, so that [text.encode()] is the
    list of its bytes. *)
Inductive pytext : Type :=
| PyBytes (b : bytes)
| PyStr (s : string).

Definition encode (s : string) : bytes := list_byte_of_string s.

(** [bytes.decode()]: the bytes must be well-formed UTF-8. *)
Definition is_continuation (b : byte) : bool :=
  (128 <=? Byte.to_nat b) && (Byte.to_nat b <=? 191).

Fixpoint utf8_valid_from (fuel : nat) (b : bytes) : bool :=
  match fuel with
  | 0 => match b with [] => true | _ => false end
  | S fuel' =>
      match b with
      | [] => true
      | b0 :: rest =>
          let n0 := Byte.to_nat b0 in
          if n0 <=? 127 then utf8_valid_from fuel' rest
          else if (194 <=? n0) && (n0 <=? 223) then
            match rest with
            | b1 :: rest' => is_continuation b1 && utf8_valid_from fuel' rest'
            | _ => false
            end
          else if (224 <=? n0) && (n0 <=? 239) then
            match rest with
            | b1 :: b2 :: rest' =>
                is_continuation b1 && is_continuation b2
                && (if n0 =? 224 then 160 <=? Byte.to_nat b1 else true)
                && (if n0 =? 237 then Byte.to_nat b1 <=? 159 else true)
                && utf8_valid_from fuel' rest'
            | _ => false
            end
          else if (240 <=? n0) && (n0 <=? 244) then
            match rest with
            | b1 :: b2 :: b3 :: rest' =>
                is_continuation b1 && is_continuation b2 && is_continuation b3
                && (if n0 =? 240 then 144 <=? Byte.to_nat b1 else true)
                && (if n0 =? 244 then Byte.to_nat b1 <=? 143 else true)
                && utf8_valid_from fuel' rest'
            | _ => false
            end
          else false
      end
  end.

Definition decode (b : bytes) : result string :=
  if utf8_valid_from (length b) b then Ok (string_of_list_byte b)
  else Raise UnicodeDecodeError.

(** [s.split(sep)] for a one-character separator. *)
Fixpoint split_on (sep : ascii) (s : string) : list string :=
  match s with
  | EmptyString => [EmptyString]
  | String c rest =>
      if Ascii.eqb c sep then EmptyString :: split_on sep rest
      else
        match split_on sep rest with
        | [] => [String c EmptyString]
        | part :: parts => String c part :: parts
        end
  end.

(** ** TCP sockets

    A socket endpoint is modelled by what the network will do to it.
    [inbox] lists what the successive [recv] calls will find: a chunk
    of bytes that has arrived, or a fault ([socket.timeout], a reset);
    when the list is exhausted the peer has closed the stream and
    [recv] returns [b''].  [outbox] records the buffers written so
    far, and [send_plan] says for each coming [send] whether it
    succeeds ([None], also when the plan is exhausted) or raises. *)
Inductive recv_event : Type :=
| Data (chunk : bytes)
| Fault (e : exn).

Record socket : Type := {
  inbox : list recv_event;
  outbox : list bytes;
  send_plan : list (option exn);
  closed : bool
}.

Definition set_inbox (s : socket) (i : list recv_event) : socket :=
  {| inbox := i; outbox := outbox s; send_plan := send_plan s;
     closed := closed s |}.

(** What one [recv(bufsize)] takes from the inbox.  An empty chunk is
    no arrival at all and is skipped; a chunk longer than [bufsize] is
    split and its rest stays first in line. *)
Fixpoint recv_inbox (bufsize : nat) (i : list recv_event)
  : result bytes * list recv_event :=
  match i with
  | [] => (Ok [], [])
  | Fault e :: rest => (Raise e, rest)
  | Data [] :: rest => recv_inbox bufsize rest
  | Data chunk :: rest =>
      if length chunk <=? bufsize then (Ok chunk, rest)
      else (Ok (firstn bufsize chunk), Data (skipn bufsize chunk) :: rest)
  end.

Definition sock_recv (s : socket) (bufsize : nat) : result bytes * socket :=
  if closed s then (Raise OSError, s)
  else if bufsize =? 0 then (Ok [], s)
  else let '(r, i) := recv_inbox bufsize (inbox s) in (r, set_inbox s i).

(** [sock.send(data)] and [sock.sendall(data)]: the buffer is written
    whole or the call raises. *)
Definition sock_send (s : socket) (data : bytes) : result unit * socket :=
  if closed s then (Raise OSError, s)
  else
    match send_plan s with
    | Some e :: plan =>
        (Raise e, {| inbox := inbox s; outbox := outbox s;
                     send_plan := plan; closed := closed s |})
    | None :: plan =>
        (Ok tt, {| inbox := inbox s; outbox := outbox s ++ [data];
                   send_plan := plan; closed := closed s |})
    | [] =>
        (Ok tt, {| inbox := inbox s; outbox := outbox s ++ [data];
                   send_plan := []; closed := closed s |})
    end.

Definition sock_close (s : socket) : socket :=
  {| inbox := inbox s; outbox := outbox s; send_plan := send_plan s;
     closed := true |}.

(** The bytes that can still be read before the stream faults or
    ends, and whether it ends by an orderly close. *)
Fixpoint pending (i : list recv_event) : bytes :=
  match i with
  | Data chunk :: rest => chunk ++ pending rest
  | _ => []
  end.

Definition orderly (i : list recv_event) : bool :=
  forallb (fun ev => match ev with Data _ => true | Fault _ => false end) i.

(** ** Encryption.py *)
Module Encryption.

(** The AES block transformation of the [cryptography] package is not
    part of this repository: it is an interface of the development. *)
Class BlockCipher : Type := {
  aes_encrypt_block : bytes -> bytes -> bytes;
  aes_decrypt_block : bytes -> bytes -> bytes
}.

(** Likewise the RSA-OAEP primitives and the PEM codec behind
    [generate_rsa_keys], [rsa_encrypt], [rsa_decrypt],
    [serialize_public_key] and [deserialize_public_key]. *)
Class RSA : Type := {
  RSAPrivateKey : Type;
  RSAPublicKey : Type;
  generate_rsa_keys : entropy -> (RSAPrivateKey * RSAPublicKey) * entropy;
  rsa_encrypt : RSAPublicKey -> bytes -> entropy -> result bytes * entropy;
  rsa_decrypt : RSAPrivateKey -> bytes -> result bytes;
  serialize_public_key : RSAPublicKey -> bytes;
  deserialize_public_key : bytes -> result RSAPublicKey
}.

(** [generate_aes_key]: 32 bytes of [os.urandom]. *)
Definition generate_aes_key (e : entropy) : bytes * entropy := os_urandom 32 e.

Definition block_len : nat := 16.

(** [algorithms.AES(key)] accepts keys of 128, 192 and 256 bits. *)
Definition valid_key_len (key : bytes) : bool :=
  (length key =? 16) || (length key =? 24) || (length key =? 32).

(** What the development assumes of the AES block transformation. *)
Class BlockCipherLaws (C : BlockCipher) : Prop := {
  aes_encrypt_block_length :
    forall key blk, length blk = block_len ->
      length (aes_encrypt_block key blk) = block_len;
  aes_decrypt_encrypt_block :
    forall key blk, valid_key_len key = true -> length blk = block_len ->
      aes_decrypt_block key (aes_encrypt_block key blk) = blk
}.

Definition byte_xor (a b : byte) : byte :=
  let '(a0, (a1, (a2, (a3, (a4, (a5, (a6, a7))))))) := Byte.to_bits a in
  let '(b0, (b1, (b2, (b3, (b4, (b5, (b6, b7))))))) := Byte.to_bits b in
  Byte.of_bits (xorb a0 b0, (xorb a1 b1, (xorb a2 b2, (xorb a3 b3,
               (xorb a4 b4, (xorb a5 b5, (xorb a6 b6, xorb a7 b7))))))).

Fixpoint xor_bytes (a b : bytes) : bytes :=
  match a, b with
  | x :: a', y :: b' => byte_xor x y :: xor_bytes a' b'
  | _, _ => []
  end.

(** The first [n] blocks of [data]. *)
Fixpoint take_blocks (n : nat) (data : bytes) : list bytes :=
  match n with
  | 0 => []
  | S n' => firstn block_len data :: take_blocks n' (skipn block_len data)
  end.

(** *** [padding.PKCS7(128)] *)

(** A padding context buffers the bytes of the last, incomplete
    block. *)
Definition padder_update (buffer data : bytes) : bytes * bytes :=
  let buf := buffer ++ data in
  let finished_blocks := length buf / block_len in
  (firstn (finished_blocks * block_len) buf,
   skipn (finished_blocks * block_len) buf).

Definition padder_finalize (buffer : bytes) : bytes :=
  let pad_size := block_len - length buffer in
  buffer ++ repeat (byte_of_nat pad_size) pad_size.

Definition unpadder_update (buffer data : bytes) : bytes * bytes :=
  let buf := buffer ++ data in
  let finished_blocks := Nat.max (length buf / block_len - 1) 0 in
  (firstn (finished_blocks * block_len) buf,
   skipn (finished_blocks * block_len) buf).

(** The check accepts a block whose last byte [pad_size] is between 1
    and the block length and whose last [pad_size] bytes all equal
    it. *)
Definition check_pkcs7_padding (blk : bytes) : bool :=
  let pad_size := Byte.to_nat (last blk x00) in
  (0 <? pad_size) && (pad_size <=? block_len)
  && forallb (fun b => Byte.to_nat b =? pad_size)
       (skipn (length blk - pad_size) blk).

Definition unpadder_finalize (buffer : bytes) : result bytes :=
  if negb (length buffer =? block_len) then Raise ValueError
  else if negb (check_pkcs7_padding buffer) then Raise ValueError
  else
    let pad_size := Byte.to_nat (last buffer x00) in
    Ok (firstn (length buffer - pad_size) buffer).

Section Cipher.
Context {C : BlockCipher}.

(** *** [Cipher(algorithms.AES(key), modes.CBC(iv))] *)

Record cipher : Type := { cipher_key : bytes; cipher_iv : bytes }.

Definition Cipher (key iv : bytes) : result cipher :=
  if negb (valid_key_len key) then Raise ValueError
  else if negb (length iv =? block_len) then Raise ValueError
  else Ok {| cipher_key := key; cipher_iv := iv |}.

(** CBC chaining over whole blocks: [prev] is the previous ciphertext
    block, the IV for the first one. *)
Fixpoint cbc_encrypt_blocks (key prev : bytes) (blocks : list bytes) : bytes :=
  match blocks with
  | [] => []
  | p :: rest =>
      let c := aes_encrypt_block key (xor_bytes p prev) in
      c ++ cbc_encrypt_blocks key c rest
  end.

Fixpoint cbc_decrypt_blocks (key prev : bytes) (blocks : list bytes) : bytes :=
  match blocks with
  | [] => []
  | c :: rest =>
      xor_bytes (aes_decrypt_block key c) prev
      ++ cbc_decrypt_blocks key c rest
  end.

(** [ctx.update(data) + ctx.finalize()] of an unpadded CBC context:
    [update] processes the whole blocks, and [finalize] raises
    [ValueError] when an incomplete block is left over. *)
Definition encryptor_update_finalize (c : cipher) (data : bytes) : result bytes :=
  let n := length data / block_len in
  let out := cbc_encrypt_blocks (cipher_key c) (cipher_iv c) (take_blocks n data) in
  if length data mod block_len =? 0 then Ok out else Raise ValueError.

Definition decryptor_update_finalize (c : cipher) (data : bytes) : result bytes :=
  let n := length data / block_len in
  let out := cbc_decrypt_blocks (cipher_key c) (cipher_iv c) (take_blocks n data) in
  if length data mod block_len =? 0 then Ok out else Raise ValueError.

(** *** [encrypt_aes] and [decrypt_aes] *)

Definition text_bytes (text : pytext) : bytes :=
  match text with
  | PyBytes b => b
  | PyStr s => encode s
  end.

Definition encrypt_aes (key : bytes) (text : pytext) (e : entropy)
  : result (bytes * bytes) * entropy :=
  let text := text_bytes text in
  let '(iv, e) := os_urandom 16 e in
  let '(out, buffer) := padder_update [] text in
  let padded_data := out ++ padder_finalize buffer in
  (c <-? Cipher key iv ;;
   ciphertext <-? encryptor_update_finalize c padded_data ;;
   Ok (iv, ciphertext), e)%result.

Definition decrypt_aes (key iv ciphertext : bytes) : result bytes :=
  (c <-? Cipher key iv ;;
   padded_plaintext <-? decryptor_update_finalize c ciphertext ;;
   let '(out, buffer) := unpadder_update [] padded_plaintext in
   last_block <-? unpadder_finalize buffer ;;
   Ok (out ++ last_block))%result.

End Cipher.

(** A stand-in block transformation, used to run the definitions on
    concrete inputs: every byte of the block is xored with the first
    byte of the key. *)
Definition xor_block (key blk : bytes) : bytes :=
  map (fun b => byte_xor b (hd x00 key)) blk.

Definition xor_cipher : BlockCipher :=
  {| aes_encrypt_block := xor_block; aes_decrypt_block := xor_block |}.

End Encryption.


(** ** FunctionsModule.py *)
Module FunctionsModule.

Definition MAX_CHUNK_SIZE : nat := 4096.

(** The [while len(data) < num_bytes] loop of [recv_all]; every turn
    either raises or makes [data] longer. *)
Equations? recv_all_loop (sock : socket) (num_bytes : nat) (data : bytes)
  : result bytes * socket by wf (num_bytes - length data) lt :=
  recv_all_loop sock num_bytes data with lt_dec (length data) num_bytes := {
    | right _ := (Ok data, sock)
    | left Hlt
        with sock_recv sock (Nat.min MAX_CHUNK_SIZE (num_bytes - length data)) := {
        | (Raise e, sock') := (Raise e, sock')
        | (Ok [], sock') := (Raise ConnectionError, sock')
        | (Ok (b :: packet), sock') :=
            recv_all_loop sock' num_bytes (data ++ b :: packet) } }.
Proof. rewrite length_app. simpl. lia. Qed.

Definition recv_all (sock : socket) (num_bytes : nat) : result bytes * socket :=
  recv_all_loop sock num_bytes [].

End FunctionsModule.

(** ** ServerThreads.py *)
Module ServerThreads.
Import Encryption FunctionsModule.
Local Open Scope monad_scope.

Definition FPS : Q := 10.

(** A peer is identified by its transport address [(host, port)]. *)
Definition address : Type := (string * nat)%type.

Definition address_eqb (a b : address) : bool :=
  String.eqb (fst a) (fst b) && Nat.eqb (snd a) (snd b).

(** The address slot of a queue entry and [app.fullscreen_address]
    hold [None], the empty string or an address tuple. *)
Inductive pyaddr : Type :=
| AddrNone
| AddrEmpty
| Addr (a : address).

Definition pyaddr_eqb (a b : pyaddr) : bool :=
  match a, b with
  | AddrNone, AddrNone | AddrEmpty, AddrEmpty => true
  | Addr x, Addr y => address_eqb x y
  | _, _ => false
  end.

(** The callables handed to [root.after].  The lambdas of
    [CommandConsumer.run] close over its local variables [addr] and
    [client_address], whose value is read when Tk runs the callback;
    the lambda of [ClientHandler.run] reads [self.client_address]. *)
Inductive late_address : Type :=
| HandlerAddress (a : address)
| DispatcherVar_addr
| DispatcherVar_client_address.

Inductive callback : Type :=
| Cleanup (target : late_address)
| Kick (target : late_address).

(** One constructor per [print] of the module. *)
Inductive log_line : Type :=
| LogCommand (cmd : string)
| LogSendFailed (addr : address) (e : exn)
| LogResizeFailed (addr : address) (e : exn)
| LogUnexpectedError (client_address : pyaddr) (e : exn)
| LogDroppedStale (client_address : address)
| LogHandlerError (client_address : address) (e : exn)
| LogGuiClosed (client_address : address) (e : exn)
| LogAccepted (client_address : address)
| LogPauseSent
| LogPauseFailed (client_address : address) (e : exn)
| LogKeyExchangeError (e : exn).

(** What the worker threads see of the application object [app]. *)
Record App : Type := {
  shutdown_event : bool;
  mainloop_running : bool;
  fullscreen_widget : bool;
  fullscreen_address : pyaddr;
  button_size : nat * nat;
  kicked_addresses : list address;
  after_queue : list callback;
  update_screen_calls : list (address * bytes)
}.

Record ClientHandler : Type := {
  client_socket : nat;
  client_address : address;
  aes_key : bytes;
  stop_event : bool;
  last_frame_time : Q
}.

Definition set_kicked_addresses (v : list address) (a : App) : App :=
  {| shutdown_event := shutdown_event a;
     mainloop_running := mainloop_running a;
     fullscreen_widget := fullscreen_widget a;
     fullscreen_address := fullscreen_address a;
     button_size := button_size a;
     kicked_addresses := v;
     after_queue := after_queue a;
     update_screen_calls := update_screen_calls a |}.

Definition set_after_queue (v : list callback) (a : App) : App :=
  {| shutdown_event := shutdown_event a;
     mainloop_running := mainloop_running a;
     fullscreen_widget := fullscreen_widget a;
     fullscreen_address := fullscreen_address a;
     button_size := button_size a;
     kicked_addresses := kicked_addresses a;
     after_queue := v;
     update_screen_calls := update_screen_calls a |}.

Definition set_update_screen_calls (v : list (address * bytes)) (a : App) : App :=
  {| shutdown_event := shutdown_event a;
     mainloop_running := mainloop_running a;
     fullscreen_widget := fullscreen_widget a;
     fullscreen_address := fullscreen_address a;
     button_size := button_size a;
     kicked_addresses := kicked_addresses a;
     after_queue := after_queue a;
     update_screen_calls := v |}.

Definition set_stop_event (v : bool) (h : ClientHandler) : ClientHandler :=
  {| client_socket := client_socket h;
     client_address := client_address h;
     aes_key := aes_key h;
     stop_event := v;
     last_frame_time := last_frame_time h |}.

Definition set_last_frame_time (v : Q) (h : ClientHandler) : ClientHandler :=
  {| client_socket := client_socket h;
     client_address := client_address h;
     aes_key := aes_key h;
     stop_event := stop_event h;
     last_frame_time := v |}.

Definition min_frame_interval : Q := 1 / FPS.
Definition max_frame_age : Q := 1 # 2.

(** What [self.server.accept()] will return. *)
Inductive accept_outcome : Type :=
| Accepted (conn : socket) (peer : address)
| AcceptError (e : exn).

Section Threads.
Context {C : BlockCipher} {R : RSA}.
Context (zlib_decompress : bytes -> result bytes).

(** The objects of one operator process.  Sockets and handler threads
    are objects with an identity: they live in [sockets] and
    [handlers] and are referred to by their index, so that a registry
    entry, a local variable and a thread share one object. *)
Record world : Type := {
  sockets : nat -> socket;
  handlers : nat -> ClientHandler;
  next_object : nat;
  clients_dict : list (address * (nat * nat));
  private_key : RSAPrivateKey;
  public_key : RSAPublicKey;
  server_aes_key : bytes;
  rsa_keys : list (address * RSAPublicKey);
  backlog : list accept_outcome;
  command_queue : list (pyaddr * string);
  frame_queue : list (address * bytes * Q);
  pause_event : bool;
  server_stop_event : bool;
  command_sender_stop_event : bool;
  frame_updater_stop_event : bool;
  server_closed : bool;
  app : App;
  clock : nat -> Q;
  clock_reads : nat;
  sleeps : list Q;
  urandom : entropy;
  stdout : list log_line
}.

(** Assignments to the fields of the world. *)
Definition set_sockets (v : nat -> socket) (w : world) : world :=
  {| sockets := v;
     handlers := handlers w;
     next_object := next_object w;
     clients_dict := clients_dict w;
     private_key := private_key w;
     public_key := public_key w;
     server_aes_key := server_aes_key w;
     rsa_keys := rsa_keys w;
     backlog := backlog w;
     command_queue := command_queue w;
     frame_queue := frame_queue w;
     pause_event := pause_event w;
     server_stop_event := server_stop_event w;
     command_sender_stop_event := command_sender_stop_event w;
     frame_updater_stop_event := frame_updater_stop_event w;
     server_closed := server_closed w;
     app := app w;
     clock := clock w;
     clock_reads := clock_reads w;
     sleeps := sleeps w;
     urandom := urandom w;
     stdout := stdout w |}.

Definition set_handlers (v : nat -> ClientHandler) (w : world) : world :=
  {| sockets := sockets w;
     handlers := v;
     next_object := next_object w;
     clients_dict := clients_dict w;
     private_key := private_key w;
     public_key := public_key w;
     server_aes_key := server_aes_key w;
     rsa_keys := rsa_keys w;
     backlog := backlog w;
     command_queue := command_queue w;
     frame_queue := frame_queue w;
     pause_event := pause_event w;
     server_stop_event := server_stop_event w;
     command_sender_stop_event := command_sender_stop_event w;
     frame_updater_stop_event := frame_updater_stop_event w;
     server_closed := server_closed w;
     app := app w;
     clock := clock w;
     clock_reads := clock_reads w;
     sleeps := sleeps w;
     urandom := urandom w;
     stdout := stdout w |}.

Definition set_next_object (v : nat) (w : world) : world :=
  {| sockets := sockets w;
     handlers := handlers w;
     next_object := v;
     clients_dict := clients_dict w;
     private_key := private_key w;
     public_key := public_key w;
     server_aes_key := server_aes_key w;
     rsa_keys := rsa_keys w;
     backlog := backlog w;
     command_queue := command_queue w;
     frame_queue := frame_queue w;
     pause_event := pause_event w;
     server_stop_event := server_stop_event w;
     command_sender_stop_event := command_sender_stop_event w;
     frame_updater_stop_event := frame_updater_stop_event w;
     server_closed := server_closed w;
     app := app w;
     clock := clock w;
     clock_reads := clock_reads w;
     sleeps := sleeps w;
     urandom := urandom w;
     stdout := stdout w |}.

Definition set_clients_dict (v : list (address * (nat * nat))) (w : world) : world :=
  {| sockets := sockets w;
     handlers := handlers w;
     next_object := next_object w;
     clients_dict := v;
     private_key := private_key w;
     public_key := public_key w;
     server_aes_key := server_aes_key w;
     rsa_keys := rsa_keys w;
     backlog := backlog w;
     command_queue := command_queue w;
     frame_queue := frame_queue w;
     pause_event := pause_event w;
     server_stop_event := server_stop_event w;
     command_sender_stop_event := command_sender_stop_event w;
     frame_updater_stop_event := frame_updater_stop_event w;
     server_closed := server_closed w;
     app := app w;
     clock := clock w;
     clock_reads := clock_reads w;
     sleeps := sleeps w;
     urandom := urandom w;
     stdout := stdout w |}.

Definition set_rsa_keys (v : list (address * RSAPublicKey)) (w : world) : world :=
  {| sockets := sockets w;
     handlers := handlers w;
     next_object := next_object w;
     clients_dict := clients_dict w;
     private_key := private_key w;
     public_key := public_key w;
     server_aes_key := server_aes_key w;
     rsa_keys := v;
     backlog := backlog w;
     command_queue := command_queue w;
     frame_queue := frame_queue w;
     pause_event := pause_event w;
     server_stop_event := server_stop_event w;
     command_sender_stop_event := command_sender_stop_event w;
     frame_updater_stop_event := frame_updater_stop_event w;
     server_closed := server_closed w;
     app := app w;
     clock := clock w;
     clock_reads := clock_reads w;
     sleeps := sleeps w;
     urandom := urandom w;
     stdout := stdout w |}.

Definition set_backlog (v : list accept_outcome) (w : world) : world :=
  {| sockets := sockets w;
     handlers := handlers w;
     next_object := next_object w;
     clients_dict := clients_dict w;
     private_key := private_key w;
     public_key := public_key w;
     server_aes_key := server_aes_key w;
     rsa_keys := rsa_keys w;
     backlog := v;
     command_queue := command_queue w;
     frame_queue := frame_queue w;
     pause_event := pause_event w;
     server_stop_event := server_stop_event w;
     command_sender_stop_event := command_sender_stop_event w;
     frame_updater_stop_event := frame_updater_stop_event w;
     server_closed := server_closed w;
     app := app w;
     clock := clock w;
     clock_reads := clock_reads w;
     sleeps := sleeps w;
     urandom := urandom w;
     stdout := stdout w |}.

Definition set_command_queue (v : list (pyaddr * string)) (w : world) : world :=
  {| sockets := sockets w;
     handlers := handlers w;
     next_object := next_object w;
     clients_dict := clients_dict w;
     private_key := private_key w;
     public_key := public_key w;
     server_aes_key := server_aes_key w;
     rsa_keys := rsa_keys w;
     backlog := backlog w;
     command_queue := v;
     frame_queue := frame_queue w;
     pause_event := pause_event w;
     server_stop_event := server_stop_event w;
     command_sender_stop_event := command_sender_stop_event w;
     frame_updater_stop_event := frame_updater_stop_event w;
     server_closed := server_closed w;
     app := app w;
     clock := clock w;
     clock_reads := clock_reads w;
     sleeps := sleeps w;
     urandom := urandom w;
     stdout := stdout w |}.

Definition set_frame_queue (v : list (address * bytes * Q)) (w : world) : world :=
  {| sockets := sockets w;
     handlers := handlers w;
     next_object := next_object w;
     clients_dict := clients_dict w;
     private_key := private_key w;
     public_key := public_key w;
     server_aes_key := server_aes_key w;
     rsa_keys := rsa_keys w;
     backlog := backlog w;
     command_queue := command_queue w;
     frame_queue := v;
     pause_event := pause_event w;
     server_stop_event := server_stop_event w;
     command_sender_stop_event := command_sender_stop_event w;
     frame_updater_stop_event := frame_updater_stop_event w;
     server_closed := server_closed w;
     app := app w;
     clock := clock w;
     clock_reads := clock_reads w;
     sleeps := sleeps w;
     urandom := urandom w;
     stdout := stdout w |}.

Definition set_pause_event (v : bool) (w : world) : world :=
  {| sockets := sockets w;
     handlers := handlers w;
     next_object := next_object w;
     clients_dict := clients_dict w;
     private_key := private_key w;
     public_key := public_key w;
     server_aes_key := server_aes_key w;
     rsa_keys := rsa_keys w;
     backlog := backlog w;
     command_queue := command_queue w;
     frame_queue := frame_queue w;
     pause_event := v;
     server_stop_event := server_stop_event w;
     command_sender_stop_event := command_sender_stop_event w;
     frame_updater_stop_event := frame_updater_stop_event w;
     server_closed := server_closed w;
     app := app w;
     clock := clock w;
     clock_reads := clock_reads w;
     sleeps := sleeps w;
     urandom := urandom w;
     stdout := stdout w |}.

Definition set_server_stop_event (v : bool) (w : world) : world :=
  {| sockets := sockets w;
     handlers := handlers w;
     next_object := next_object w;
     clients_dict := clients_dict w;
     private_key := private_key w;
     public_key := public_key w;
     server_aes_key := server_aes_key w;
     rsa_keys := rsa_keys w;
     backlog := backlog w;
     command_queue := command_queue w;
     frame_queue := frame_queue w;
     pause_event := pause_event w;
     server_stop_event := v;
     command_sender_stop_event := command_sender_stop_event w;
     frame_updater_stop_event := frame_updater_stop_event w;
     server_closed := server_closed w;
     app := app w;
     clock := clock w;
     clock_reads := clock_reads w;
     sleeps := sleeps w;
     urandom := urandom w;
     stdout := stdout w |}.

Definition set_command_sender_stop_event (v : bool) (w : world) : world :=
  {| sockets := sockets w;
     handlers := handlers w;
     next_object := next_object w;
     clients_dict := clients_dict w;
     private_key := private_key w;
     public_key := public_key w;
     server_aes_key := server_aes_key w;
     rsa_keys := rsa_keys w;
     backlog := backlog w;
     command_queue := command_queue w;
     frame_queue := frame_queue w;
     pause_event := pause_event w;
     server_stop_event := server_stop_event w;
     command_sender_stop_event := v;
     frame_updater_stop_event := frame_updater_stop_event w;
     server_closed := server_closed w;
     app := app w;
     clock := clock w;
     clock_reads := clock_reads w;
     sleeps := sleeps w;
     urandom := urandom w;
     stdout := stdout w |}.

Definition set_frame_updater_stop_event (v : bool) (w : world) : world :=
  {| sockets := sockets w;
     handlers := handlers w;
     next_object := next_object w;
     clients_dict := clients_dict w;
     private_key := private_key w;
     public_key := public_key w;
     server_aes_key := server_aes_key w;
     rsa_keys := rsa_keys w;
     backlog := backlog w;
     command_queue := command_queue w;
     frame_queue := frame_queue w;
     pause_event := pause_event w;
     server_stop_event := server_stop_event w;
     command_sender_stop_event := command_sender_stop_event w;
     frame_updater_stop_event := v;
     server_closed := server_closed w;
     app := app w;
     clock := clock w;
     clock_reads := clock_reads w;
     sleeps := sleeps w;
     urandom := urandom w;
     stdout := stdout w |}.

Definition set_server_closed (v : bool) (w : world) : world :=
  {| sockets := sockets w;
     handlers := handlers w;
     next_object := next_object w;
     clients_dict := clients_dict w;
     private_key := private_key w;
     public_key := public_key w;
     server_aes_key := server_aes_key w;
     rsa_keys := rsa_keys w;
     backlog := backlog w;
     command_queue := command_queue w;
     frame_queue := frame_queue w;
     pause_event := pause_event w;
     server_stop_event := server_stop_event w;
     command_sender_stop_event := command_sender_stop_event w;
     frame_updater_stop_event := frame_updater_stop_event w;
     server_closed := v;
     app := app w;
     clock := clock w;
     clock_reads := clock_reads w;
     sleeps := sleeps w;
     urandom := urandom w;
     stdout := stdout w |}.

Definition set_app (v : App) (w : world) : world :=
  {| sockets := sockets w;
     handlers := handlers w;
     next_object := next_object w;
     clients_dict := clients_dict w;
     private_key := private_key w;
     public_key := public_key w;
     server_aes_key := server_aes_key w;
     rsa_keys := rsa_keys w;
     backlog := backlog w;
     command_queue := command_queue w;
     frame_queue := frame_queue w;
     pause_event := pause_event w;
     server_stop_event := server_stop_event w;
     command_sender_stop_event := command_sender_stop_event w;
     frame_updater_stop_event := frame_updater_stop_event w;
     server_closed := server_closed w;
     app := v;
     clock := clock w;
     clock_reads := clock_reads w;
     sleeps := sleeps w;
     urandom := urandom w;
     stdout := stdout w |}.

Definition set_clock_reads (v : nat) (w : world) : world :=
  {| sockets := sockets w;
     handlers := handlers w;
     next_object := next_object w;
     clients_dict := clients_dict w;
     private_key := private_key w;
     public_key := public_key w;
     server_aes_key := server_aes_key w;
     rsa_keys := rsa_keys w;
     backlog := backlog w;
     command_queue := command_queue w;
     frame_queue := frame_queue w;
     pause_event := pause_event w;
     server_stop_event := server_stop_event w;
     command_sender_stop_event := command_sender_stop_event w;
     frame_updater_stop_event := frame_updater_stop_event w;
     server_closed := server_closed w;
     app := app w;
     clock := clock w;
     clock_reads := v;
     sleeps := sleeps w;
     urandom := urandom w;
     stdout := stdout w |}.

Definition set_sleeps (v : list Q) (w : world) : world :=
  {| sockets := sockets w;
     handlers := handlers w;
     next_object := next_object w;
     clients_dict := clients_dict w;
     private_key := private_key w;
     public_key := public_key w;
     server_aes_key := server_aes_key w;
     rsa_keys := rsa_keys w;
     backlog := backlog w;
     command_queue := command_queue w;
     frame_queue := frame_queue w;
     pause_event := pause_event w;
     server_stop_event := server_stop_event w;
     command_sender_stop_event := command_sender_stop_event w;
     frame_updater_stop_event := frame_updater_stop_event w;
     server_closed := server_closed w;
     app := app w;
     clock := clock w;
     clock_reads := clock_reads w;
     sleeps := v;
     urandom := urandom w;
     stdout := stdout w |}.

Definition set_urandom (v : entropy) (w : world) : world :=
  {| sockets := sockets w;
     handlers := handlers w;
     next_object := next_object w;
     clients_dict := clients_dict w;
     private_key := private_key w;
     public_key := public_key w;
     server_aes_key := server_aes_key w;
     rsa_keys := rsa_keys w;
     backlog := backlog w;
     command_queue := command_queue w;
     frame_queue := frame_queue w;
     pause_event := pause_event w;
     server_stop_event := server_stop_event w;
     command_sender_stop_event := command_sender_stop_event w;
     frame_updater_stop_event := frame_updater_stop_event w;
     server_closed := server_closed w;
     app := app w;
     clock := clock w;
     clock_reads := clock_reads w;
     sleeps := sleeps w;
     urandom := v;
     stdout := stdout w |}.

Definition set_stdout (v : list log_line) (w : world) : world :=
  {| sockets := sockets w;
     handlers := handlers w;
     next_object := next_object w;
     clients_dict := clients_dict w;
     private_key := private_key w;
     public_key := public_key w;
     server_aes_key := server_aes_key w;
     rsa_keys := rsa_keys w;
     backlog := backlog w;
     command_queue := command_queue w;
     frame_queue := frame_queue w;
     pause_event := pause_event w;
     server_stop_event := server_stop_event w;
     command_sender_stop_event := command_sender_stop_event w;
     frame_updater_stop_event := frame_updater_stop_event w;
     server_closed := server_closed w;
     app := app w;
     clock := clock w;
     clock_reads := clock_reads w;
     sleeps := sleeps w;
     urandom := urandom w;
     stdout := v |}.

(** *** Primitive statements *)

Definition upd {A} (f : nat -> A) (i : nat) (v : A) : nat -> A :=
  fun j => if j =? i then v else f j.

Definition print (l : log_line) : M world unit :=
  modify (fun w => set_stdout (stdout w ++ [l]) w).

(** [time.time()] reads the wall clock; the successive readings are
    given by [clock]. *)
Definition time_time : M world Q :=
  fun w => (Ok (clock w (clock_reads w)), set_clock_reads (S (clock_reads w)) w).

(** [time.sleep(d)] raises [ValueError] for a negative [d]. *)
Definition time_sleep (d : Q) : M world unit :=
  if Qle_bool 0 d then modify (fun w => set_sleeps (sleeps w ++ [d]) w)
  else raise ValueError.

Definition on_socket {A} (sock : nat) (op : socket -> result A * socket)
  : M world A :=
  fun w =>
    let '(r, s') := op (sockets w sock) in
    (r, set_sockets (upd (sockets w) sock s') w).

Definition sock_recv_all (sock : nat) (num_bytes : nat) : M world bytes :=
  on_socket sock (fun s => recv_all s num_bytes).

Definition send (sock : nat) (data : bytes) : M world unit :=
  on_socket sock (fun s => sock_send s data).

Definition close (sock : nat) : M world unit :=
  on_socket sock (fun s => (Ok tt, sock_close s)).

Definition encrypt (key : bytes) (text : pytext) : M world (bytes * bytes) :=
  fun w =>
    let '(r, e) := encrypt_aes key text (urandom w) in (r, set_urandom e w).

(** [thread.stop()] sets the handler's stop event. *)
Definition thread_stop (thread : nat) : M world unit :=
  modify (fun w =>
    set_handlers (upd (handlers w) thread
                    (set_stop_event true (handlers w thread))) w).

(** [self.app.root.after(0, f)] queues [f] for the Tk main loop, and
    raises [RuntimeError] when no main loop is running. *)
Definition root_after (f : callback) : M world unit :=
  fun w =>
    if mainloop_running (app w)
    then (Ok tt, set_app (set_after_queue (after_queue (app w) ++ [f]) (app w)) w)
    else (Raise RuntimeError, w).

(** *** The registry [clients_dict]: a [dict] in insertion order *)

Fixpoint dict_get {V} (d : list (address * V)) (k : address) : option V :=
  match d with
  | [] => None
  | (k', v) :: d' => if address_eqb k' k then Some v else dict_get d' k
  end.

Fixpoint dict_remove {V} (d : list (address * V)) (k : address)
  : list (address * V) :=
  match d with
  | [] => []
  | (k', v) :: d' =>
      if address_eqb k' k then d' else (k', v) :: dict_remove d' k
  end.

Fixpoint dict_set {V} (d : list (address * V)) (k : address) (v : V)
  : list (address * V) :=
  match d with
  | [] => [(k, v)]
  | (k', v') :: d' =>
      if address_eqb k' k then (k', v) :: d' else (k', v') :: dict_set d' k v
  end.

(** [client_address in self.clients_dict] and the lookup, for a slot
    that may hold [None] or [''] *)
Definition registry_get (w : world) (client_address : pyaddr)
  : option (nat * nat) :=
  match client_address with
  | Addr a => dict_get (clients_dict w) a
  | _ => None
  end.

(** [del self.clients_dict[addr]] *)
Definition registry_del (addr : address) : M world unit :=
  fun w =>
    match dict_get (clients_dict w) addr with
    | Some _ => (Ok tt, set_clients_dict (dict_remove (clients_dict w) addr) w)
    | None => (Raise KeyError, w)
    end.

Definition registry_del_slot (client_address : pyaddr) : M world unit :=
  match client_address with
  | Addr a => registry_del a
  | _ => raise KeyError
  end.

(** *** The command record: [u32 length], IV, ciphertext *)

(** The four statements that every sender repeats:
    [iv, encrypted_cmd = Encryption.encrypt_aes(key, cmd.encode())],
    then [sock.send] of the length, of the IV and of the ciphertext. *)
Definition send_command (sock : nat) (key : bytes) (cmd : string)
  : M world unit :=
  '(iv, encrypted_cmd) <- encrypt key (PyBytes (encode cmd)) ;;
  n <- lift (to_bytes (length encrypted_cmd) 4) ;;
  send sock n ;;
  send sock iv ;;
  send sock encrypted_cmd.

(** *** [CommandConsumer] *)

(** [self.command_queue.get(timeout=1)]: [None] stands for
    [queue.Empty]. *)
Definition command_queue_get : M world (option (pyaddr * string)) :=
  fun w =>
    match command_queue w with
    | [] => (Ok None, w)
    | item :: rest => (Ok (Some item), set_command_queue rest w)
    end.

Definition command_queue_put (item : pyaddr * string) : M world unit :=
  modify (fun w => set_command_queue (command_queue w ++ [item]) w).

(** The [pause]/[unpause] family. *)
Definition dispatch_global (client_address : pyaddr) (cmd : string)
  : M world unit :=
  (if String.eqb cmd "pause"%string
   then modify (set_pause_event true)
   else modify (set_pause_event false)) ;;
  items <- gets clients_dict ;;
  for_each items (fun '(addr, (sock, thread)) =>
    if negb (pyaddr_eqb (Addr addr) client_address) then
      try_except
        (key <- gets (fun w => aes_key (handlers w thread)) ;;
         send_command sock key cmd)
        (fun e =>
           print (LogSendFailed addr e) ;;
           thread_stop thread ;;
           registry_del addr ;;
           root_after (Cleanup DispatcherVar_addr))
    else ret tt).

(** The [resize] family. *)
Definition dispatch_resize (client_address : pyaddr) (cmd : string)
  : M world unit :=
  w0 <- gets (fun w => w) ;;
  let targets :=
    match client_address with
    | AddrNone => clients_dict w0
    | _ =>
        match registry_get w0 client_address, client_address with
        | Some entry, Addr a => [(a, entry)]
        | _, _ => []
        end
    end in
  for_each targets (fun '(addr, (sock, thread)) =>
    try_except
      (key <- gets (fun w => aes_key (handlers w thread)) ;;
       send_command sock key cmd)
      (fun e =>
         print (LogResizeFailed addr e) ;;
         thread_stop thread ;;
         registry_del addr ;;
         root_after (Cleanup DispatcherVar_addr))).

(** Every other command goes to the one peer it names. *)
Definition dispatch_targeted (client_address : pyaddr) (cmd : string)
  : M world unit :=
  entry <- gets (fun w => registry_get w client_address) ;;
  match entry with
  | Some (sock, thread) =>
      key <- gets (fun w => aes_key (handlers w thread)) ;;
      try_except
        (send_command sock key cmd ;;
         if String.eqb cmd "kick"%string
         then thread_stop thread ;; registry_del_slot client_address
         else ret tt)
        (fun e =>
           print (LogUnexpectedError client_address e) ;;
           thread_stop thread ;;
           registry_del_slot client_address ;;
           root_after (Kick DispatcherVar_client_address))
  | None => ret tt
  end.

(** One turn of the [while] loop of [CommandConsumer.run]. *)
Definition CommandConsumer_iteration : M world unit :=
  item <- command_queue_get ;;
  match item with
  | None => ret tt
  | Some (client_address, cmd) =>
      print (LogCommand cmd) ;;
      if String.eqb cmd "pause"%string || String.eqb cmd "unpause"%string
      then dispatch_global client_address cmd
      else if String.prefix "resize"%string cmd
      then dispatch_resize client_address cmd
      else dispatch_targeted client_address cmd
  end.

Fixpoint CommandConsumer_run (turns : nat) : M world loop_state :=
  match turns with
  | 0 => ret StillRunning
  | S turns' =>
      stopped <- gets command_sender_stop_event ;;
      if stopped : bool then ret Finished
      else CommandConsumer_iteration ;; CommandConsumer_run turns'
  end.

(** *** [FrameConsumer] *)

Definition frame_queue_get : M world (option (address * bytes * Q)) :=
  fun w =>
    match frame_queue w with
    | [] => (Ok None, w)
    | item :: rest => (Ok (Some item), set_frame_queue rest w)
    end.

Definition frame_queue_put (item : address * bytes * Q) : M world unit :=
  modify (fun w => set_frame_queue (frame_queue w ++ [item]) w).

(** [self.app.update_screen(client_address, frame)] hands the frame to
    the renderer. *)
Definition update_screen (client_address : address) (frame : bytes)
  : M world unit :=
  modify (fun w =>
    set_app (set_update_screen_calls
               (update_screen_calls (app w) ++ [(client_address, frame)])
               (app w)) w).

(** One turn of the [while] loop of [FrameConsumer.run]. *)
Definition FrameConsumer_iteration : M world unit :=
  item <- frame_queue_get ;;
  match item with
  | None => ret tt
  | Some (client_address, frame, timestamp) =>
      now <- time_time ;;
      if Qle_bool (now - timestamp) max_frame_age then
        widget <- gets (fun w => fullscreen_widget (app w)) ;;
        fullscreen <- gets (fun w => fullscreen_address (app w)) ;;
        if negb widget || pyaddr_eqb fullscreen (Addr client_address)
        then update_screen client_address frame
        else ret tt
      else print (LogDroppedStale client_address)
  end.

Fixpoint FrameConsumer_run (turns : nat) : M world loop_state :=
  match turns with
  | 0 => ret StillRunning
  | S turns' =>
      stopped <- gets frame_updater_stop_event ;;
      if stopped : bool then ret Finished
      else FrameConsumer_iteration ;; FrameConsumer_run turns'
  end.

(** *** [ClientHandler] *)

(** One turn of the [while] loop of [ClientHandler.run]. *)
Definition ClientHandler_iteration (self : nat) : M world unit :=
  this <- gets (fun w => handlers w self) ;;
  current_time <- time_time ;;
  let elapsed := (current_time - last_frame_time this)%Q in
  (if Qle_bool min_frame_interval elapsed then ret tt
   else time_sleep (min_frame_interval - elapsed)) ;;
  size_field <- sock_recv_all (client_socket this) 8 ;;
  let image_size := from_bytes size_field in
  if image_size =? 0 then raise ConnectionError
  else
    iv <- sock_recv_all (client_socket this) 16 ;;
    encrypted_img <- sock_recv_all (client_socket this) image_size ;;
    frame <- lift (decrypt_aes (aes_key this) iv encrypted_img) ;;
    frame <- lift (zlib_decompress frame) ;;
    timestamp <- time_time ;;
    frame_queue_put (client_address this, frame, timestamp) ;;
    modify (fun w =>
      set_handlers (upd (handlers w) self
                      (set_last_frame_time timestamp (handlers w self))) w).

Fixpoint ClientHandler_loop (turns : nat) (self : nat) : M world loop_state :=
  match turns with
  | 0 => ret StillRunning
  | S turns' =>
      stopped <- gets (fun w => stop_event (handlers w self)) ;;
      if stopped : bool then ret Finished
      else ClientHandler_iteration self ;; ClientHandler_loop turns' self
  end.

(** The [except Exception] clause of [ClientHandler.run]. *)
Definition ClientHandler_except (self : nat) (e : exn) : M world unit :=
  this <- gets (fun w => handlers w self) ;;
  print (LogHandlerError (client_address this) e) ;;
  shutdown <- gets (fun w => shutdown_event (app w)) ;;
  if negb shutdown then
    try_except
      (root_after (Cleanup (HandlerAddress (client_address this))))
      (fun tk_err =>
         match tk_err with
         | RuntimeError => print (LogGuiClosed (client_address this) tk_err)
         | _ => raise tk_err
         end)
  else ret tt.

(** The [finally] clause: [socket.close()] does not raise here, so the
    [except OSError] around it is never entered. *)
Definition ClientHandler_finally (self : nat) : M world unit :=
  this <- gets (fun w => handlers w self) ;;
  close (client_socket this).

(** [ClientHandler.run], observed for at most [turns] turns of its
    loop: while the loop is turning neither clause has run. *)
Definition ClientHandler_run (turns : nat) (self : nat) : M world loop_state :=
  fun w =>
    match ClientHandler_loop turns self w with
    | (Ok StillRunning, w') => (Ok StillRunning, w')
    | (r, w') =>
        try_finally
          (try_except (lift r)
             (fun e => ClientHandler_except self e ;; ret Finished))
          (ClientHandler_finally self) w'
    end.

(** *** [Server] *)

Definition string_of_nat (n : nat) : string :=
  NilEmpty.string_of_uint (Nat.to_uint n).

(** [self.app.allow_address(client_address)] *)
Definition allow_address (client_address : address) : M world unit :=
  modify (fun w =>
    set_app (set_kicked_addresses
               (filter (fun a => negb (address_eqb a client_address))
                  (kicked_addresses (app w)))
               (app w)) w).

(** [self.server.accept()]: the connection becomes a new socket
    object. *)
Definition server_accept : M world (nat * address) :=
  fun w =>
    match backlog w with
    | [] => (Raise OSError, w)
    | AcceptError e :: rest => (Raise e, set_backlog rest w)
    | Accepted conn peer :: rest =>
        (Ok (next_object w, peer),
         set_backlog rest
           (set_next_object (S (next_object w))
              (set_sockets (upd (sockets w) (next_object w) conn) w)))
    end.

Definition rsa_encrypt_with_pool (key : RSAPublicKey) (text : bytes)
  : M world bytes :=
  fun w =>
    let '(r, e) := rsa_encrypt key text (urandom w) in (r, set_urandom e w).

(** [Server.key_exchange]; [None] stands for [(None, None)].  The
    five-second timeout of the inbound steps shows as a
    [socket_timeout] fault of the inbox. *)
Definition key_exchange : M world (option (nat * address)) :=
  stopped <- gets server_stop_event ;;
  if stopped : bool then ret None
  else
    try_except
      ('(client_socket, client_address) <- server_accept ;;
       stopped <- gets server_stop_event ;;
       if stopped : bool then close client_socket ;; ret None
       else
         received <-
           try_except
             (len_field <- sock_recv_all client_socket 4 ;;
              let client_key_len := from_bytes len_field in
              client_key_bytes <- sock_recv_all client_socket client_key_len ;;
              client_key <- lift (deserialize_public_key client_key_bytes) ;;
              ret (Some client_key))
             (fun e =>
                match e with
                | socket_timeout => close client_socket ;; ret None
                | _ => raise e
                end) ;;
         match received with
         | None => ret None
         | Some client_key =>
             server_key_bytes <- gets (fun w => serialize_public_key (public_key w)) ;;
             n <- lift (to_bytes (length server_key_bytes) 4) ;;
             send client_socket n ;;
             send client_socket server_key_bytes ;;
             key <- gets server_aes_key ;;
             encrypted_aes_key <- rsa_encrypt_with_pool client_key key ;;
             n <- lift (to_bytes (length encrypted_aes_key) 4) ;;
             send client_socket n ;;
             send client_socket encrypted_aes_key ;;
             modify (fun w =>
               set_rsa_keys (dict_set (rsa_keys w) client_address client_key) w) ;;
             allow_address client_address ;;
             ret (Some (client_socket, client_address))
         end)
      (fun e => print (LogKeyExchangeError e) ;; ret None).

(** [ClientHandler(client_socket, client_address, frame_queue,
    self.aes_key, self.app)] creates a new thread object. *)
Definition new_ClientHandler (sock : nat) (peer : address) (key : bytes)
  : M world nat :=
  fun w =>
    (Ok (next_object w),
     set_next_object (S (next_object w))
       (set_handlers
          (upd (handlers w) (next_object w)
             {| client_socket := sock; client_address := peer;
                aes_key := key; stop_event := false;
                last_frame_time := 0 |}) w)).

(** One turn of the accept loop of [Server.run]. *)
Definition Server_iteration : M world unit :=
  accepted <- key_exchange ;;
  match accepted with
  | None => ret tt
  | Some (client_socket, client_address) =>
      print (LogAccepted client_address) ;;
      size <- gets (fun w => button_size (app w)) ;;
      command_queue_put
        (Addr client_address,
         String.append "resize:"
           (String.append (string_of_nat (fst size))
              (String.append ":" (string_of_nat (snd size))))) ;;
      paused <- gets pause_event ;;
      (if paused : bool then
         try_except
           (key <- gets server_aes_key ;;
            send_command client_socket key "pause"%string ;;
            print LogPauseSent)
           (fun e => print (LogPauseFailed client_address e))
       else ret tt) ;;
      key <- gets server_aes_key ;;
      handler <- new_ClientHandler client_socket client_address key ;;
      modify (fun w =>
        set_clients_dict
          (dict_set (clients_dict w) client_address (client_socket, handler)) w)
  end.

(** The part of [Server.stop] that acts on the registry and the
    workers. *)
Definition Server_stop : M world unit :=
  modify (set_server_stop_event true) ;;
  entries <- gets clients_dict ;;
  for_each entries (fun '(_, (sock, handler)) =>
    thread_stop handler ;; close sock) ;;
  modify (set_command_sender_stop_event true) ;;
  modify (set_frame_updater_stop_event true) ;;
  modify (set_server_closed true).

End Threads.

(** [Server.__init__]: the key pair and the one AES key are drawn
    here; the registry is empty and no event is set. *)
Definition Server_init {R : RSA} (gui : App) (wall_clock : nat -> Q)
  (connections : list accept_outcome) (e : entropy) : world :=
  let '((priv, pub), e) := generate_rsa_keys e in
  let '(key, e) := generate_aes_key e in
  {| sockets := fun _ => {| inbox := []; outbox := []; send_plan := [];
                            closed := true |};
     handlers := fun _ => {| client_socket := 0; client_address := (""%string, 0);
                             aes_key := []; stop_event := true;
                             last_frame_time := 0 |};
     next_object := 0;
     clients_dict := [];
     private_key := priv;
     public_key := pub;
     server_aes_key := key;
     rsa_keys := [];
     backlog := connections;
     command_queue := [];
     frame_queue := [];
     pause_event := false;
     server_stop_event := false;
     command_sender_stop_event := false;
     frame_updater_stop_event := false;
     server_closed := false;
     app := gui;
     clock := wall_clock;
     clock_reads := 0;
     sleeps := [];
     urandom := e;
     stdout := [] |}.

End ServerThreads.

(** ** ClientThreads.py *)
Module ClientThreads.
Import Encryption FunctionsModule.
Local Open Scope monad_scope.

Definition FPS : Q := 10.

(** [UserBlocker] of FunctionsModule.py: each listener is [None] or a
    listener thread, which is running or not. *)
Record UserBlocker : Type := {
  keyboard_listener : option bool;
  mouse_listener : option bool
}.

(** The thread object [ScreenShare]; its socket, key and pause event
    are those of the client. *)
Record ScreenShare : Type := {
  share_stop_event : bool;
  share_img_size : Z * Z
}.

Inductive mouse_button : Type := left | middle | right.

(** [MOUSE_BUTTON_MAP.get(button_num)] *)
Definition MOUSE_BUTTON_MAP (button_num : string) : option mouse_button :=
  if String.eqb button_num "1" then Some left
  else if String.eqb button_num "2" then Some middle
  else if String.eqb button_num "3" then Some right
  else None.

(** What the [pynput] controllers are asked to do.  A key is kept by
    the name it has in the command; [KEYBOARD_SPECIAL_KEYS_MAP] only
    chooses the [pynput] constant that stands for it. *)
Inductive input_event : Type :=
| MousePosition (x y : Z)
| MouseClick (button : mouse_button)
| KeyPress (key : string)
| KeyRelease (key : string).

(** One constructor per [print] of the module and of the input
    controller. *)
Inductive log_line : Type :=
| LogConnected
| LogResizing (width height : Z)
| LogInvalidResize (command : string)
| LogKickReceived
| LogBlocking (b : bool)
| LogPaused (b : bool)
| LogClientError (e : exn)
| LogInputError (command : string) (e : exn)
| LogUnknownButton (button_num : string)
| LogUpdatingSize (new_size : Z * Z)
| LogTakingScreenshot
| LogScreenshotEmpty
| LogCompressionFailed
| LogEncryptionFailed
| LogFrameSent (raw compressed encrypted : nat)
| LogShareError (e : exn).

(** Where a thread is in [Client.stop]:

    [[
    with self._lock:                          AtAcquire, AtRelease
        if self._disconnected:                AtTest
            return
        self._disconnected = True             AtSetDisconnected
        self.stop_event.set()                 AtSetStopEvent
        if self.screen_share:                 AtShareStop
            self.screen_share.stop()
        if self.blocker:                      AtStopBlocking
            self.blocker.stop_blocking()
        self.client.close()                   AtClose
        if self.disconnect_callback:          AtCallback
            self.disconnect_callback(stop_reason)
    ]] *)
Inductive stop_pc : Type :=
| AtAcquire
| AtTest
| AtSetDisconnected
| AtSetStopEvent
| AtShareStop
| AtStopBlocking
| AtClose
| AtCallback
| AtRelease
| Returned.

Section Threads.
Context {C : BlockCipher} {R : RSA}.
(** [zlib.compress(data, level=6)] and the builtin [int(s)] *)
Context (zlib_compress : bytes -> result bytes).
Context (int : string -> result Z).

(** The objects of one peer process.  [screen] and [clock] give the
    outcomes of the successive [take_screenshot] calls and the
    successive readings of [time.perf_counter()];
    [listeners_running] counts the suppressing listener threads that
    have been started and not stopped. *)
Record world : Type := {
  client : socket;
  connect_outcome : option exn;
  private_key : RSAPrivateKey;
  public_key : RSAPublicKey;
  server_rsa_key : option RSAPublicKey;
  server_aes_key : bytes;
  _disconnected : bool;
  stop_event : bool;
  pause_event : bool;
  block_event : bool;
  blocker : UserBlocker;
  listeners_running : nat;
  screen_share : option ScreenShare;
  img_size : Z * Z;
  disconnect_callback : bool;
  disconnect_calls : list string;
  injected : list input_event;
  screen : nat -> result bytes;
  captures : nat;
  clock : nat -> Q;
  clock_reads : nat;
  sleeps : list Q;
  urandom : entropy;
  stdout : list log_line
}.

(** Assignments to the fields of the world. *)
Definition set_client (v : socket) (w : world) : world :=
  {| client := v;
     connect_outcome := connect_outcome w;
     private_key := private_key w;
     public_key := public_key w;
     server_rsa_key := server_rsa_key w;
     server_aes_key := server_aes_key w;
     _disconnected := _disconnected w;
     stop_event := stop_event w;
     pause_event := pause_event w;
     block_event := block_event w;
     blocker := blocker w;
     listeners_running := listeners_running w;
     screen_share := screen_share w;
     img_size := img_size w;
     disconnect_callback := disconnect_callback w;
     disconnect_calls := disconnect_calls w;
     injected := injected w;
     screen := screen w;
     captures := captures w;
     clock := clock w;
     clock_reads := clock_reads w;
     sleeps := sleeps w;
     urandom := urandom w;
     stdout := stdout w |}.

Definition set_server_rsa_key (v : option RSAPublicKey) (w : world) : world :=
  {| client := client w;
     connect_outcome := connect_outcome w;
     private_key := private_key w;
     public_key := public_key w;
     server_rsa_key := v;
     server_aes_key := server_aes_key w;
     _disconnected := _disconnected w;
     stop_event := stop_event w;
     pause_event := pause_event w;
     block_event := block_event w;
     blocker := blocker w;
     listeners_running := listeners_running w;
     screen_share := screen_share w;
     img_size := img_size w;
     disconnect_callback := disconnect_callback w;
     disconnect_calls := disconnect_calls w;
     injected := injected w;
     screen := screen w;
     captures := captures w;
     clock := clock w;
     clock_reads := clock_reads w;
     sleeps := sleeps w;
     urandom := urandom w;
     stdout := stdout w |}.

Definition set_server_aes_key (v : bytes) (w : world) : world :=
  {| client := client w;
     connect_outcome := connect_outcome w;
     private_key := private_key w;
     public_key := public_key w;
     server_rsa_key := server_rsa_key w;
     server_aes_key := v;
     _disconnected := _disconnected w;
     stop_event := stop_event w;
     pause_event := pause_event w;
     block_event := block_event w;
     blocker := blocker w;
     listeners_running := listeners_running w;
     screen_share := screen_share w;
     img_size := img_size w;
     disconnect_callback := disconnect_callback w;
     disconnect_calls := disconnect_calls w;
     injected := injected w;
     screen := screen w;
     captures := captures w;
     clock := clock w;
     clock_reads := clock_reads w;
     sleeps := sleeps w;
     urandom := urandom w;
     stdout := stdout w |}.

Definition set__disconnected (v : bool) (w : world) : world :=
  {| client := client w;
     connect_outcome := connect_outcome w;
     private_key := private_key w;
     public_key := public_key w;
     server_rsa_key := server_rsa_key w;
     server_aes_key := server_aes_key w;
     _disconnected := v;
     stop_event := stop_event w;
     pause_event := pause_event w;
     block_event := block_event w;
     blocker := blocker w;
     listeners_running := listeners_running w;
     screen_share := screen_share w;
     img_size := img_size w;
     disconnect_callback := disconnect_callback w;
     disconnect_calls := disconnect_calls w;
     injected := injected w;
     screen := screen w;
     captures := captures w;
     clock := clock w;
     clock_reads := clock_reads w;
     sleeps := sleeps w;
     urandom := urandom w;
     stdout := stdout w |}.

Definition set_stop_event (v : bool) (w : world) : world :=
  {| client := client w;
     connect_outcome := connect_outcome w;
     private_key := private_key w;
     public_key := public_key w;
     server_rsa_key := server_rsa_key w;
     server_aes_key := server_aes_key w;
     _disconnected := _disconnected w;
     stop_event := v;
     pause_event := pause_event w;
     block_event := block_event w;
     blocker := blocker w;
     listeners_running := listeners_running w;
     screen_share := screen_share w;
     img_size := img_size w;
     disconnect_callback := disconnect_callback w;
     disconnect_calls := disconnect_calls w;
     injected := injected w;
     screen := screen w;
     captures := captures w;
     clock := clock w;
     clock_reads := clock_reads w;
     sleeps := sleeps w;
     urandom := urandom w;
     stdout := stdout w |}.

Definition set_pause_event (v : bool) (w : world) : world :=
  {| client := client w;
     connect_outcome := connect_outcome w;
     private_key := private_key w;
     public_key := public_key w;
     server_rsa_key := server_rsa_key w;
     server_aes_key := server_aes_key w;
     _disconnected := _disconnected w;
     stop_event := stop_event w;
     pause_event := v;
     block_event := block_event w;
     blocker := blocker w;
     listeners_running := listeners_running w;
     screen_share := screen_share w;
     img_size := img_size w;
     disconnect_callback := disconnect_callback w;
     disconnect_calls := disconnect_calls w;
     injected := injected w;
     screen := screen w;
     captures := captures w;
     clock := clock w;
     clock_reads := clock_reads w;
     sleeps := sleeps w;
     urandom := urandom w;
     stdout := stdout w |}.

Definition set_block_event (v : bool) (w : world) : world :=
  {| client := client w;
     connect_outcome := connect_outcome w;
     private_key := private_key w;
     public_key := public_key w;
     server_rsa_key := server_rsa_key w;
     server_aes_key := server_aes_key w;
     _disconnected := _disconnected w;
     stop_event := stop_event w;
     pause_event := pause_event w;
     block_event := v;
     blocker := blocker w;
     listeners_running := listeners_running w;
     screen_share := screen_share w;
     img_size := img_size w;
     disconnect_callback := disconnect_callback w;
     disconnect_calls := disconnect_calls w;
     injected := injected w;
     screen := screen w;
     captures := captures w;
     clock := clock w;
     clock_reads := clock_reads w;
     sleeps := sleeps w;
     urandom := urandom w;
     stdout := stdout w |}.

Definition set_blocker (v : UserBlocker) (w : world) : world :=
  {| client := client w;
     connect_outcome := connect_outcome w;
     private_key := private_key w;
     public_key := public_key w;
     server_rsa_key := server_rsa_key w;
     server_aes_key := server_aes_key w;
     _disconnected := _disconnected w;
     stop_event := stop_event w;
     pause_event := pause_event w;
     block_event := block_event w;
     blocker := v;
     listeners_running := listeners_running w;
     screen_share := screen_share w;
     img_size := img_size w;
     disconnect_callback := disconnect_callback w;
     disconnect_calls := disconnect_calls w;
     injected := injected w;
     screen := screen w;
     captures := captures w;
     clock := clock w;
     clock_reads := clock_reads w;
     sleeps := sleeps w;
     urandom := urandom w;
     stdout := stdout w |}.

Definition set_listeners_running (v : nat) (w : world) : world :=
  {| client := client w;
     connect_outcome := connect_outcome w;
     private_key := private_key w;
     public_key := public_key w;
     server_rsa_key := server_rsa_key w;
     server_aes_key := server_aes_key w;
     _disconnected := _disconnected w;
     stop_event := stop_event w;
     pause_event := pause_event w;
     block_event := block_event w;
     blocker := blocker w;
     listeners_running := v;
     screen_share := screen_share w;
     img_size := img_size w;
     disconnect_callback := disconnect_callback w;
     disconnect_calls := disconnect_calls w;
     injected := injected w;
     screen := screen w;
     captures := captures w;
     clock := clock w;
     clock_reads := clock_reads w;
     sleeps := sleeps w;
     urandom := urandom w;
     stdout := stdout w |}.

Definition set_screen_share (v : option ScreenShare) (w : world) : world :=
  {| client := client w;
     connect_outcome := connect_outcome w;
     private_key := private_key w;
     public_key := public_key w;
     server_rsa_key := server_rsa_key w;
     server_aes_key := server_aes_key w;
     _disconnected := _disconnected w;
     stop_event := stop_event w;
     pause_event := pause_event w;
     block_event := block_event w;
     blocker := blocker w;
     listeners_running := listeners_running w;
     screen_share := v;
     img_size := img_size w;
     disconnect_callback := disconnect_callback w;
     disconnect_calls := disconnect_calls w;
     injected := injected w;
     screen := screen w;
     captures := captures w;
     clock := clock w;
     clock_reads := clock_reads w;
     sleeps := sleeps w;
     urandom := urandom w;
     stdout := stdout w |}.

Definition set_img_size (v : Z * Z) (w : world) : world :=
  {| client := client w;
     connect_outcome := connect_outcome w;
     private_key := private_key w;
     public_key := public_key w;
     server_rsa_key := server_rsa_key w;
     server_aes_key := server_aes_key w;
     _disconnected := _disconnected w;
     stop_event := stop_event w;
     pause_event := pause_event w;
     block_event := block_event w;
     blocker := blocker w;
     listeners_running := listeners_running w;
     screen_share := screen_share w;
     img_size := v;
     disconnect_callback := disconnect_callback w;
     disconnect_calls := disconnect_calls w;
     injected := injected w;
     screen := screen w;
     captures := captures w;
     clock := clock w;
     clock_reads := clock_reads w;
     sleeps := sleeps w;
     urandom := urandom w;
     stdout := stdout w |}.

Definition set_disconnect_calls (v : list string) (w : world) : world :=
  {| client := client w;
     connect_outcome := connect_outcome w;
     private_key := private_key w;
     public_key := public_key w;
     server_rsa_key := server_rsa_key w;
     server_aes_key := server_aes_key w;
     _disconnected := _disconnected w;
     stop_event := stop_event w;
     pause_event := pause_event w;
     block_event := block_event w;
     blocker := blocker w;
     listeners_running := listeners_running w;
     screen_share := screen_share w;
     img_size := img_size w;
     disconnect_callback := disconnect_callback w;
     disconnect_calls := v;
     injected := injected w;
     screen := screen w;
     captures := captures w;
     clock := clock w;
     clock_reads := clock_reads w;
     sleeps := sleeps w;
     urandom := urandom w;
     stdout := stdout w |}.

Definition set_injected (v : list input_event) (w : world) : world :=
  {| client := client w;
     connect_outcome := connect_outcome w;
     private_key := private_key w;
     public_key := public_key w;
     server_rsa_key := server_rsa_key w;
     server_aes_key := server_aes_key w;
     _disconnected := _disconnected w;
     stop_event := stop_event w;
     pause_event := pause_event w;
     block_event := block_event w;
     blocker := blocker w;
     listeners_running := listeners_running w;
     screen_share := screen_share w;
     img_size := img_size w;
     disconnect_callback := disconnect_callback w;
     disconnect_calls := disconnect_calls w;
     injected := v;
     screen := screen w;
     captures := captures w;
     clock := clock w;
     clock_reads := clock_reads w;
     sleeps := sleeps w;
     urandom := urandom w;
     stdout := stdout w |}.

Definition set_captures (v : nat) (w : world) : world :=
  {| client := client w;
     connect_outcome := connect_outcome w;
     private_key := private_key w;
     public_key := public_key w;
     server_rsa_key := server_rsa_key w;
     server_aes_key := server_aes_key w;
     _disconnected := _disconnected w;
     stop_event := stop_event w;
     pause_event := pause_event w;
     block_event := block_event w;
     blocker := blocker w;
     listeners_running := listeners_running w;
     screen_share := screen_share w;
     img_size := img_size w;
     disconnect_callback := disconnect_callback w;
     disconnect_calls := disconnect_calls w;
     injected := injected w;
     screen := screen w;
     captures := v;
     clock := clock w;
     clock_reads := clock_reads w;
     sleeps := sleeps w;
     urandom := urandom w;
     stdout := stdout w |}.

Definition set_clock_reads (v : nat) (w : world) : world :=
  {| client := client w;
     connect_outcome := connect_outcome w;
     private_key := private_key w;
     public_key := public_key w;
     server_rsa_key := server_rsa_key w;
     server_aes_key := server_aes_key w;
     _disconnected := _disconnected w;
     stop_event := stop_event w;
     pause_event := pause_event w;
     block_event := block_event w;
     blocker := blocker w;
     listeners_running := listeners_running w;
     screen_share := screen_share w;
     img_size := img_size w;
     disconnect_callback := disconnect_callback w;
     disconnect_calls := disconnect_calls w;
     injected := injected w;
     screen := screen w;
     captures := captures w;
     clock := clock w;
     clock_reads := v;
     sleeps := sleeps w;
     urandom := urandom w;
     stdout := stdout w |}.

Definition set_sleeps (v : list Q) (w : world) : world :=
  {| client := client w;
     connect_outcome := connect_outcome w;
     private_key := private_key w;
     public_key := public_key w;
     server_rsa_key := server_rsa_key w;
     server_aes_key := server_aes_key w;
     _disconnected := _disconnected w;
     stop_event := stop_event w;
     pause_event := pause_event w;
     block_event := block_event w;
     blocker := blocker w;
     listeners_running := listeners_running w;
     screen_share := screen_share w;
     img_size := img_size w;
     disconnect_callback := disconnect_callback w;
     disconnect_calls := disconnect_calls w;
     injected := injected w;
     screen := screen w;
     captures := captures w;
     clock := clock w;
     clock_reads := clock_reads w;
     sleeps := v;
     urandom := urandom w;
     stdout := stdout w |}.

Definition set_urandom (v : entropy) (w : world) : world :=
  {| client := client w;
     connect_outcome := connect_outcome w;
     private_key := private_key w;
     public_key := public_key w;
     server_rsa_key := server_rsa_key w;
     server_aes_key := server_aes_key w;
     _disconnected := _disconnected w;
     stop_event := stop_event w;
     pause_event := pause_event w;
     block_event := block_event w;
     blocker := blocker w;
     listeners_running := listeners_running w;
     screen_share := screen_share w;
     img_size := img_size w;
     disconnect_callback := disconnect_callback w;
     disconnect_calls := disconnect_calls w;
     injected := injected w;
     screen := screen w;
     captures := captures w;
     clock := clock w;
     clock_reads := clock_reads w;
     sleeps := sleeps w;
     urandom := v;
     stdout := stdout w |}.

Definition set_stdout (v : list log_line) (w : world) : world :=
  {| client := client w;
     connect_outcome := connect_outcome w;
     private_key := private_key w;
     public_key := public_key w;
     server_rsa_key := server_rsa_key w;
     server_aes_key := server_aes_key w;
     _disconnected := _disconnected w;
     stop_event := stop_event w;
     pause_event := pause_event w;
     block_event := block_event w;
     blocker := blocker w;
     listeners_running := listeners_running w;
     screen_share := screen_share w;
     img_size := img_size w;
     disconnect_callback := disconnect_callback w;
     disconnect_calls := disconnect_calls w;
     injected := injected w;
     screen := screen w;
     captures := captures w;
     clock := clock w;
     clock_reads := clock_reads w;
     sleeps := sleeps w;
     urandom := urandom w;
     stdout := v |}.

(** *** Primitive statements *)

Definition print (l : log_line) : M world unit :=
  modify (fun w => set_stdout (stdout w ++ [l]) w).

Definition perf_counter : M world Q :=
  fun w => (Ok (clock w (clock_reads w)), set_clock_reads (S (clock_reads w)) w).

Definition time_sleep (d : Q) : M world unit :=
  if Qle_bool 0 d then modify (fun w => set_sleeps (sleeps w ++ [d]) w)
  else raise ValueError.

Definition on_client {A} (op : socket -> result A * socket) : M world A :=
  fun w => let '(r, s') := op (client w) in (r, set_client s' w).

Definition client_recv_all (num_bytes : nat) : M world bytes :=
  on_client (fun s => recv_all s num_bytes).

Definition client_send (data : bytes) : M world unit :=
  on_client (fun s => sock_send s data).

Definition client_close : M world unit :=
  on_client (fun s => (Ok tt, sock_close s)).

Definition encrypt (key : bytes) (text : pytext) : M world (bytes * bytes) :=
  fun w =>
    let '(r, e) := encrypt_aes key text (urandom w) in (r, set_urandom e w).

(** [take_screenshot(width, height, quality=75)] *)
Definition take_screenshot (width height : Z) : M world bytes :=
  fun w => (screen w (captures w), set_captures (S (captures w)) w).

(** *** [UserBlocker] *)

Definition start_blocking : M world unit :=
  this <- gets blocker ;;
  match keyboard_listener this, mouse_listener this with
  | Some _, Some _ => ret tt
  | _, _ =>
      modify (fun w =>
        set_listeners_running (listeners_running w + 2)
          (set_blocker {| keyboard_listener := Some true;
                          mouse_listener := Some true |} w))
  end.

Definition stop_listener (l : option bool) : M world unit :=
  match l with
  | Some true => modify (fun w => set_listeners_running (listeners_running w - 1) w)
  | _ => ret tt
  end.

Definition stop_blocking : M world unit :=
  this <- gets blocker ;;
  stop_listener (keyboard_listener this) ;;
  stop_listener (mouse_listener this) ;;
  modify (set_blocker {| keyboard_listener := None; mouse_listener := None |}).

(** *** [InputController.handle_command] *)

Definition inject (ev : input_event) : M world unit :=
  modify (fun w => set_injected (injected w ++ [ev]) w).

(** [sliced_command[i]] *)
Definition index (l : list string) (i : nat) : M world string :=
  match nth_error l i with
  | Some x => ret x
  | None => raise IndexError
  end.

Definition handle_command (command : string) : M world unit :=
  try_except
    (was_blocking <- gets block_event ;;
     (if was_blocking : bool then stop_blocking else ret tt) ;;
     let sliced_command := split_on ":" command in
     head <- index sliced_command 0 ;;
     (if String.eqb head "button" then
        button_num <- index sliced_command 1 ;;
        sx <- index sliced_command 2 ;;
        x <- lift (int sx) ;;
        sy <- index sliced_command 3 ;;
        y <- lift (int sy) ;;
        match MOUSE_BUTTON_MAP button_num with
        | Some button => inject (MousePosition x y) ;; inject (MouseClick button)
        | None => print (LogUnknownButton button_num)
        end
      else if String.eqb head "key_down" then
        key <- index sliced_command 1 ;; inject (KeyPress key)
      else if String.eqb head "key_up" then
        key <- index sliced_command 1 ;; inject (KeyRelease key)
      else ret tt) ;;
     if was_blocking : bool then start_blocking else ret tt)
    (fun e => print (LogInputError command e)).

(** *** [ScreenShare] *)

Definition share_stop : M world unit :=
  modify (fun w =>
    match screen_share w with
    | Some share =>
        set_screen_share
          (Some {| share_stop_event := true;
                   share_img_size := share_img_size share |}) w
    | None => w
    end).

Definition update_size (new_size : Z * Z) : M world unit :=
  print (LogUpdatingSize new_size) ;;
  modify (fun w =>
    match screen_share w with
    | Some share =>
        set_screen_share
          (Some {| share_stop_event := share_stop_event share;
                   share_img_size := new_size |}) w
    | None => w
    end).

(** [max(0, x)] *)
Definition max0 (x : Q) : Q := if Qle_bool x 0 then 0 else x.

(** The statements of the [try] block of one cycle. *)
Definition ScreenShare_cycle (share : ScreenShare) : M world unit :=
  print LogTakingScreenshot ;;
  start <- perf_counter ;;
  let '(width, height) := share_img_size share in
  image_bytes <- take_screenshot width height ;;
  match image_bytes with
  | [] => print LogScreenshotEmpty ;; time_sleep (1 # 2)
  | _ =>
      compressed_bytes <- lift (zlib_compress image_bytes) ;;
      match compressed_bytes with
      | [] => print LogCompressionFailed ;; time_sleep (1 # 2)
      | _ =>
          key <- gets server_aes_key ;;
          '(iv, encrypted) <- encrypt key (PyBytes compressed_bytes) ;;
          match encrypted with
          | [] => print LogEncryptionFailed ;; time_sleep (1 # 2)
          | _ =>
              n <- lift (to_bytes (length encrypted) 8) ;;
              client_send n ;;
              client_send iv ;;
              client_send encrypted ;;
              print (LogFrameSent (length image_bytes)
                       (length compressed_bytes) (length encrypted)) ;;
              finish <- perf_counter ;;
              let elapsed := (finish - start)%Q in
              time_sleep (max0 (1 / FPS - elapsed))
          end
      end
  end.

(** One turn of the [while] loop of [ScreenShare.run]. *)
Definition ScreenShare_iteration (share : ScreenShare) : M world unit :=
  paused <- gets pause_event ;;
  if paused : bool then time_sleep (1 # 2)
  else
    try_except (ScreenShare_cycle share)
      (fun e => print (LogShareError e) ;; time_sleep 1).

(** [ScreenShare.run], observed for at most [turns] turns.  The
    thread object is read anew at every turn: the command loop may
    have changed its size or set its stop event in between.  Where no
    thread object has been created no thread is running. *)
Fixpoint ScreenShare_run (turns : nat) : M world loop_state :=
  match turns with
  | 0 => ret StillRunning
  | S turns' =>
      share <- gets screen_share ;;
      match share with
      | None => ret Finished
      | Some share =>
          if share_stop_event share then ret Finished
          else ScreenShare_iteration share ;; ScreenShare_run turns'
      end
  end.

(** *** [Client] *)

(** The body of [Client.stop], the statements inside
    [with self._lock:], as one thread runs them once it holds the
    lock.  The lock itself and the threads that compete for it are
    modelled by [stop_step] below. *)
Definition Client_stop (stop_reason : string) : M world unit :=
  disconnected <- gets _disconnected ;;
  if disconnected : bool then ret tt
  else
    modify (set__disconnected true) ;;
    modify (set_stop_event true) ;;
    share_stop ;;
    stop_blocking ;;
    client_close ;;
    has_callback <- gets disconnect_callback ;;
    if has_callback : bool
    then modify (fun w => set_disconnect_calls (disconnect_calls w ++ [stop_reason]) w)
    else ret tt.

(** *** [Client.stop] called from several threads

    [Client.stop] may be called by the command loop, in the [finally]
    of [run], and by other threads at the same time.  The client
    object is its state together with [self._lock]; [_lock] names the
    thread that is inside [with self._lock:], if any.  A thread that
    has called [stop] is at one of the statements of [stop_pc], and
    [stop_step] runs the statement it is at: [AtAcquire] can only be
    passed while the lock is free, and every other statement is one
    step, so that the statements of different threads interleave in
    any order the lock allows. *)
Record locked_client : Type := {
  _lock : option nat;
  session : world
}.

Definition stop_step (me : nat) (stop_reason : string) (pc : stop_pc)
  (c : locked_client) : option (stop_pc * locked_client) :=
  let w := session c in
  let inside (pc' : stop_pc) (w' : world) :=
    Some (pc', {| _lock := _lock c; session := w' |}) in
  match pc with
  | AtAcquire =>
      match _lock c with
      | None => Some (AtTest, {| _lock := Some me; session := w |})
      | Some _ => None
      end
  | AtTest =>
      inside (if _disconnected w then AtRelease else AtSetDisconnected) w
  | AtSetDisconnected => inside AtSetStopEvent (set__disconnected true w)
  | AtSetStopEvent => inside AtShareStop (set_stop_event true w)
  | AtShareStop => inside AtStopBlocking (snd (share_stop w))
  | AtStopBlocking => inside AtClose (snd (stop_blocking w))
  | AtClose => inside AtCallback (snd (client_close w))
  | AtCallback =>
      inside AtRelease
        (if disconnect_callback w
         then set_disconnect_calls (disconnect_calls w ++ [stop_reason]) w
         else w)
  | AtRelease => Some (Returned, {| _lock := None; session := w |})
  | Returned => None
  end.

(** The scheduler lets thread [me] run one statement of its call
    [stop(reasons me)]; a thread that waits for the lock or has
    returned does nothing. *)
Definition schedule_thread (reasons : nat -> string) (me : nat)
  (st : (nat -> stop_pc) * locked_client) : (nat -> stop_pc) * locked_client :=
  match stop_step me (reasons me) (fst st me) (snd st) with
  | Some (pc', c') => (fun t => if t =? me then pc' else fst st t, c')
  | None => st
  end.

(** A run under a schedule, the list of the threads that are given a
    step, in order. *)
Definition interleave (reasons : nat -> string) (schedule : list nat)
  (st : (nat -> stop_pc) * locked_client) : (nat -> stop_pc) * locked_client :=
  fold_left (fun st me => schedule_thread reasons me st) schedule st.

(** Every thread has called [stop] and none has entered it. *)
Definition stop_called (w : world) : (nat -> stop_pc) * locked_client :=
  (fun _ => AtAcquire, {| _lock := None; session := w |}).

(** [Client.key_exchange] *)
Definition rsa_decrypt_M (text : bytes) : M world bytes :=
  fun w => (rsa_decrypt (private_key w) text, w).

Definition key_exchange : M world unit :=
  pub_key_bytes <- gets (fun w => serialize_public_key (public_key w)) ;;
  n <- lift (to_bytes (length pub_key_bytes) 4) ;;
  client_send n ;;
  client_send pub_key_bytes ;;
  len_field <- client_recv_all 4 ;;
  server_key_bytes <- client_recv_all (from_bytes len_field) ;;
  server_key <- lift (deserialize_public_key server_key_bytes) ;;
  modify (set_server_rsa_key (Some server_key)) ;;
  len_field <- client_recv_all 4 ;;
  encrypted_aes_key <- client_recv_all (from_bytes len_field) ;;
  key <- rsa_decrypt_M encrypted_aes_key ;;
  modify (set_server_aes_key key).

(** The [resize] branch, with its own [except ValueError]. *)
Definition resize (command : string) : M world unit :=
  try_except
    (match split_on ":" command with
     | [_; width; height] =>
         width <- lift (int width) ;;
         height <- lift (int height) ;;
         print (LogResizing width height) ;;
         modify (set_img_size (width, height)) ;;
         share <- gets screen_share ;;
         match share with
         | Some _ => update_size (width, height)
         | None => ret tt
         end
     | _ => raise ValueError
     end)
    (fun e =>
       match e with
       | ValueError => print (LogInvalidResize command)
       | _ => raise e
       end).

(** [command.startswith(("key_down", "key_up", "button"))] *)
Definition is_input_command (command : string) : bool :=
  String.prefix "key_down" command || String.prefix "key_up" command
  || String.prefix "button" command.

(** The second [if] chain of the loop body. *)
Definition apply_flags (command : string) : M world unit :=
  if String.eqb command "block" then
    modify (set_block_event true) ;; start_blocking ;; print (LogBlocking true)
  else if String.eqb command "unblock" then
    modify (set_block_event false) ;; stop_blocking ;; print (LogBlocking false)
  else if String.eqb command "pause" then
    modify (set_pause_event true) ;; print (LogPaused true)
  else if String.eqb command "unpause" then
    modify (set_pause_event false) ;; print (LogPaused false)
  else ret tt.

(** One turn of the command loop.  [None] is the end of the body,
    [Some reason] a [break] with [stop_reason] set to [reason]; at the
    head of every turn [stop_reason] is ["client crashed"]. *)
Definition Client_iteration : M world (option string) :=
  try_except
    (len_field <- client_recv_all 4 ;;
     let cmd_len := from_bytes len_field in
     iv <- client_recv_all 16 ;;
     encrypted_cmd <- client_recv_all cmd_len ;;
     key <- gets server_aes_key ;;
     plain <- lift (decrypt_aes key iv encrypted_cmd) ;;
     command <- lift (decode plain) ;;
     if is_input_command command then
       handle_command command ;; apply_flags command ;; ret None
     else if String.prefix "resize" command then
       resize command ;; apply_flags command ;; ret None
     else if String.eqb command "kick" then
       print LogKickReceived ;; ret (Some "kicked from session"%string)
     else apply_flags command ;; ret None)
    (fun e =>
       print (LogClientError e) ;;
       if is_ConnectionError e then ret (Some "session closed"%string)
       else ret (Some "client crashed"%string)).

Fixpoint Client_loop (turns : nat) : M world (option string) :=
  match turns with
  | 0 => ret None
  | S turns' =>
      stopped <- gets stop_event ;;
      if stopped : bool then ret (Some "client crashed"%string)
      else
        exit <- Client_iteration ;;
        match exit with
        | Some reason => ret (Some reason)
        | None => Client_loop turns'
        end
  end.

(** The command loop followed by the [finally: self.stop(stop_reason)]
    of [Client.run]. *)
Definition Client_serve (turns : nat) : M world loop_state :=
  fun w =>
    match Client_loop turns w with
    | (Ok None, w') => (Ok StillRunning, w')
    | (Ok (Some stop_reason), w') =>
        (Client_stop stop_reason ;; ret Finished) w'
    | (Raise e, w') =>
        (Client_stop "client crashed" ;; raise e) w'
    end.

(** [self.client.connect((self.address, self.port))] *)
Definition connect : M world unit :=
  fun w =>
    match connect_outcome w with
    | Some e => (Raise e, w)
    | None => (Ok tt, w)
    end.

(** [Client.run] *)
Definition Client_run (turns : nat) : M world loop_state :=
  fun w =>
    match (connect ;;
           print LogConnected ;;
           key_exchange ;;
           modify (set_screen_share
                     (Some {| share_stop_event := false;
                              share_img_size := (1920, 1080)%Z |}))) w with
    | (Ok _, w') => Client_serve turns w'
    | (Raise e, w') => (Client_stop "client crashed" ;; raise e) w'
    end.

End Threads.
End ClientThreads.
(** * Properties of Encryption.py *)
Module EncryptionFacts.
Import Encryption.

Lemma byte_xor_cancel (a b : byte) : byte_xor (byte_xor a b) b = a.
Proof.
  unfold byte_xor.
  rewrite <- (Byte.of_bits_to_bits a) at 2.
  destruct (Byte.to_bits a) as (a0 & a1 & a2 & a3 & a4 & a5 & a6 & a7).
  destruct (Byte.to_bits b) as (b0 & b1 & b2 & b3 & b4 & b5 & b6 & b7) eqn:Hb.
  rewrite Byte.to_bits_of_bits.
  repeat rewrite xorb_assoc; repeat rewrite xorb_nilpotent;
    repeat rewrite xorb_false_r.
  reflexivity.
Qed.

Lemma xor_bytes_length (a b : bytes) :
  length (xor_bytes a b) = Nat.min (length a) (length b).
Proof.
  revert b; induction a as [|x a IH]; intros [|y b]; simpl; auto.
Qed.

Lemma xor_bytes_cancel (a b : bytes) :
  length a = length b -> xor_bytes (xor_bytes a b) b = a.
Proof.
  revert b; induction a as [|x a IH]; intros [|y b] H; simpl in *;
    try discriminate; auto.
  rewrite byte_xor_cancel, IH; auto.
Qed.

(** ** Block splitting *)

Lemma take_blocks_length n data : length (take_blocks n data) = n.
Proof. revert data; induction n; simpl; auto. Qed.

Lemma take_blocks_app blk rest n :
  length blk = block_len ->
  take_blocks (S n) (blk ++ rest) = blk :: take_blocks n rest.
Proof.
  intros H. cbn [take_blocks]. rewrite <- H.
  rewrite firstn_app, skipn_app, Nat.sub_diag, firstn_all, skipn_all.
  cbn [firstn skipn app]. rewrite app_nil_r. reflexivity.
Qed.

Lemma take_blocks_concat n data :
  n * block_len <= length data ->
  concat (take_blocks n data) = firstn (n * block_len) data.
Proof.
  revert data; induction n as [|n IH]; intros data H; auto.
  replace (S n * block_len) with (block_len + n * block_len) in * by lia.
  cbn [take_blocks concat].
  rewrite IH by (rewrite length_skipn; lia).
  rewrite <- (firstn_skipn block_len data) at 3.
  rewrite firstn_app, length_firstn, firstn_firstn.
  replace (Nat.min block_len (length data)) with block_len by lia.
  replace (block_len + n * block_len - block_len) with (n * block_len) by lia.
  replace (Nat.min (block_len + n * block_len) block_len) with block_len by lia.
  reflexivity.
Qed.

Lemma take_blocks_all_len n data :
  n * block_len <= length data ->
  Forall (fun blk => length blk = block_len) (take_blocks n data).
Proof.
  revert data; induction n as [|n IH]; intros data H; cbn [take_blocks];
    constructor;
    replace (S n * block_len) with (block_len + n * block_len) in * by lia.
  - rewrite length_firstn. lia.
  - apply IH. rewrite length_skipn. lia.
Qed.

(** ** CBC *)
Section CBC.
Context {C : BlockCipher} {L : BlockCipherLaws C}.

Lemma cbc_encrypt_blocks_length key prev blocks :
  length prev = block_len ->
  Forall (fun blk => length blk = block_len) blocks ->
  length (cbc_encrypt_blocks key prev blocks) = length blocks * block_len.
Proof.
  intros Hp Hb; revert prev Hp.
  induction Hb as [|p rest Hlen _ IH]; intros prev Hp; simpl; auto.
  assert (Hc : length (aes_encrypt_block key (xor_bytes p prev)) = block_len).
  { apply aes_encrypt_block_length. rewrite xor_bytes_length. lia. }
  rewrite length_app, Hc, (IH _ Hc). reflexivity.
Qed.

Lemma cbc_decrypt_encrypt_blocks key prev blocks :
  valid_key_len key = true ->
  length prev = block_len ->
  Forall (fun blk => length blk = block_len) blocks ->
  cbc_decrypt_blocks key prev
    (take_blocks (length blocks) (cbc_encrypt_blocks key prev blocks))
  = concat blocks.
Proof.
  intros Hk Hp Hb; revert prev Hp.
  induction Hb as [|p rest Hlen _ IH]; intros prev Hp; auto.
  assert (Hx : length (xor_bytes p prev) = block_len).
  { rewrite xor_bytes_length. lia. }
  assert (Hc : length (aes_encrypt_block key (xor_bytes p prev)) = block_len).
  { now apply aes_encrypt_block_length. }
  cbn [cbc_encrypt_blocks length].
  rewrite take_blocks_app by exact Hc.
  cbn [cbc_decrypt_blocks concat].
  rewrite aes_decrypt_encrypt_block by assumption.
  rewrite xor_bytes_cancel by congruence.
  rewrite (IH _ Hc). reflexivity.
Qed.

End CBC.

(** ** PKCS7 *)

Definition pad_size_of (text : bytes) : nat :=
  block_len - length text mod block_len.

Lemma pad_size_of_range text : 1 <= pad_size_of text <= block_len.
Proof.
  unfold pad_size_of.
  pose proof (Nat.mod_upper_bound (length text) block_len).
  unfold block_len in *. lia.
Qed.

Lemma padder_update_finalize text :
  fst (padder_update [] text) ++ padder_finalize (snd (padder_update [] text))
  = text ++ repeat (byte_of_nat (pad_size_of text)) (pad_size_of text).
Proof.
  unfold padder_update, padder_finalize, pad_size_of. cbn [app fst snd].
  set (n := length text / block_len).
  assert (Hdm : length text = n * block_len + length text mod block_len).
  { unfold n. rewrite (Nat.mul_comm _ block_len).
    apply Nat.div_mod_eq. }
  rewrite length_skipn.
  replace (length text - n * block_len) with (length text mod block_len) by lia.
  rewrite app_assoc, firstn_skipn. reflexivity.
Qed.

Lemma padded_length text :
  length (text ++ repeat (byte_of_nat (pad_size_of text)) (pad_size_of text))
  = (length text / block_len + 1) * block_len.
Proof.
  rewrite length_app, repeat_length. unfold pad_size_of.
  pose proof (Nat.div_mod_eq (length text) block_len).
  pose proof (Nat.mod_upper_bound (length text) block_len).
  unfold block_len in *. lia.
Qed.

Lemma byte_to_nat_of_nat n : n < 256 -> Byte.to_nat (byte_of_nat n) = n.
Proof.
  intros H. unfold byte_of_nat.
  destruct (Byte.of_nat n) as [b|] eqn:E.
  - apply Byte.to_of_nat in E. exact E.
  - apply Byte.of_nat_None_iff in E. lia.
Qed.

Lemma last_app_repeat (l : bytes) b n :
  0 < n -> last (l ++ repeat b n) x00 = b.
Proof.
  intros Hn. destruct n as [|n]; [lia|].
  replace (S n) with (n + 1) by lia.
  rewrite repeat_app, app_assoc. cbn [repeat]. apply last_last.
Qed.

Lemma forallb_repeat {A} (f : A -> bool) a n :
  f a = true -> forallb f (repeat a n) = true.
Proof. intros H; induction n; simpl; auto. rewrite H; auto. Qed.

(** Unpadding the padded text: [unpadder.update] hands out all blocks
    but the last, and [unpadder.finalize] strips the padding from the
    last one. *)
Lemma unpadder_padded text :
  let padded :=
    text ++ repeat (byte_of_nat (pad_size_of text)) (pad_size_of text) in
  let q := length text / block_len in
  fst (unpadder_update [] padded) = firstn (q * block_len) text /\
  unpadder_finalize (snd (unpadder_update [] padded))
  = Ok (skipn (q * block_len) text).
Proof.
  intros padded q.
  pose proof (pad_size_of_range text) as Hr.
  assert (Hdm : length text = q * block_len + length text mod block_len).
  { unfold q. rewrite (Nat.mul_comm _ block_len). apply Nat.div_mod_eq. }
  assert (Hps : pad_size_of text = block_len - length text mod block_len)
    by reflexivity.
  assert (Hlen : length padded = (q + 1) * block_len)
    by apply padded_length.
  unfold unpadder_update. cbn [app fst snd].
  rewrite Hlen, Nat.div_mul by discriminate.
  replace (Nat.max (q + 1 - 1) 0) with q by lia.
  unfold padded at 1 2.
  rewrite firstn_app, skipn_app.
  replace (q * block_len - length text) with 0 by lia.
  cbn [firstn skipn]. rewrite app_nil_r. split; [reflexivity|].
  set (tail := skipn (q * block_len) text).
  assert (Htail : length tail = length text mod block_len).
  { unfold tail. rewrite length_skipn. lia. }
  set (ps := pad_size_of text) in *.
  assert (Hbuf : length (tail ++ repeat (byte_of_nat ps) ps) = block_len).
  { rewrite length_app, repeat_length. lia. }
  assert (Hlast : Byte.to_nat (last (tail ++ repeat (byte_of_nat ps) ps) x00)
                  = ps).
  { rewrite last_app_repeat by lia. apply byte_to_nat_of_nat.
    unfold block_len in *. lia. }
  unfold unpadder_finalize, check_pkcs7_padding.
  rewrite Hbuf, Nat.eqb_refl, Hlast. cbn [negb].
  replace (block_len - ps) with (length tail) by lia.
  rewrite skipn_app, Nat.sub_diag, skipn_all, firstn_app, Nat.sub_diag,
    firstn_all.
  cbn [skipn firstn app]. rewrite app_nil_r.
  rewrite forallb_repeat
    by (rewrite byte_to_nat_of_nat by (unfold block_len in *; lia);
        apply Nat.eqb_refl).
  replace (0 <? ps) with true by (symmetry; apply Nat.ltb_lt; lia).
  replace (ps <=? block_len) with true by (symmetry; apply Nat.leb_le; lia).
  reflexivity.
Qed.

Lemma os_urandom_length n e : length (fst (os_urandom n e)) = n.
Proof. unfold os_urandom. cbn [fst]. now rewrite length_map, length_seq. Qed.

Section EncryptDecrypt.
Context {C : BlockCipher} {L : BlockCipherLaws C}.

(** What [encrypt_aes] returns for a key that [algorithms.AES]
    accepts. *)
Lemma encrypt_aes_value key text e :
  valid_key_len key = true ->
  let plain := text_bytes text in
  let iv := fst (os_urandom 16 e) in
  let padded :=
    plain ++ repeat (byte_of_nat (pad_size_of plain)) (pad_size_of plain) in
  encrypt_aes key text e
  = (Ok (iv, cbc_encrypt_blocks key iv
               (take_blocks (length plain / block_len + 1) padded)),
     snd (os_urandom 16 e)).
Proof.
  intros Hk. cbv zeta. unfold encrypt_aes.
  pose proof (os_urandom_length 16 e) as Hivl.
  destruct (os_urandom 16 e) as [iv e'] eqn:Hu. cbn [fst snd] in *.
  set (plain := text_bytes text).
  pose proof (padder_update_finalize plain) as Hp.
  destruct (padder_update [] plain) as [out buffer]. cbn [fst snd] in Hp.
  rewrite Hp.
  unfold Cipher. rewrite Hk. fold block_len in Hivl.
  rewrite Hivl, Nat.eqb_refl. cbn [negb result_bind].
  unfold encryptor_update_finalize. cbn [cipher_key cipher_iv].
  rewrite padded_length.
  rewrite Nat.Div0.mod_mul, Nat.div_mul by discriminate.
  reflexivity.
Qed.

Lemma encrypt_aes_invalid_key key text e :
  valid_key_len key = false ->
  fst (encrypt_aes key text e) = Raise ValueError.
Proof.
  intros Hk. unfold encrypt_aes.
  destruct (os_urandom 16 e) as [iv e'].
  destruct (padder_update [] (text_bytes text)) as [out buffer].
  unfold Cipher. rewrite Hk. reflexivity.
Qed.

Lemma encrypt_aes_ciphertext_length key text e iv ct :
  fst (encrypt_aes key text e) = Ok (iv, ct) ->
  length iv = 16 /\
  length ct = (length (text_bytes text) / block_len + 1) * block_len.
Proof.
  intros H. destruct (valid_key_len key) eqn:Hk.
  - rewrite (encrypt_aes_value key text e Hk) in H. cbn [fst] in H.
    set (plain := text_bytes text) in *.
    set (padded := plain ++ _) in H.
    assert (Hiv : iv = fst (os_urandom 16 e)) by congruence.
    assert (Hct : ct = cbc_encrypt_blocks key iv
                         (take_blocks (length plain / block_len + 1) padded))
      by congruence.
    assert (Hivl : length iv = block_len)
      by (rewrite Hiv; apply os_urandom_length).
    split; [exact Hivl|].
    rewrite Hct, cbc_encrypt_blocks_length.
    + rewrite take_blocks_length. reflexivity.
    + exact Hivl.
    + apply take_blocks_all_len. unfold padded. rewrite padded_length. lia.
  - rewrite encrypt_aes_invalid_key in H by assumption. discriminate.
Qed.

(** The round trip, for every key AES accepts. *)
Lemma decrypt_encrypt_valid_key (key : bytes) (text : pytext) (e : entropy) :
  valid_key_len key = true ->
  exists iv ct,
    fst (encrypt_aes key text e) = Ok (iv, ct) /\
    decrypt_aes key iv ct = Ok (text_bytes text).
Proof.
  intros Hk.
  set (plain := text_bytes text).
  set (q := length plain / block_len).
  set (padded :=
         plain ++ repeat (byte_of_nat (pad_size_of plain)) (pad_size_of plain)).
  set (iv := fst (os_urandom 16 e)).
  set (blocks := take_blocks (q + 1) padded).
  exists iv, (cbc_encrypt_blocks key iv blocks). split.
  { rewrite (encrypt_aes_value key text e Hk). reflexivity. }
  assert (Hiv : length iv = block_len) by apply os_urandom_length.
  assert (Hpl : length padded = (q + 1) * block_len) by apply padded_length.
  assert (Hbl : Forall (fun blk => length blk = block_len) blocks).
  { apply take_blocks_all_len. lia. }
  assert (Hn : length blocks = q + 1) by apply take_blocks_length.
  assert (Hct : length (cbc_encrypt_blocks key iv blocks) = (q + 1) * block_len).
  { rewrite cbc_encrypt_blocks_length by assumption.
    unfold blocks. now rewrite take_blocks_length. }
  unfold decrypt_aes, Cipher. fold block_len in Hiv.
  rewrite Hk, Hiv, Nat.eqb_refl. cbn [negb result_bind].
  unfold decryptor_update_finalize. cbn [cipher_key cipher_iv].
  rewrite Hct, Nat.Div0.mod_mul, Nat.div_mul by discriminate.
  cbn [Nat.eqb result_bind]. rewrite <- Hn.
  rewrite cbc_decrypt_encrypt_blocks by assumption.
  unfold blocks. rewrite take_blocks_concat by lia.
  rewrite <- Hpl, firstn_all.
  destruct (unpadder_padded plain) as [Hout Hfin].
  fold padded q in Hout, Hfin.
  destruct (unpadder_update [] padded) as [out buffer].
  cbn [fst snd] in Hout, Hfin. rewrite Hfin. cbn [result_bind].
  rewrite Hout, firstn_skipn. reflexivity.
Qed.

(** C1: for a 256-bit key and any plaintext, [encrypt_aes] returns a
    pair [(iv, ciphertext)], and [decrypt_aes] of that key, IV and
    ciphertext returns exactly the plaintext bytes. *)
Theorem decrypt_aes_encrypt_aes (key : bytes) (text : pytext) (e : entropy) :
  length key = 32 ->
  exists iv ct,
    fst (encrypt_aes key text e) = Ok (iv, ct) /\
    decrypt_aes key iv ct = Ok (text_bytes text).
Proof.
  intros Hlen. apply decrypt_encrypt_valid_key.
  unfold valid_key_len. rewrite Hlen. reflexivity.
Qed.

(** C10: whenever [encrypt_aes] returns (which it does for every key
    AES accepts), the IV has 16 bytes and the ciphertext of a plaintext
    of [L] bytes has [16 * (L / 16 + 1)] bytes: between 1 and 16
    padding bytes were added, so it is non-empty, a multiple of 16 and
    strictly longer than the plaintext. *)
Theorem encrypt_aes_lengths (key : bytes) (text : pytext) (e : entropy) :
  (valid_key_len key = true ->
   exists iv ct, fst (encrypt_aes key text e) = Ok (iv, ct)) /\
  (forall iv ct,
     fst (encrypt_aes key text e) = Ok (iv, ct) ->
     let L := length (text_bytes text) in
     length iv = 16 /\
     length ct = 16 * (L / 16 + 1) /\
     1 <= length ct - L <= 16 /\
     ct <> [] /\
     length ct mod 16 = 0 /\
     L < length ct).
Proof.
  split.
  - intros Hk. rewrite (encrypt_aes_value key text e Hk). cbn [fst]. eauto.
  - intros iv ct H L0.
    destruct (encrypt_aes_ciphertext_length key text e iv ct H) as [Hiv Hct].
    fold L0 in Hct. unfold block_len in Hct.
    pose proof (Nat.div_mod_eq L0 16) as Hdm.
    pose proof (Nat.mod_upper_bound L0 16) as Hub.
    assert (Hm : length ct mod 16 = 0)
      by (rewrite Hct; apply Nat.Div0.mod_mul).
    repeat split; try lia.
    intros ->. simpl in Hct. lia.
Qed.

End EncryptDecrypt.

End EncryptionFacts.

(** * Length fields *)
Module LengthFieldFacts.

Definition value (b : bytes) : N :=
  fold_left (fun acc x => (acc * 256 + Byte.to_N x)%N) b 0%N.

Lemma fold_value_app (l1 l2 : bytes) (a : N) :
  fold_left (fun acc x => (acc * 256 + Byte.to_N x)%N) (l1 ++ l2) a
  = fold_left (fun acc x => (acc * 256 + Byte.to_N x)%N) l2
      (fold_left (fun acc x => (acc * 256 + Byte.to_N x)%N) l1 a).
Proof. apply fold_left_app. Qed.

Lemma to_bytes_loop_acc len : forall n acc,
  to_bytes_loop len n acc = to_bytes_loop len n [] ++ acc.
Proof.
  induction len as [|len IH]; intros n acc; cbn [to_bytes_loop]; auto.
  rewrite (IH _ (_ :: acc)), (IH _ [_]), <- app_assoc. reflexivity.
Qed.

Lemma to_bytes_loop_length len : forall n,
  length (to_bytes_loop len n []) = len.
Proof.
  induction len as [|len IH]; intros n; cbn [to_bytes_loop]; auto.
  rewrite to_bytes_loop_acc, length_app, IH. simpl. lia.
Qed.

Lemma byte_of_small n :
  (n < 256)%N -> Byte.to_N (byte_of_nat (N.to_nat n)) = n.
Proof.
  intros H. unfold byte_of_nat.
  destruct (Byte.of_nat (N.to_nat n)) as [b|] eqn:E.
  - apply Byte.to_of_nat in E.
    rewrite Byte.to_N_via_nat, E. apply Nnat.N2Nat.id.
  - apply Byte.of_nat_None_iff in E. lia.
Qed.

Lemma to_bytes_loop_value len : forall n,
  value (to_bytes_loop len n []) = (n mod 256 ^ N.of_nat len)%N.
Proof.
  induction len as [|len IH]; intros n.
  - cbn. now rewrite N.mod_1_r.
  - cbn [to_bytes_loop]. rewrite to_bytes_loop_acc. unfold value in *.
    rewrite fold_value_app, IH. cbn [fold_left].
    rewrite byte_of_small by (apply N.mod_upper_bound; discriminate).
    rewrite Nnat.Nat2N.inj_succ, N.pow_succ_r'.
    rewrite N.Div0.mod_mul_r. lia.
Qed.

(** The length field written by [to_bytes] reads back as the length. *)
Lemma from_bytes_to_bytes n len b :
  to_bytes n len = Ok b -> length b = len /\ from_bytes b = n.
Proof.
  unfold to_bytes.
  destruct (N.of_nat n <? 256 ^ N.of_nat len)%N eqn:E; [|discriminate].
  intros [= <-]. split; [apply to_bytes_loop_length|].
  unfold from_bytes. fold (value (to_bytes_loop len (N.of_nat n) [])).
  rewrite to_bytes_loop_value, N.mod_small by now apply N.ltb_lt.
  apply Nnat.Nat2N.id.
Qed.

End LengthFieldFacts.

(** * Properties of FunctionsModule.py *)
Module FunctionsModuleFacts.
Import FunctionsModule.

(** ** One [recv] *)

Lemma recv_inbox_bound bufsize i packet i' :
  recv_inbox bufsize i = (Ok packet, i') -> length packet <= bufsize.
Proof.
  revert packet i'; induction i as [|[[|c chunk]|e] rest IH];
    intros packet i' H; cbn [recv_inbox] in H.
  - injection H as <- <-. simpl. lia.
  - eauto.
  - destruct (length (c :: chunk) <=? bufsize) eqn:Hle;
      injection H as <- <-.
    + now apply Nat.leb_le.
    + rewrite length_firstn. lia.
  - discriminate.
Qed.

Lemma recv_inbox_data bufsize i :
  0 < bufsize -> pending i <> [] ->
  exists b packet i',
    recv_inbox bufsize i = (Ok (b :: packet), i') /\
    length (b :: packet) <= bufsize /\
    pending i = (b :: packet) ++ pending i' /\
    (orderly i = true -> orderly i' = true).
Proof.
  intros Hpos. induction i as [|[[|c chunk]|e] rest IH]; intros Hne;
    cbn [pending recv_inbox app] in *; try congruence.
  - destruct (IH Hne) as (b & packet & i' & H1 & H2 & H3 & H4).
    exists b, packet, i'. auto.
  - destruct (length (c :: chunk) <=? bufsize) eqn:Hle.
    + exists c, chunk, rest. apply Nat.leb_le in Hle. auto.
    + apply Nat.leb_gt in Hle.
      destruct bufsize as [|k]; [lia|].
      exists c, (firstn k chunk), (Data (skipn (S k) (c :: chunk)) :: rest).
      split; [reflexivity|]. split.
      { cbn [length]. rewrite length_firstn. lia. }
      split; [|auto].
      cbn [pending skipn app]. rewrite app_assoc, firstn_skipn. reflexivity.
Qed.

Lemma recv_inbox_eof bufsize i :
  pending i = [] -> orderly i = true -> recv_inbox bufsize i = (Ok [], []).
Proof.
  induction i as [|[[|c chunk]|e] rest IH]; intros Hp Ho;
    cbn [pending recv_inbox app orderly forallb] in *;
    try discriminate; auto.
Qed.

Lemma recv_all_loop_unfold sock n data :
  recv_all_loop sock n data =
  if lt_dec (length data) n then
    match sock_recv sock (Nat.min MAX_CHUNK_SIZE (n - length data)) with
    | (Raise e, sock') => (Raise e, sock')
    | (Ok [], sock') => (Raise ConnectionError, sock')
    | (Ok (b :: packet), sock') => recv_all_loop sock' n (data ++ b :: packet)
    end
  else (Ok data, sock).
Proof.
  rewrite recv_all_loop_equation_1.
  destruct (lt_dec (length data) n); [|reflexivity].
  unfold recv_all_loop_unfold_clause_1.
  generalize (sock_recv sock (Nat.min MAX_CHUNK_SIZE (n - length data))).
  intros [[[|b p]|e] s']; reflexivity.
Qed.

Lemma chunk_request_pos n (data : bytes) :
  length data < n -> 0 < Nat.min MAX_CHUNK_SIZE (n - length data).
Proof. unfold MAX_CHUNK_SIZE. lia. Qed.

Lemma chunk_request_le n (data : bytes) :
  Nat.min MAX_CHUNK_SIZE (n - length data) <= n - length data.
Proof. lia. Qed.

(** ** The loop *)

(** The loop never returns more, or less, than it was asked for. *)
Lemma recv_all_loop_exact k :
  forall sock n data out sock',
    n - length data = k -> length data <= n ->
    recv_all_loop sock n data = (Ok out, sock') -> length out = n.
Proof.
  induction k as [k IH] using lt_wf_ind.
  intros sock n data out sock' Hk Hle H.
  rewrite recv_all_loop_unfold in H.
  destruct (lt_dec (length data) n) as [Hlt|Hge].
  - pose proof (chunk_request_le n data) as Hreq.
    unfold sock_recv in H.
    destruct (closed sock); [discriminate|].
    destruct (Nat.min MAX_CHUNK_SIZE (n - length data) =? 0);
      [discriminate|].
    destruct (recv_inbox _ (inbox sock)) as [[[|b packet]|e] i'] eqn:Hr;
      try discriminate.
    apply recv_inbox_bound in Hr.
    apply (IH (n - length (data ++ b :: packet))) in H; auto;
      rewrite length_app in *; cbn [length] in *; lia.
  - injection H as <- <-. lia.
Qed.

(** When enough bytes are pending the loop returns them, whatever the
    chunking. *)
Lemma recv_all_loop_ok k :
  forall sock n data,
    n - length data = k -> closed sock = false ->
    k <= length (pending (inbox sock)) ->
    exists sock',
      recv_all_loop sock n data
      = (Ok (data ++ firstn k (pending (inbox sock))), sock') /\
      pending (inbox sock') = skipn k (pending (inbox sock)) /\
      closed sock' = false /\ outbox sock' = outbox sock /\
      send_plan sock' = send_plan sock.
Proof.
  induction k as [k IH] using lt_wf_ind.
  intros sock n data Hk Hcl Hav.
  rewrite recv_all_loop_unfold.
  destruct (lt_dec (length data) n) as [Hlt|Hge].
  - pose proof (chunk_request_le n data) as Hreq.
    pose proof (chunk_request_pos n data Hlt) as Hpos.
    unfold sock_recv. rewrite Hcl.
    replace (Nat.min MAX_CHUNK_SIZE (n - length data) =? 0) with false
      by (symmetry; apply Nat.eqb_neq; lia).
    assert (Hne : pending (inbox sock) <> []).
    { intros E. rewrite E in Hav. simpl in Hav. lia. }
    destruct (recv_inbox_data _ (inbox sock) Hpos Hne)
      as (b & packet & i' & Hr & Hlen & Hpend & _).
    rewrite Hr.
    destruct (IH (n - length (data ++ b :: packet))) with
      (sock := set_inbox sock i') (n := n) (data := data ++ b :: packet)
      as (sock' & Hrun & Hrest & Hc' & Ho' & Hs'); auto.
    { rewrite length_app. cbn [length] in *. lia. }
    { cbn [inbox set_inbox]. apply (f_equal (@length _)) in Hpend.
      rewrite !length_app in *. cbn [length] in *. lia. }
    exists sock'. cbn [inbox set_inbox] in *.
    rewrite Hrun, Hrest, Hpend.
    replace (n - length (data ++ b :: packet))
      with (k - length (b :: packet))
      by (rewrite length_app; cbn [length] in *; lia).
    rewrite firstn_app, skipn_app.
    rewrite (firstn_all2 (n := k)) by lia.
    rewrite (skipn_all2 (n := k)) by lia.
    rewrite <- app_assoc. auto.
  - exists sock. replace k with 0 by lia.
    cbn [firstn skipn]. rewrite app_nil_r. auto.
Qed.

(** When the peer closes before enough bytes have arrived the loop
    raises [ConnectionError]. *)
Lemma recv_all_loop_lost k :
  forall sock n data,
    n - length data = k -> closed sock = false ->
    orderly (inbox sock) = true ->
    length (pending (inbox sock)) < k ->
    exists sock', recv_all_loop sock n data = (Raise ConnectionError, sock').
Proof.
  induction k as [k IH] using lt_wf_ind.
  intros sock n data Hk Hcl Hord Hshort.
  rewrite recv_all_loop_unfold.
  destruct (lt_dec (length data) n) as [Hlt|Hge]; [|lia].
  pose proof (chunk_request_le n data) as Hreq.
  pose proof (chunk_request_pos n data Hlt) as Hpos.
  unfold sock_recv. rewrite Hcl.
  replace (Nat.min MAX_CHUNK_SIZE (n - length data) =? 0) with false
    by (symmetry; apply Nat.eqb_neq; lia).
  destruct (pending (inbox sock)) as [|p0 ps] eqn:Hp.
  - rewrite recv_inbox_eof by assumption. eauto.
  - assert (Hne : pending (inbox sock) <> []) by congruence.
    destruct (recv_inbox_data _ (inbox sock) Hpos Hne)
      as (b & packet & i' & Hr & Hlen & Hpend & Ho).
    rewrite Hr.
    apply (IH (n - length (data ++ b :: packet)));
      cbn [inbox set_inbox closed]; auto.
    + rewrite length_app. cbn [length] in *. lia.
    + rewrite Hp in Hpend. apply (f_equal (@length _)) in Hpend.
      rewrite !length_app in *. cbn [length] in *. lia.
Qed.

(** C2: [recv_all] never returns a short read; it returns exactly the
    next [n] bytes of the stream when the peer supplies them, in
    however many chunks; and it raises [ConnectionError] when the peer
    closes the stream after fewer than [n] bytes. *)
Theorem recv_all_exact (sock : socket) (n : nat) :
  (forall data sock', recv_all sock n = (Ok data, sock') -> length data = n) /\
  (closed sock = false -> n <= length (pending (inbox sock)) ->
   exists sock',
     recv_all sock n = (Ok (firstn n (pending (inbox sock))), sock') /\
     length (firstn n (pending (inbox sock))) = n /\
     pending (inbox sock') = skipn n (pending (inbox sock))) /\
  (closed sock = false -> orderly (inbox sock) = true ->
   length (pending (inbox sock)) < n ->
   exists sock', recv_all sock n = (Raise ConnectionError, sock')).
Proof.
  unfold recv_all. repeat split.
  - intros data sock' H.
    apply (recv_all_loop_exact n sock n [] data sock'); simpl; auto; lia.
  - intros Hcl Hav.
    destruct (recv_all_loop_ok n sock n []) as (sock' & H & Hp & _);
      simpl; auto; try lia.
    exists sock'. rewrite length_firstn. repeat split; auto. lia.
  - intros Hcl Hord Hshort.
    apply (recv_all_loop_lost n); simpl; auto. lia.
Qed.

End FunctionsModuleFacts.

(** * The state and exception monad *)
Module MonadFacts.

Lemma bind_ok {S A B} (m : M S A) (k : A -> M S B) s a s' :
  m s = (Ok a, s') -> bind m k s = k a s'.
Proof. unfold bind. now intros ->. Qed.

Lemma bind_raise {S A B} (m : M S A) (k : A -> M S B) s e s' :
  m s = (Raise e, s') -> bind m k s = (Raise e, s').
Proof. unfold bind. now intros ->. Qed.

Lemma try_except_ok {S A} (m : M S A) h s a s' :
  m s = (Ok a, s') -> try_except m h s = (Ok a, s').
Proof. unfold try_except. now intros ->. Qed.

Lemma try_except_raise {S A} (m : M S A) h s e s' :
  m s = (Raise e, s') -> try_except m h s = h e s'.
Proof. unfold try_except. now intros ->. Qed.

Lemma bind_inv {S A B} (m : M S A) (k : A -> M S B) s r s' :
  bind m k s = (r, s') ->
  (exists e, m s = (Raise e, s') /\ r = Raise e) \/
  (exists a s1, m s = (Ok a, s1) /\ k a s1 = (r, s')).
Proof.
  unfold bind. destruct (m s) as [[a|e] s1]; intros H.
  - right. eauto.
  - left. injection H as <- <-. eauto.
Qed.

Lemma bind_inv_ok {S A B} (m : M S A) (k : A -> M S B) s b s' :
  bind m k s = (Ok b, s') ->
  exists a s1, m s = (Ok a, s1) /\ k a s1 = (Ok b, s').
Proof.
  intros H. apply bind_inv in H.
  destruct H as [(e & _ & He)|H]; [discriminate|exact H].
Qed.

(** ** Properties kept by every statement of a sequence

    [Keeps Rel m]: the state [m] reaches is related to the state it
    started from, whether it returns or raises. *)
Section Keeps.
Context {S : Type} (Rel : S -> S -> Prop).
Hypothesis Rel_refl : forall s, Rel s s.
Hypothesis Rel_trans : forall s1 s2 s3, Rel s1 s2 -> Rel s2 s3 -> Rel s1 s3.

Definition Keeps {A} (m : M S A) : Prop :=
  forall s r s', m s = (r, s') -> Rel s s'.

Lemma Keeps_ret {A} (a : A) : Keeps (ret a).
Proof. intros s r s' [= <- <-]. apply Rel_refl. Qed.

Lemma Keeps_raise {A} e : Keeps (@raise S A e).
Proof. intros s r s' [= <- <-]. apply Rel_refl. Qed.

Lemma Keeps_lift {A} (x : result A) : Keeps (@lift S A x).
Proof. intros s r s' [= <- <-]. apply Rel_refl. Qed.

Lemma Keeps_gets {A} (f : S -> A) : Keeps (gets f).
Proof. intros s r s' [= <- <-]. apply Rel_refl. Qed.

Lemma Keeps_modify (f : S -> S) :
  (forall s, Rel s (f s)) -> Keeps (modify f).
Proof. intros Hf s r s' [= <- <-]. apply Hf. Qed.

Lemma Keeps_bind {A B} (m : M S A) (k : A -> M S B) :
  Keeps m -> (forall a, Keeps (k a)) -> Keeps (bind m k).
Proof.
  intros Hm Hk s r s' H. apply bind_inv in H.
  destruct H as [(e & H & _)|(a & s1 & H1 & H2)].
  - eapply Hm; eauto.
  - eapply Rel_trans; [eapply Hm|eapply Hk]; eauto.
Qed.

Lemma Keeps_try_except {A} (m : M S A) h :
  Keeps m -> (forall e, Keeps (h e)) -> Keeps (try_except m h).
Proof.
  intros Hm Hh s r s'. unfold try_except.
  destruct (m s) as [[a|e] s1] eqn:E; intros H.
  - injection H as <- <-. eapply Hm; eauto.
  - eapply Rel_trans; [eapply Hm|eapply Hh]; eauto.
Qed.

Lemma Keeps_try_finally {A} (m : M S A) f :
  Keeps m -> Keeps f -> Keeps (try_finally m f).
Proof.
  intros Hm Hf s r s'. unfold try_finally.
  destruct (m s) as [r1 s1] eqn:E1. destruct (f s1) as [[u|e] s2] eqn:E2;
    intros [= <- <-]; (eapply Rel_trans; [eapply Hm|eapply Hf]; eauto).
Qed.

Lemma Keeps_for_each {A} (l : list A) (body : A -> M S unit) :
  (forall x, Keeps (body x)) -> Keeps (for_each l body).
Proof.
  intros Hb. induction l as [|x l IH]; cbn [for_each].
  - apply Keeps_ret.
  - apply Keeps_bind; auto.
Qed.

End Keeps.

End MonadFacts.

(** * Properties of ServerThreads.py *)
Module ServerThreadsFacts.
Import Encryption FunctionsModule ServerThreads MonadFacts.

Lemma address_eqb_eq (a b : address) : address_eqb a b = true <-> a = b.
Proof.
  destruct a as [h p], b as [h' p']. unfold address_eqb. cbn [fst snd].
  rewrite andb_true_iff, String.eqb_eq, Nat.eqb_eq.
  split; [intros [-> ->]; reflexivity | intros [= -> ->]; auto].
Qed.

Lemma address_eqb_refl (a : address) : address_eqb a a = true.
Proof. now apply address_eqb_eq. Qed.

Lemma pyaddr_eqb_eq (a b : pyaddr) : pyaddr_eqb a b = true <-> a = b.
Proof.
  destruct a, b; cbn [pyaddr_eqb]; try (split; [discriminate|congruence]);
    try tauto.
  rewrite address_eqb_eq. split; congruence.
Qed.

Section Threads.
Context {C : BlockCipher} {R : RSA}.
Context (zlib_decompress : bytes -> result bytes).

(** ** The Frame Consumer *)

(** The frame has been handed to the renderer. *)
Definition delivered (w w' : world) (peer : address) (frame : bytes) : Prop :=
  update_screen_calls (app w')
  = update_screen_calls (app w) ++ [(peer, frame)].

Lemma app_cons_neq {A} (l : list A) (x : A) : l <> l ++ [x].
Proof.
  intros H. apply (f_equal (@length _)) in H.
  rewrite length_app in H. simpl in H. lia.
Qed.

(** The world after one turn that finds a frame in the queue. *)
Definition after_frame (w : world) (peer : address) (frame : bytes) (t : Q)
  (rest : list (address * bytes * Q)) : world :=
  let w1 := set_clock_reads (S (clock_reads w)) (set_frame_queue rest w) in
  if Qle_bool (clock w (clock_reads w) - t) max_frame_age then
    if negb (fullscreen_widget (app w))
       || pyaddr_eqb (fullscreen_address (app w)) (Addr peer)
    then set_app (set_update_screen_calls
                    (update_screen_calls (app w) ++ [(peer, frame)]) (app w)) w1
    else w1
  else set_stdout (stdout w ++ [LogDroppedStale peer]) w1.

Lemma FrameConsumer_iteration_frame w peer frame t rest :
  frame_queue w = (peer, frame, t) :: rest ->
  FrameConsumer_iteration w = (Ok tt, after_frame w peer frame t rest).
Proof.
  intros Hq. unfold FrameConsumer_iteration, after_frame, frame_queue_get.
  unfold bind at 1. rewrite Hq. unfold time_time, bind at 1.
  cbn [clock clock_reads set_frame_queue].
  destruct (Qle_bool (clock w (clock_reads w) - t) max_frame_age);
    [|reflexivity].
  unfold gets, bind. cbn [app set_clock_reads set_frame_queue].
  destruct (negb (fullscreen_widget (app w))
            || pyaddr_eqb (fullscreen_address (app w)) (Addr peer));
    reflexivity.
Qed.

(** C4: a dequeued frame with capture timestamp [t] is delivered to
    the renderer if and only if its age at processing time is at most
    0.5 s and either no peer is in full-view mode or the frame belongs
    to the peer in that mode; a frame polled at [t + 0.4] is fresh, one
    polled at [t + 0.6] is stale, and a stale frame is dropped and
    logged. *)
Theorem FrameConsumer_delivers_fresh_frames
  (w : world) (peer : address) (frame : bytes) (t : Q)
  (rest : list (address * bytes * Q)) :
  frame_queue w = (peer, frame, t) :: rest ->
  let now := clock w (clock_reads w) in
  let w' := snd (FrameConsumer_iteration w) in
  let fresh := (now - t <= 1 # 2)%Q in
  let shown :=
    fullscreen_widget (app w) = false \/ fullscreen_address (app w) = Addr peer in
  fst (FrameConsumer_iteration w) = Ok tt /\
  frame_queue w' = rest /\
  (delivered w w' peer frame <-> fresh /\ shown) /\
  (~ (fresh /\ shown) ->
   update_screen_calls (app w') = update_screen_calls (app w)) /\
  (~ fresh -> stdout w' = stdout w ++ [LogDroppedStale peer]) /\
  (fresh -> stdout w' = stdout w) /\
  ((now == t + (4 # 10))%Q -> fresh) /\
  ((now == t + (6 # 10))%Q -> ~ fresh).
Proof.
  intros Hq now w' fresh shown.
  assert (Hfresh : Qle_bool (now - t) max_frame_age = true <-> fresh)
    by apply Qle_bool_iff.
  assert (Hshown : negb (fullscreen_widget (app w))
                   || pyaddr_eqb (fullscreen_address (app w)) (Addr peer)
                   = true <-> shown).
  { unfold shown. rewrite orb_true_iff, negb_true_iff, pyaddr_eqb_eq.
    reflexivity. }
  assert (H04 : (now == t + (4 # 10))%Q -> fresh).
  { unfold fresh. intros ->. ring_simplify (t + (4 # 10) - t)%Q.
    discriminate. }
  assert (H06 : (now == t + (6 # 10))%Q -> ~ fresh).
  { unfold fresh. intros ->. ring_simplify (t + (6 # 10) - t)%Q.
    intros H. apply H. reflexivity. }
  subst w'. rewrite (FrameConsumer_iteration_frame w peer frame t rest Hq).
  cbn [fst snd]. unfold after_frame, delivered. fold now.
  destruct (Qle_bool (now - t) max_frame_age) eqn:Hf.
  - assert (Hfr : fresh) by now apply Hfresh.
    destruct (negb (fullscreen_widget (app w))
              || pyaddr_eqb (fullscreen_address (app w)) (Addr peer)) eqn:Hs.
    + assert (Hsh : shown) by now apply Hshown.
      cbn. repeat split; auto; tauto.
    + assert (Hsh : ~ shown).
      { intros H. apply Hshown in H. congruence. }
      cbn. repeat split; auto; try tauto.
      all: intros; exfalso; eapply app_cons_neq; eassumption.
  - assert (Hfr : ~ fresh).
    { intros H. apply Hfresh in H. congruence. }
    cbn. repeat split; auto; try tauto.
    all: intros; exfalso; eapply app_cons_neq; eassumption.
Qed.

(** ** Object updates *)

Lemma upd_same {A} (f : nat -> A) i v : upd f i v i = v.
Proof. unfold upd. now rewrite Nat.eqb_refl. Qed.

Lemma upd_other {A} (f : nat -> A) i v j : j <> i -> upd f i v j = f j.
Proof. unfold upd. intros H. apply Nat.eqb_neq in H. now rewrite H. Qed.

(** ** Writing a record to a socket *)

Definition no_fault (o : option exn) : bool :=
  match o with None => true | Some _ => false end.

(** The socket is open and its next [n] sends succeed. *)
Definition accepts (n : nat) (s : socket) : bool :=
  negb (closed s) && forallb no_fault (firstn n (send_plan s)).

(** Whether the four statements of [send_command] all succeed. *)
Definition sendable (key : bytes) (cmd : string) (e : entropy) (s : socket)
  : bool :=
  match fst (encrypt_aes key (PyBytes (encode cmd)) e) with
  | Ok (iv, ct) =>
      match to_bytes (length ct) 4 with
      | Ok _ => accepts 3 s
      | Raise _ => false
      end
  | Raise _ => false
  end.

(** The record written for [cmd] under [key]: the length field, the IV
    and the ciphertext that [encrypt_aes] returns for that key. *)
Definition record_of (key : bytes) (cmd : string) (e : entropy)
  (rec : list bytes) : Prop :=
  exists iv ct n,
    fst (encrypt_aes key (PyBytes (encode cmd)) e) = Ok (iv, ct) /\
    to_bytes (length ct) 4 = Ok n /\ rec = [n; iv; ct].

(** What a statement that only writes to the socket [sock] and draws
    from the entropy pool leaves alone. *)
Definition socket_frame (sock : nat) (w w' : world) : Prop :=
  handlers w' = handlers w /\ next_object w' = next_object w /\
  clients_dict w' = clients_dict w /\ server_aes_key w' = server_aes_key w /\
  pause_event w' = pause_event w /\ app w' = app w /\
  command_queue w' = command_queue w /\ stdout w' = stdout w /\
  (forall s, s <> sock -> sockets w' s = sockets w s) /\
  inbox (sockets w' sock) = inbox (sockets w sock) /\
  closed (sockets w' sock) = closed (sockets w sock).

Ltac frame_tac :=
  unfold socket_frame; cbn; rewrite ?upd_same; cbn;
  repeat split; auto; try congruence;
  try (intros; rewrite !upd_other by assumption; reflexivity).

Lemma send_command_outcome sock key cmd w :
  exists r w',
    send_command sock key cmd w = (r, w') /\
    socket_frame sock w w' /\
    (r = Ok tt <-> sendable key cmd (urandom w) (sockets w sock) = true) /\
    (r = Ok tt ->
     exists rec, record_of key cmd (urandom w) rec /\
       outbox (sockets w' sock) = outbox (sockets w sock) ++ rec).
Proof.
  unfold send_command, sendable, record_of, encrypt, bind at 1.
  destruct (encrypt_aes key (PyBytes (encode cmd)) (urandom w))
    as [[[iv ct]|e] e'] eqn:Henc; cbn [fst].
  2:{ do 2 eexists. split; [reflexivity|]. split; [frame_tac|].
      split; [split; discriminate | discriminate]. }
  unfold lift, bind at 1.
  destruct (to_bytes (length ct) 4) as [n|e] eqn:Hn.
  2:{ do 2 eexists. split; [reflexivity|]. split; [frame_tac|].
      split; [split; discriminate | discriminate]. }
  unfold send, on_socket, bind, sock_send, accepts.
  cbn [sockets set_urandom set_sockets].
  destruct (closed (sockets w sock)) eqn:Hcl; cbn [negb andb].
  { do 2 eexists. split; [reflexivity|]. split; [frame_tac|].
    split; [split; discriminate | discriminate]. }
  destruct (send_plan (sockets w sock)) as [|[e1|] [|[e2|] [|[e3|] plan]]] eqn:Hplan;
    cbn; rewrite ?upd_same; cbn; rewrite ?Hcl, ?upd_same; cbn;
    rewrite ?upd_same; cbn; rewrite ?Hcl; cbn;
    do 2 eexists; (split; [reflexivity|]); (split; [frame_tac|]);
    (split; [split; (discriminate || reflexivity)|]);
    try discriminate; intros _;
    (eexists; split;
       [exists iv, ct, n; repeat split; (reflexivity || assumption)|]);
    cbn; rewrite ?upd_same; cbn; rewrite <- ?app_assoc; reflexivity.
Qed.

(** ** The registry as a dictionary *)

Definition keys {V} (d : list (address * V)) : list address := map fst d.

Lemma dict_get_remove_other {V} (d : list (address * V)) a a' :
  a' <> a -> dict_get (dict_remove d a) a' = dict_get d a'.
Proof.
  intros Hne. induction d as [|[k v] d IH]; cbn [dict_remove dict_get]; auto.
  destruct (address_eqb k a) eqn:Hka.
  - apply address_eqb_eq in Hka. subst k.
    destruct (address_eqb a a') eqn:Haa; auto.
    apply address_eqb_eq in Haa. congruence.
  - cbn [dict_get]. now rewrite IH.
Qed.

Lemma dict_get_None {V} (d : list (address * V)) a :
  ~ In a (keys d) -> dict_get d a = None.
Proof.
  induction d as [|[k v] d IH]; cbn [dict_get keys map fst In]; auto.
  intros H. destruct (address_eqb k a) eqn:Hka.
  - apply address_eqb_eq in Hka. tauto.
  - apply IH. tauto.
Qed.

Lemma keys_remove_subset {V} (d : list (address * V)) a x :
  In x (keys (dict_remove d a)) -> In x (keys d).
Proof.
  induction d as [|[k v] d IH]; cbn [dict_remove keys map fst In]; auto.
  destruct (address_eqb k a); cbn [keys map fst In]; tauto.
Qed.

Lemma NoDup_dict_remove {V} (d : list (address * V)) a :
  NoDup (keys d) -> NoDup (keys (dict_remove d a)).
Proof.
  induction d as [|[k v] d IH]; cbn [dict_remove keys map fst]; auto.
  intros H. inversion H as [|? ? Hin Hnd]; subst.
  destruct (address_eqb k a); auto.
  cbn [keys map fst]. constructor; auto.
  intros Hx. apply Hin. eapply keys_remove_subset. exact Hx.
Qed.

Lemma dict_get_remove_same {V} (d : list (address * V)) a :
  NoDup (keys d) -> dict_get (dict_remove d a) a = None.
Proof.
  induction d as [|[k v] d IH]; cbn [dict_remove dict_get keys map fst]; auto.
  intros H. inversion H as [|? ? Hin Hnd]; subst.
  destruct (address_eqb k a) eqn:Hka.
  - apply address_eqb_eq in Hka. subst k. now apply dict_get_None.
  - cbn [dict_get]. rewrite Hka. auto.
Qed.

Lemma dict_get_In {V} (d : list (address * V)) a v :
  NoDup (keys d) -> In (a, v) d -> dict_get d a = Some v.
Proof.
  induction d as [|[k v'] d IH]; cbn [dict_get keys map fst In]; [tauto|].
  intros H [Heq|Hin]; inversion H as [|? ? Hnin Hnd]; subst.
  - injection Heq as -> ->. now rewrite address_eqb_refl.
  - destruct (address_eqb k a) eqn:Hka; auto.
    apply address_eqb_eq in Hka. subst k.
    exfalso. apply Hnin. change a with (fst (a, v)). now apply in_map.
Qed.

Lemma dict_get_Some_In {V} (d : list (address * V)) a v :
  dict_get d a = Some v -> In (a, v) d.
Proof.
  induction d as [|[k v'] d IH]; cbn [dict_get In]; [discriminate|].
  destruct (address_eqb k a) eqn:Hka; auto.
  apply address_eqb_eq in Hka. subst k. intros [= ->]. auto.
Qed.

(** ** The Command Dispatcher *)

(** The statements of an [except] clause of the dispatcher: log, stop
    the handler, delete the registry entry, schedule the callback. *)
Definition dropped (l : log_line) (addr : address) (thread : nat)
  (cb : callback) (w : world) : world :=
  set_app (set_after_queue (after_queue (app w) ++ [cb]) (app w))
    (set_clients_dict (dict_remove (clients_dict w) addr)
       (set_handlers
          (upd (handlers w) thread (set_stop_event true (handlers w thread)))
          (set_stdout (stdout w ++ [l]) w))).

Lemma drop_peer_outcome l addr thread cb w entry :
  dict_get (clients_dict w) addr = Some entry ->
  mainloop_running (app w) = true ->
  (print l ;; thread_stop thread ;; registry_del addr ;; root_after cb)%monad w
  = (Ok tt, dropped l addr thread cb w).
Proof.
  intros Hget Hloop.
  unfold print, thread_stop, registry_del, root_after, modify, bind, dropped.
  cbn. rewrite Hget. cbn. rewrite Hloop. reflexivity.
Qed.

(** The body of the [for] loop of the [pause]/[unpause] family. *)
Definition global_body (origin : pyaddr) (cmd : string)
  (entry : address * (nat * nat)) : M world unit :=
  let '(addr, (sock, thread)) := entry in
  if negb (pyaddr_eqb (Addr addr) origin) then
    try_except
      (key <- gets (fun w => aes_key (handlers w thread)) ;;
       send_command sock key cmd)%monad
      (fun e =>
         print (LogSendFailed addr e) ;;
         thread_stop thread ;;
         registry_del addr ;;
         root_after (Cleanup DispatcherVar_addr))%monad
  else ret tt.

Lemma dispatch_global_unfold origin cmd :
  dispatch_global origin cmd
  = ((if String.eqb cmd "pause"
      then modify (set_pause_event true)
      else modify (set_pause_event false)) ;;
     items <- gets clients_dict ;;
     for_each items (global_body origin cmd))%monad.
Proof. reflexivity. Qed.

(** What one turn of that loop does to the peer it visits. *)
Lemma global_body_outcome origin cmd addr sock thread w :
  dict_get (clients_dict w) addr = Some (sock, thread) ->
  mainloop_running (app w) = true ->
  let key := aes_key (handlers w thread) in
  exists w',
    global_body origin cmd (addr, (sock, thread)) w = (Ok tt, w') /\
    mainloop_running (app w') = true /\
    pause_event w' = pause_event w /\
    (forall s, s <> sock -> sockets w' s = sockets w s) /\
    (forall t, t <> thread -> handlers w' t = handlers w t) /\
    aes_key (handlers w' thread) = key /\
    inbox (sockets w' sock) = inbox (sockets w sock) /\
    closed (sockets w' sock) = closed (sockets w sock) /\
    if pyaddr_eqb (Addr addr) origin then w' = w
    else if sendable key cmd (urandom w) (sockets w sock) then
      (exists rec, record_of key cmd (urandom w) rec /\
         outbox (sockets w' sock) = outbox (sockets w sock) ++ rec) /\
      handlers w' = handlers w /\ clients_dict w' = clients_dict w
    else
      stop_event (handlers w' thread) = true /\
      clients_dict w' = dict_remove (clients_dict w) addr.
Proof.
  intros Hget Hloop key. unfold global_body.
  destruct (pyaddr_eqb (Addr addr) origin) eqn:Ho; cbn [negb].
  { exists w. repeat split; auto. }
  destruct (send_command_outcome sock key cmd w)
    as (r & w1 & Hrun & Hframe & Hok & Hrec).
  assert (Hm : (key0 <- gets (fun w0 => aes_key (handlers w0 thread)) ;;
                send_command sock key0 cmd)%monad w = (r, w1)).
  { unfold gets, bind. exact Hrun. }
  destruct Hframe as (Hh & Hn & Hd & Hk & Hp & Ha & Hq & Hs & Hsock & Hin & Hcl).
  destruct r as [[]|e].
  - rewrite (try_except_ok _ _ _ _ _ Hm).
    assert (Hsend : sendable key cmd (urandom w) (sockets w sock) = true)
      by now apply Hok.
    rewrite Hsend. exists w1. rewrite Ha, Hh, Hp, Hd.
    repeat split; auto.
  - rewrite (try_except_raise _ _ _ _ _ Hm).
    assert (Hsend : sendable key cmd (urandom w) (sockets w sock) = false).
    { destruct (sendable key cmd (urandom w) (sockets w sock)); auto.
      destruct Hok as [_ Hok]. discriminate (Hok eq_refl). }
    rewrite Hsend.
    rewrite (drop_peer_outcome _ addr thread _ w1 (sock, thread))
      by congruence.
    eexists. split; [reflexivity|]. unfold dropped. cbn.
    rewrite Ha, Hh, Hp, Hd, upd_same. cbn.
    repeat split; auto.
    intros t Ht. now rewrite upd_other.
Qed.


Definition socks (d : list (address * (nat * nat))) : list nat :=
  map (fun entry => fst (snd entry)) d.

Definition threads (d : list (address * (nat * nat))) : list nat :=
  map (fun entry => snd (snd entry)) d.

(** Whether a record for [cmd] under [key] can be written to [s]: the
    key is one AES accepts, the ciphertext length fits the four-byte
    length field, and the socket takes three sends. *)
Definition deliverable (key : bytes) (cmd : string) (s : socket) : bool :=
  valid_key_len key
  && (N.of_nat ((length (encode cmd) / block_len + 1) * block_len)
      <? N.pow 256 4)%N
  && accepts 3 s.

Lemma to_bytes_ok_iff n len :
  (exists b, to_bytes n len = Ok b)
  <-> (N.of_nat n <? N.pow 256 (N.of_nat len))%N = true.
Proof.
  unfold to_bytes.
  destruct (N.of_nat n <? N.pow 256 (N.of_nat len))%N; split; eauto;
    try discriminate.
  intros [b H]. discriminate.
Qed.

Lemma sendable_deliverable {L : BlockCipherLaws C} key cmd e s :
  sendable key cmd e s = deliverable key cmd s.
Proof.
  unfold sendable, deliverable.
  destruct (valid_key_len key) eqn:Hk.
  - destruct (fst (encrypt_aes key (PyBytes (encode cmd)) e))
      as [[iv ct]|ex] eqn:Henc.
    + destruct (EncryptionFacts.encrypt_aes_ciphertext_length
                  key (PyBytes (encode cmd)) e iv ct Henc) as [_ Hlen].
      cbn [text_bytes] in Hlen. rewrite Hlen. unfold to_bytes.
      change (N.of_nat 4) with 4%N.
      destruct (N.of_nat _ <? N.pow 256 4)%N; reflexivity.
    + rewrite (EncryptionFacts.encrypt_aes_value key _ e Hk) in Henc.
      discriminate.
  - rewrite EncryptionFacts.encrypt_aes_invalid_key by assumption.
    reflexivity.
Qed.

(** What the [pause]/[unpause] loop has done to a registered peer:
    the originator is left alone; a peer that can be written to has
    received the record and stays registered; any other peer has its
    handler stopped and is no longer in the registry. *)
Definition peer_outcome (origin : pyaddr) (cmd : string) (w w' : world)
  (a : address) (s t : nat) : Prop :=
  let key := aes_key (handlers w t) in
  if pyaddr_eqb (Addr a) origin then
    sockets w' s = sockets w s /\ handlers w' t = handlers w t /\
    dict_get (clients_dict w') a = Some (s, t)
  else if deliverable key cmd (sockets w s) then
    (exists e rec, record_of key cmd e rec /\
       outbox (sockets w' s) = outbox (sockets w s) ++ rec) /\
    handlers w' t = handlers w t /\
    dict_get (clients_dict w') a = Some (s, t)
  else
    stop_event (handlers w' t) = true /\
    dict_get (clients_dict w') a = None.

Lemma peer_outcome_transfer origin cmd w w1 w' a s t :
  handlers w1 t = handlers w t -> sockets w1 s = sockets w s ->
  peer_outcome origin cmd w1 w' a s t -> peer_outcome origin cmd w w' a s t.
Proof. unfold peer_outcome. intros -> ->. auto. Qed.

Lemma global_loop {L : BlockCipherLaws C} origin cmd :
  forall items w,
    NoDup (keys items) -> NoDup (socks items) -> NoDup (threads items) ->
    NoDup (keys (clients_dict w)) ->
    (forall a s t, In (a, (s, t)) items ->
                   dict_get (clients_dict w) a = Some (s, t)) ->
    mainloop_running (app w) = true ->
    exists w',
      for_each items (global_body origin cmd) w = (Ok tt, w') /\
      mainloop_running (app w') = true /\
      pause_event w' = pause_event w /\
      NoDup (keys (clients_dict w')) /\
      (forall s, ~ In s (socks items) -> sockets w' s = sockets w s) /\
      (forall t, ~ In t (threads items) -> handlers w' t = handlers w t) /\
      (forall a, ~ In a (keys items) ->
                 dict_get (clients_dict w') a = dict_get (clients_dict w) a) /\
      (forall a s t, In (a, (s, t)) items -> peer_outcome origin cmd w w' a s t).
Proof.
  induction items as [|[a [s t]] rest IH];
    intros w Hk Hs Ht Hreg Hin Hloop.
  { exists w. cbn. repeat split; auto. intros ? ? ? []. }
  cbn [keys socks threads map fst snd] in Hk, Hs, Ht.
  inversion Hk as [|? ? Hka Hk']; inversion Hs as [|? ? Hsa Hs'];
    inversion Ht as [|? ? Hta Ht']; subst.
  destruct (global_body_outcome origin cmd a s t w
              (Hin a s t (or_introl eq_refl)) Hloop)
    as (w1 & Hrun & Hloop1 & Hp1 & Hsock1 & Hh1 & Hkey1 & _ & _ & Hcase).
  (* the registry after the first turn *)
  assert (Hdict1 : clients_dict w1 = clients_dict w \/
                   clients_dict w1 = dict_remove (clients_dict w) a).
  { destruct (pyaddr_eqb (Addr a) origin); [subst; auto|].
    destruct (sendable _ cmd (urandom w) (sockets w s)); tauto. }
  assert (Hreg1 : NoDup (keys (clients_dict w1))).
  { destruct Hdict1 as [-> | ->]; auto using NoDup_dict_remove. }
  assert (Hget1 : forall a', a' <> a ->
            dict_get (clients_dict w1) a' = dict_get (clients_dict w) a').
  { intros a' Hne. destruct Hdict1 as [-> | ->]; auto.
    now apply dict_get_remove_other. }
  assert (Hin1 : forall a' s' t', In (a', (s', t')) rest ->
            dict_get (clients_dict w1) a' = Some (s', t')).
  { intros a' s' t' Hi. rewrite Hget1.
    - apply Hin. now right.
    - intros ->. apply Hka. change a with (fst (a, (s', t'))).
      now apply in_map. }
  destruct (IH w1 Hk' Hs' Ht' Hreg1 Hin1 Hloop1)
    as (w' & Hrun' & Hloop' & Hp' & Hreg' & Hsock' & Hh' & Hget' & Hout').
  exists w'. cbn [for_each]. rewrite (bind_ok _ _ _ _ _ Hrun).
  split; [exact Hrun'|]. split; [exact Hloop'|].
  split; [congruence|]. split; [exact Hreg'|].
  cbn [keys socks threads map fst snd In].
  split; [|split; [|split]].
  - intros s0 Hn. rewrite Hsock' by tauto. apply Hsock1. intros ->. tauto.
  - intros t0 Hn. rewrite Hh' by tauto. apply Hh1. intros ->. tauto.
  - intros a0 Hn. rewrite Hget' by tauto. apply Hget1. intros ->. tauto.
  - intros a0 s0 t0 [Heq|Hi].
    + injection Heq as <- <- <-.
      unfold peer_outcome.
      rewrite (Hsock' s Hsa), (Hh' t Hta), (Hget' a Hka).
      rewrite <- (sendable_deliverable _ cmd (urandom w)).
      destruct (pyaddr_eqb (Addr a) origin).
      * rewrite Hcase. repeat split; auto. apply Hin. now left.
      * destruct (sendable _ cmd (urandom w) (sockets w s)).
        -- destruct Hcase as ((rec & Hrec & Hob) & Hhh & Hdd).
           repeat split; eauto; try congruence.
           rewrite Hdd. apply Hin. now left.
        -- destruct Hcase as [Hst Hdd]. split; auto.
           rewrite Hdd. now apply dict_get_remove_same.
    + assert (Hs0 : s0 <> s).
      { intros ->. apply Hsa.
        exact (in_map (fun entry : address * (nat * nat) => fst (snd entry))
                 rest (a0, (s, t0)) Hi). }
      assert (Ht0 : t0 <> t).
      { intros ->. apply Hta.
        exact (in_map (fun entry : address * (nat * nat) => snd (snd entry))
                 rest (a0, (s0, t)) Hi). }
      apply (peer_outcome_transfer origin cmd w w1); auto.
Qed.

Lemma deliverable_global key cmd s :
  cmd = "pause"%string \/ cmd = "unpause"%string ->
  deliverable key cmd s = valid_key_len key && accepts 3 s.
Proof.
  intros [-> | ->]; unfold deliverable; cbn; now rewrite andb_true_r.
Qed.

(** A record that decrypts, under [key], to the command. *)
Definition command_record {L : BlockCipherLaws C} (key : bytes) (cmd : string)
  (rec : list bytes) : Prop :=
  exists iv ct n,
    rec = [n; iv; ct] /\ to_bytes (length ct) 4 = Ok n /\
    (exists e, fst (encrypt_aes key (PyBytes (encode cmd)) e) = Ok (iv, ct)) /\
    decrypt_aes key iv ct = Ok (encode cmd).

Lemma record_of_command_record {L : BlockCipherLaws C} key cmd e rec :
  valid_key_len key = true ->
  record_of key cmd e rec -> command_record key cmd rec.
Proof.
  intros Hk (iv & ct & n & Henc & Hn & ->).
  exists iv, ct, n. repeat split; eauto.
  destruct (EncryptionFacts.decrypt_encrypt_valid_key
              key (PyBytes (encode cmd)) e Hk) as (iv' & ct' & He & Hd).
  rewrite Henc in He. injection He as <- <-. exact Hd.
Qed.

(** The broadcast while the Tk main loop is running, so that the
    [root.after] of the [except] clause returns: dispatching a global
    [pause] (resp. [unpause]) sets (resp. clears) the shared pause
    flag and writes the command record to every registered peer but
    the originator; a peer whose send fails has its handler stopped
    and its entry removed from the registry, and every other peer
    still receives the command.  Nothing is written to the originator
    or to a socket outside the registry. *)
Theorem global_command_broadcast {L : BlockCipherLaws C}
  (w : world) (origin : pyaddr) (cmd : string)
  (rest : list (pyaddr * string)) :
  command_queue w = (origin, cmd) :: rest ->
  cmd = "pause"%string \/ cmd = "unpause"%string ->
  NoDup (keys (clients_dict w)) ->
  NoDup (socks (clients_dict w)) ->
  NoDup (threads (clients_dict w)) ->
  mainloop_running (app w) = true ->
  exists w',
    CommandConsumer_iteration w = (Ok tt, w') /\
    pause_event w' = String.eqb cmd "pause" /\
    (forall a s t,
       dict_get (clients_dict w) a = Some (s, t) ->
       let key := aes_key (handlers w t) in
       (Addr a = origin ->
        sockets w' s = sockets w s /\ handlers w' t = handlers w t /\
        dict_get (clients_dict w') a = Some (s, t)) /\
       (Addr a <> origin ->
        valid_key_len key = true -> accepts 3 (sockets w s) = true ->
        (exists rec, command_record key cmd rec /\
           outbox (sockets w' s) = outbox (sockets w s) ++ rec) /\
        handlers w' t = handlers w t /\
        dict_get (clients_dict w') a = Some (s, t)) /\
       (Addr a <> origin ->
        valid_key_len key && accepts 3 (sockets w s) = false ->
        stop_event (handlers w' t) = true /\
        dict_get (clients_dict w') a = None)) /\
    (forall a, dict_get (clients_dict w) a = None ->
               dict_get (clients_dict w') a = None) /\
    (forall s, ~ In s (socks (clients_dict w)) -> sockets w' s = sockets w s).
Proof.
  intros Hq Hcmd Hk Hs Ht Hloop.
  set (w0 := set_pause_event (String.eqb cmd "pause")
               (set_stdout (stdout w ++ [LogCommand cmd])
                  (set_command_queue rest w))).
  destruct (global_loop origin cmd (clients_dict w) w0)
    as (w' & Hrun & _ & Hp & _ & Hsock & Hh & Hget & Hout); auto.
  { intros a s t Hin. now apply dict_get_In. }
  exists w'. split; [|split; [exact Hp|split; [|split]]].
  - unfold CommandConsumer_iteration, command_queue_get.
    unfold bind at 1. rewrite Hq. unfold print, modify, bind at 1.
    replace (String.eqb cmd "pause" || String.eqb cmd "unpause") with true
      by (destruct Hcmd as [-> | ->]; reflexivity).
    rewrite dispatch_global_unfold. unfold bind at 1.
    cbn [stdout set_command_queue].
    assert (Hw0 : (if String.eqb cmd "pause"
                   then modify (set_pause_event true)
                   else modify (set_pause_event false))
                    (set_stdout (stdout w ++ [LogCommand cmd])
                       (set_command_queue rest w)) = (Ok tt, w0)).
    { unfold w0. destruct (String.eqb cmd "pause"); reflexivity. }
    rewrite Hw0. unfold gets, bind at 1. exact Hrun.
  - intros a s t Hin key.
    pose proof (Hout a s t (dict_get_Some_In _ _ _ Hin)) as Ho.
    unfold peer_outcome in Ho. cbn [handlers sockets w0 set_pause_event
      set_stdout set_command_queue] in Ho. fold key in Ho.
    rewrite (deliverable_global key cmd _ Hcmd) in Ho.
    split; [|split].
    + intros Heq. apply pyaddr_eqb_eq in Heq. rewrite Heq in Ho. exact Ho.
    + intros Hne Hkey Hacc.
      replace (pyaddr_eqb (Addr a) origin) with false in Ho.
      2:{ destruct (pyaddr_eqb (Addr a) origin) eqn:E; auto.
          apply pyaddr_eqb_eq in E. contradiction. }
      rewrite Hkey, Hacc in Ho. cbn [andb] in Ho.
      destruct Ho as ((e & rec & Hrec & Hob) & Hhh & Hdd).
      repeat split; auto. exists rec. split; auto.
      now apply (record_of_command_record key cmd e).
    + intros Hne Hfail.
      replace (pyaddr_eqb (Addr a) origin) with false in Ho.
      2:{ destruct (pyaddr_eqb (Addr a) origin) eqn:E; auto.
          apply pyaddr_eqb_eq in E. contradiction. }
      rewrite Hfail in Ho. exact Ho.
  - intros a Hnone.
    destruct (in_dec (fun x y : address =>
                        match bool_dec (address_eqb x y) true with
                        | left e => left (proj1 (address_eqb_eq x y) e)
                        | right n => right (fun h => n (proj2 (address_eqb_eq x y) h))
                        end) a (keys (clients_dict w))) as [Hin|Hnin].
    + unfold keys in Hin. apply in_map_iff in Hin.
      destruct Hin as ([a' [s t]] & Ha & Hin). cbn in Ha. subst a'.
      rewrite (dict_get_In _ _ _ Hk Hin) in Hnone. discriminate.
    + rewrite (Hget a Hnin). exact Hnone.
  - intros s Hn. apply (Hsock s Hn).
Qed.

Lemma CommandConsumer_iteration_absent w target cmd rest :
  command_queue w = (target, cmd) :: rest ->
  String.eqb cmd "pause" = false ->
  String.eqb cmd "unpause" = false ->
  String.prefix "resize" cmd = false ->
  registry_get w target = None ->
  CommandConsumer_iteration w
  = (Ok tt, set_stdout (stdout w ++ [LogCommand cmd]) (set_command_queue rest w)).
Proof.
  intros Hq Hp Hu Hr Hreg.
  unfold CommandConsumer_iteration, command_queue_get.
  unfold bind at 1. rewrite Hq.
  unfold print, modify, bind at 1. rewrite Hp, Hu, Hr. cbn [orb].
  unfold dispatch_targeted, gets, bind at 1.
  replace (registry_get _ target) with (registry_get w target)
    by (destruct target; reflexivity).
  rewrite Hreg. reflexivity.
Qed.

(** C9: a targeted command (neither [pause]/[unpause] nor [resize])
    whose target is not in the registry is consumed without effect:
    the turn raises nothing and leaves the world as it was, but for
    the queue entry taken and the line [Command: cmd] printed; nothing
    is written to any socket, and the registry and every handler
    thread are unchanged. *)
Theorem absent_target_is_ignored
  (w : world) (target : pyaddr) (cmd : string)
  (rest : list (pyaddr * string)) :
  command_queue w = (target, cmd) :: rest ->
  String.eqb cmd "pause" = false ->
  String.eqb cmd "unpause" = false ->
  String.prefix "resize" cmd = false ->
  registry_get w target = None ->
  let w' := snd (CommandConsumer_iteration w) in
  CommandConsumer_iteration w
  = (Ok tt, set_stdout (stdout w ++ [LogCommand cmd]) (set_command_queue rest w))
  /\ sockets w' = sockets w /\ handlers w' = handlers w
  /\ clients_dict w' = clients_dict w /\ app w' = app w
  /\ pause_event w' = pause_event w /\ command_queue w' = rest.
Proof.
  intros Hq Hp Hu Hr Hreg.
  rewrite (CommandConsumer_iteration_absent w target cmd rest Hq Hp Hu Hr Hreg).
  cbn. auto 10.
Qed.

(** ** The Frame Ingestor *)

(** The pacing statement of the ingestor never raises: it sleeps only
    for a positive time. *)
Lemma pacing_outcome elapsed w :
  exists w',
    (if Qle_bool min_frame_interval elapsed then ret tt
     else time_sleep (min_frame_interval - elapsed)) w = (Ok tt, w') /\
    sockets w' = sockets w /\ handlers w' = handlers w /\ app w' = app w /\
    frame_queue w' = frame_queue w /\ clients_dict w' = clients_dict w /\
    stdout w' = stdout w.
Proof.
  destruct (Qle_bool min_frame_interval elapsed) eqn:E.
  - exists w. repeat split; auto.
  - unfold time_sleep.
    assert (H : Qle_bool 0 (min_frame_interval - elapsed) = true).
    { apply Qle_bool_iff.
      assert (Hlt : (elapsed < min_frame_interval)%Q).
      { apply Qnot_le_lt. intros Hle. apply Qle_bool_iff in Hle. congruence. }
      apply Qlt_le_weak. unfold Qminus. now apply Qlt_minus_iff in Hlt. }
    rewrite H. eexists. split; [reflexivity|]. cbn. repeat split; auto.
Qed.

(** Reading [n] bytes that are pending on an open socket. *)
Lemma sock_recv_all_outcome sock n w :
  closed (sockets w sock) = false ->
  n <= length (pending (inbox (sockets w sock))) ->
  exists w',
    sock_recv_all sock n w
    = (Ok (firstn n (pending (inbox (sockets w sock)))), w') /\
    closed (sockets w' sock) = false /\
    pending (inbox (sockets w' sock))
    = skipn n (pending (inbox (sockets w sock))) /\
    outbox (sockets w' sock) = outbox (sockets w sock) /\
    (forall s, s <> sock -> sockets w' s = sockets w s) /\
    handlers w' = handlers w /\ app w' = app w /\
    frame_queue w' = frame_queue w /\ clients_dict w' = clients_dict w /\
    stdout w' = stdout w /\ clock w' = clock w /\
    clock_reads w' = clock_reads w /\ urandom w' = urandom w /\
    server_aes_key w' = server_aes_key w.
Proof.
  intros Hcl Hav. unfold sock_recv_all, on_socket, recv_all.
  assert (Hn : n - length (@nil byte) = n) by (simpl; lia).
  destruct (FunctionsModuleFacts.recv_all_loop_ok n (sockets w sock) n []
              Hn Hcl Hav)
    as (s' & Hrun & Hrest & Hcl' & Hout & _).
  cbn [app] in Hrun. rewrite Hrun. eexists. split; [reflexivity|]. cbn.
  rewrite upd_same. repeat split; auto.
  intros s Hs. now apply upd_other.
Qed.

Lemma ClientHandler_iteration_zero_length self w :
  let this := handlers w self in
  let sock := client_socket this in
  closed (sockets w sock) = false ->
  8 <= length (pending (inbox (sockets w sock))) ->
  from_bytes (firstn 8 (pending (inbox (sockets w sock)))) = 0 ->
  exists w',
    ClientHandler_iteration zlib_decompress self w
    = (Raise ConnectionError, w') /\
    closed (sockets w' sock) = false /\
    (forall s, s <> sock -> sockets w' s = sockets w s) /\
    handlers w' = handlers w /\ app w' = app w /\
    frame_queue w' = frame_queue w /\ clients_dict w' = clients_dict w /\
    stdout w' = stdout w.
Proof.
  intros this sock Hcl Hav Hzero.
  unfold ClientHandler_iteration, gets, bind at 1. fold this.
  unfold time_time, bind at 1.
  set (w1 := set_clock_reads (S (clock_reads w)) w).
  unfold bind at 1.
  destruct (pacing_outcome (clock w (clock_reads w) - last_frame_time this) w1)
    as (w2 & Hpace & Hs2 & Hh2 & Ha2 & Hf2 & Hd2 & Ho2).
  rewrite Hpace.
  assert (Hs21 : sockets w2 = sockets w) by (rewrite Hs2; reflexivity).
  destruct (sock_recv_all_outcome sock 8 w2)
    as (w3 & Hrecv & Hcl3 & _ & _ & Hs3 & Hh3 & Ha3 & Hf3 & Hd3 & Ho3 & _);
    try (rewrite Hs21; assumption).
  fold sock. unfold bind at 1. rewrite Hrecv, Hs21, Hzero. cbn [Nat.eqb].
  exists w3. split; [reflexivity|].
  repeat split; auto;
    try (rewrite ?Hh3, ?Ha3, ?Hf3, ?Hd3, ?Ho3, ?Hh2, ?Ha2, ?Hf2, ?Hd2, ?Ho2;
         reflexivity).
  intros s Hs. rewrite Hs3 by assumption. now rewrite Hs21.
Qed.

(** C5: when the ingestor reads a frame record whose 8-byte length
    field is zero it treats this as a connection failure: the read
    loop ends, nothing is put on the frame queue, the socket is closed,
    and the cleanup of that identity is handed to [root.after] unless
    the shutdown event is already set (in which case nothing is
    scheduled). *)
Theorem zero_length_frame_ends_ingestor (turns self : nat) (w : world) :
  let this := handlers w self in
  let sock := client_socket this in
  let peer := client_address this in
  stop_event this = false ->
  closed (sockets w sock) = false ->
  8 <= length (pending (inbox (sockets w sock))) ->
  from_bytes (firstn 8 (pending (inbox (sockets w sock)))) = 0 ->
  exists w',
    ClientHandler_run zlib_decompress (S turns) self w = (Ok Finished, w') /\
    closed (sockets w' sock) = true /\
    frame_queue w' = frame_queue w /\
    clients_dict w' = clients_dict w /\
    (shutdown_event (app w) = true ->
     after_queue (app w') = after_queue (app w) /\
     stdout w' = stdout w ++ [LogHandlerError peer ConnectionError]) /\
    (shutdown_event (app w) = false -> mainloop_running (app w) = true ->
     after_queue (app w')
     = after_queue (app w) ++ [Cleanup (HandlerAddress peer)] /\
     stdout w' = stdout w ++ [LogHandlerError peer ConnectionError]) /\
    (shutdown_event (app w) = false -> mainloop_running (app w) = false ->
     after_queue (app w') = after_queue (app w) /\
     stdout w' = stdout w ++ [LogHandlerError peer ConnectionError;
                              LogGuiClosed peer RuntimeError]).
Proof.
  intros this sock peer Hstop Hcl Hav Hzero.
  destruct (ClientHandler_iteration_zero_length self w Hcl Hav Hzero)
    as (w3 & Hit & Hcl3 & Hs3 & Hh3 & Ha3 & Hf3 & Hd3 & Ho3).
  unfold ClientHandler_run. cbn [ClientHandler_loop].
  unfold gets, bind at 1. fold this. rewrite Hstop.
  unfold bind at 1. rewrite Hit.
  unfold try_finally, ClientHandler_except, ClientHandler_finally.
  unfold try_except, lift, gets, print, modify, root_after, close, on_socket,
    bind.
  cbn. rewrite Hh3, Ha3, Ho3. fold this peer sock.
  destruct (shutdown_event (app w)) eqn:Hsd; cbn.
  - rewrite Hh3. fold this sock. cbn.
    eexists. split; [reflexivity|]. cbn. rewrite upd_same. cbn.
    repeat split; auto; try discriminate;
      rewrite ?Ha3, ?Hf3, ?Hd3, ?Ho3; reflexivity.
  - rewrite ?Ha3.
    destruct (mainloop_running (app w)) eqn:Hml; cbn;
      rewrite ?Hh3; fold this sock; cbn;
      (eexists; split; [reflexivity|]); cbn; rewrite upd_same; cbn;
      repeat split; auto; try discriminate;
      rewrite ?Ha3, ?Hf3, ?Hd3, ?Ho3, <- ?app_assoc; reflexivity.
Qed.

(** One more turn of a loop whose turn succeeds: the run of the thread
    goes on from the state that turn has reached, so that the theorem
    above applies at every turn. *)
Lemma ClientHandler_run_unroll turns self w w1 :
  stop_event (handlers w self) = false ->
  ClientHandler_iteration zlib_decompress self w = (Ok tt, w1) ->
  ClientHandler_run zlib_decompress (S turns) self w
  = ClientHandler_run zlib_decompress turns self w1.
Proof.
  intros Hstop Hit. unfold ClientHandler_run. cbn [ClientHandler_loop].
  unfold gets, bind at 1. rewrite Hstop. unfold bind at 1. rewrite Hit.
  reflexivity.
Qed.

(** ** One key for the whole run *)

(** What every statement of the operator but the registration of a
    new peer keeps: the server's AES key, the key held by each handler
    thread, the objects allocated so far, no new registry entry, and
    no socket in two registry entries. *)
Definition stable (w w' : world) : Prop :=
  server_aes_key w' = server_aes_key w /\
  next_object w <= next_object w' /\
  (forall t, aes_key (handlers w' t) = aes_key (handlers w t)) /\
  (forall entry, In entry (clients_dict w') -> In entry (clients_dict w)) /\
  (NoDup (socks (clients_dict w)) -> NoDup (socks (clients_dict w'))).

Lemma stable_refl w : stable w w.
Proof. unfold stable. repeat split; auto. Qed.

Lemma stable_trans w1 w2 w3 : stable w1 w2 -> stable w2 w3 -> stable w1 w3.
Proof.
  unfold stable. intros (K1 & N1 & H1 & D1 & S1) (K2 & N2 & H2 & D2 & S2).
  repeat split; try congruence; try lia; auto.
Qed.

Local Abbreviation Stable := (Keeps stable).

Ltac stable_step :=
  first
    [ apply (Keeps_ret stable stable_refl)
    | apply (Keeps_raise stable stable_refl)
    | apply (Keeps_lift stable stable_refl)
    | apply (Keeps_gets stable stable_refl)
    | apply (Keeps_bind stable stable_trans); [|intros ?]
    | apply (Keeps_try_except stable stable_trans); [|intros ?]
    | apply (Keeps_try_finally stable stable_trans)
    | apply (Keeps_for_each stable stable_refl stable_trans); intros ?
    | apply Keeps_modify; intros ?;
      solve [unfold stable; cbn; repeat split; auto]
    | match goal with
      | |- Keeps stable (if ?b then _ else _) => destruct b
      | |- Keeps stable (match ?x with _ => _ end) => destruct x
      | |- Keeps stable (let '(_, _) := ?x in _) => destruct x
      end
    | assumption ].

Ltac stable_tac := repeat stable_step.

Lemma Stable_direct {A} (m : M world A) :
  (forall w, stable w (snd (m w))) -> Stable m.
Proof. intros H w r w' E. specialize (H w). now rewrite E in H. Qed.

Lemma Stable_print l : Stable (print l).
Proof. unfold print. stable_tac. Qed.

Lemma Stable_time_time : Stable time_time.
Proof. apply Stable_direct. intros w. unfold stable. cbn. auto. Qed.

Lemma Stable_time_sleep d : Stable (time_sleep d).
Proof. unfold time_sleep. stable_tac. Qed.

Lemma Stable_on_socket {A} sock (op : socket -> result A * socket) :
  Stable (on_socket sock op).
Proof.
  apply Stable_direct. intros w. unfold on_socket.
  destruct (op (sockets w sock)). unfold stable. cbn. auto.
Qed.

Lemma Stable_encrypt key text : Stable (encrypt key text).
Proof.
  apply Stable_direct. intros w. unfold encrypt.
  destruct (encrypt_aes key text (urandom w)). unfold stable. cbn. auto.
Qed.

Lemma Stable_thread_stop t : Stable (thread_stop t).
Proof.
  unfold thread_stop. apply Keeps_modify. intros w. unfold stable. cbn.
  repeat split; auto. intros t'. unfold upd.
  destruct (t' =? t) eqn:E; auto.
  apply Nat.eqb_eq in E. subst. reflexivity.
Qed.

Lemma Stable_root_after f : Stable (root_after f).
Proof.
  apply Stable_direct. intros w. unfold root_after.
  destruct (mainloop_running (app w)); unfold stable; cbn; auto.
Qed.

Lemma In_dict_remove {V} (d : list (address * V)) a entry :
  In entry (dict_remove d a) -> In entry d.
Proof.
  induction d as [|[k x] d IH]; cbn [dict_remove In]; auto.
  destruct (address_eqb k a); cbn [In]; tauto.
Qed.

Lemma In_socks_dict_remove (d : list (address * (nat * nat))) a s :
  In s (socks (dict_remove d a)) -> In s (socks d).
Proof.
  unfold socks. rewrite !in_map_iff. intros (entry & <- & Hin).
  exists entry. split; [reflexivity|]. now apply In_dict_remove in Hin.
Qed.

Lemma NoDup_socks_dict_remove (d : list (address * (nat * nat))) a :
  NoDup (socks d) -> NoDup (socks (dict_remove d a)).
Proof.
  induction d as [|[k [s t]] d IH]; cbn [dict_remove]; auto.
  intros Hnd. change (socks ((k, (s, t)) :: d)) with (s :: socks d) in Hnd.
  inversion Hnd as [|? ? Hnotin Hnd']; subst.
  destruct (address_eqb k a); [exact Hnd'|].
  change (NoDup (s :: socks (dict_remove d a))).
  constructor; [|auto].
  intros Hin. apply Hnotin. now apply In_socks_dict_remove in Hin.
Qed.

Lemma Stable_registry_del a : Stable (registry_del a).
Proof.
  apply Stable_direct. intros w. unfold registry_del.
  destruct (dict_get (clients_dict w) a); unfold stable; cbn;
    [|repeat split; auto].
  repeat split; auto.
  - intros entry. apply In_dict_remove.
  - apply NoDup_socks_dict_remove.
Qed.

Lemma Stable_registry_del_slot a : Stable (registry_del_slot a).
Proof.
  destruct a; cbn [registry_del_slot]; stable_tac.
  apply Stable_registry_del.
Qed.

Lemma Stable_send sock data : Stable (send sock data).
Proof. apply Stable_on_socket. Qed.

Lemma Stable_close sock : Stable (close sock).
Proof. apply Stable_on_socket. Qed.

Lemma Stable_sock_recv_all sock n : Stable (sock_recv_all sock n).
Proof. apply Stable_on_socket. Qed.

Create HintDb stable.
#[local] Hint Resolve Stable_print Stable_time_time Stable_time_sleep
  Stable_on_socket Stable_encrypt Stable_thread_stop Stable_root_after
  Stable_registry_del Stable_registry_del_slot Stable_send Stable_close
  Stable_sock_recv_all : stable.

Ltac stable_auto := repeat (solve [auto with stable] || stable_step).

Lemma Stable_send_command sock key cmd : Stable (send_command sock key cmd).
Proof. unfold send_command. stable_auto. Qed.

#[local] Hint Resolve Stable_send_command : stable.

Lemma Stable_dispatch_global origin cmd : Stable (dispatch_global origin cmd).
Proof. unfold dispatch_global. stable_auto. Qed.

Lemma Stable_dispatch_resize origin cmd : Stable (dispatch_resize origin cmd).
Proof. unfold dispatch_resize. stable_auto. Qed.

Lemma Stable_dispatch_targeted origin cmd : Stable (dispatch_targeted origin cmd).
Proof. unfold dispatch_targeted. stable_auto. Qed.

Lemma Stable_command_queue_get : Stable command_queue_get.
Proof.
  apply Stable_direct. intros w. unfold command_queue_get.
  destruct (command_queue w); unfold stable; cbn; auto.
Qed.

Lemma Stable_frame_queue_get : Stable frame_queue_get.
Proof.
  apply Stable_direct. intros w. unfold frame_queue_get.
  destruct (frame_queue w); unfold stable; cbn; auto.
Qed.

#[local] Hint Resolve Stable_dispatch_global Stable_dispatch_resize
  Stable_dispatch_targeted Stable_command_queue_get Stable_frame_queue_get
  : stable.

Lemma Stable_CommandConsumer_iteration : Stable CommandConsumer_iteration.
Proof. unfold CommandConsumer_iteration. stable_auto. Qed.

Lemma Stable_FrameConsumer_iteration : Stable FrameConsumer_iteration.
Proof.
  unfold FrameConsumer_iteration, update_screen. stable_auto.
Qed.

Lemma Stable_set_last_frame_time self t :
  Stable (modify (fun w =>
    set_handlers (upd (handlers w) self
                    (set_last_frame_time t (handlers w self))) w)).
Proof.
  apply Keeps_modify. intros w. unfold stable. cbn.
  repeat split; auto. intros t'. unfold upd.
  destruct (t' =? self) eqn:E; auto.
  apply Nat.eqb_eq in E. subst. reflexivity.
Qed.

#[local] Hint Resolve Stable_set_last_frame_time
  Stable_CommandConsumer_iteration Stable_FrameConsumer_iteration : stable.

Lemma Stable_ClientHandler_iteration self :
  Stable (ClientHandler_iteration zlib_decompress self).
Proof.
  unfold ClientHandler_iteration, frame_queue_put. stable_auto.
Qed.

#[local] Hint Resolve Stable_ClientHandler_iteration : stable.

Lemma Stable_ClientHandler_loop turns self :
  Stable (ClientHandler_loop zlib_decompress turns self).
Proof.
  induction turns as [|turns IH]; cbn [ClientHandler_loop]; stable_auto.
Qed.

Lemma Stable_ClientHandler_except self e : Stable (ClientHandler_except self e).
Proof. unfold ClientHandler_except. stable_auto. Qed.

Lemma Stable_ClientHandler_finally self : Stable (ClientHandler_finally self).
Proof. unfold ClientHandler_finally. stable_auto. Qed.

#[local] Hint Resolve Stable_ClientHandler_loop Stable_ClientHandler_except
  Stable_ClientHandler_finally : stable.

Lemma Stable_ClientHandler_run turns self :
  Stable (ClientHandler_run zlib_decompress turns self).
Proof.
  intros w r w' H. unfold ClientHandler_run in H.
  destruct (ClientHandler_loop zlib_decompress turns self w) as [r1 w1] eqn:E.
  apply Stable_ClientHandler_loop in E.
  assert (Hrest : Stable
            (try_finally
               (try_except (lift r1)
                  (fun e => ClientHandler_except self e ;; ret Finished)%monad)
               (ClientHandler_finally self))) by stable_auto.
  destruct r1 as [[|]|e].
  - apply (stable_trans _ _ _ E). eapply Hrest. exact H.
  - injection H as <- <-. exact E.
  - apply (stable_trans _ _ _ E). eapply Hrest. exact H.
Qed.

Lemma Stable_server_accept : Stable server_accept.
Proof.
  apply Stable_direct. intros w. unfold server_accept.
  destruct (backlog w) as [|[conn peer|e] rest]; unfold stable; cbn; auto.
Qed.

Lemma Stable_rsa_encrypt_with_pool key text :
  Stable (rsa_encrypt_with_pool key text).
Proof.
  apply Stable_direct. intros w. unfold rsa_encrypt_with_pool.
  destruct (rsa_encrypt key text (urandom w)). unfold stable. cbn. auto.
Qed.

#[local] Hint Resolve Stable_server_accept Stable_rsa_encrypt_with_pool
  : stable.

Lemma Stable_key_exchange : Stable key_exchange.
Proof. unfold key_exchange, allow_address. stable_auto. Qed.

Lemma Stable_Server_stop : Stable Server_stop.
Proof. unfold Server_stop. stable_auto. Qed.

Lemma Stable_command_queue_put item : Stable (command_queue_put item).
Proof. unfold command_queue_put. stable_auto. Qed.

#[local] Hint Resolve Stable_key_exchange Stable_Server_stop
  Stable_command_queue_put Stable_ClientHandler_run : stable.

(** The registry invariant: every entry's handler thread exists and
    holds the server's key. *)
Definition registry_agrees (w : world) : Prop :=
  forall a s t, In (a, (s, t)) (clients_dict w) ->
    t < next_object w /\ aes_key (handlers w t) = server_aes_key w.

Lemma registry_agrees_stable w w' :
  stable w w' -> registry_agrees w -> registry_agrees w'.
Proof.
  intros (K & N & H & D & _) Hinv a s t Hin.
  destruct (Hinv a s t (D _ Hin)) as [Hlt Hkey].
  split; [lia|]. now rewrite H, K.
Qed.

Lemma In_dict_set {V} (d : list (address * V)) k v entry :
  In entry (dict_set d k v) -> entry = (k, v) \/ In entry d
                               \/ exists k', entry = (k', v) /\ address_eqb k' k = true.
Proof.
  induction d as [|[k' v'] d IH]; cbn [dict_set In];
    [intros [<-|[]]; auto|].
  destruct (address_eqb k' k) eqn:E; cbn [In].
  - intros [<-|Hin]; eauto.
  - intros [<-|Hin]; auto. destruct (IH Hin) as [?|[?|?]]; auto.
Qed.

(** Registration of an accepted peer: the new handler thread is given
    [self.aes_key] and becomes the peer's registry entry. *)
Lemma register_keeps_agreement sock peer w :
  registry_agrees w ->
  registry_agrees
    (snd ((key <- gets server_aes_key ;;
           handler <- new_ClientHandler sock peer key ;;
           modify (fun w =>
             set_clients_dict
               (dict_set (clients_dict w) peer (sock, handler)) w))%monad w)).
Proof.
  intros Hinv. unfold gets, new_ClientHandler, modify, bind. cbn -[upd].
  intros a s t Hin. cbn -[upd] in *.
  assert (Hnew : t = next_object w \/ In (a, (s, t)) (clients_dict w)).
  { apply In_dict_set in Hin.
    destruct Hin as [Heq|[Hin|(k' & Heq & _)]]; auto;
      injection Heq as _ _ ->; auto. }
  destruct Hnew as [-> | Hold].
  - rewrite upd_same. cbn. auto.
  - destruct (Hinv a s t Hold) as [Hlt Hkey].
    rewrite upd_other by lia. auto.
Qed.

Lemma Server_iteration_keeps_agreement w r w' :
  registry_agrees w ->
  Server_iteration w = (r, w') ->
  registry_agrees w' /\ server_aes_key w' = server_aes_key w.
Proof.
  intros Hinv H. unfold Server_iteration in H.
  unfold bind at 1 in H.
  destruct (key_exchange w) as [[[[sock peer]|]|e] w1] eqn:E;
    pose proof (Stable_key_exchange _ _ _ E) as Hst1;
    pose proof (registry_agrees_stable _ _ Hst1 Hinv) as Hinv1;
    assert (Hk1 : server_aes_key w1 = server_aes_key w) by apply Hst1;
    try (injection H as <- <-; auto).
  (* an accepted peer: everything before the registration is stable *)
  set (prefix :=
         (print (LogAccepted peer) ;;
          size <- gets (fun w => button_size (app w)) ;;
          command_queue_put
            (Addr peer,
             String.append "resize:"
               (String.append (string_of_nat (fst size))
                  (String.append ":" (string_of_nat (snd size))))) ;;
          paused <- gets pause_event ;;
          (if paused : bool then
             try_except
               (key <- gets server_aes_key ;;
                send_command sock key "pause" ;;
                print LogPauseSent)
               (fun e => print (LogPauseFailed peer e))
           else ret tt))%monad).
  set (register :=
         (key <- gets server_aes_key ;;
          handler <- new_ClientHandler sock peer key ;;
          modify (fun w =>
            set_clients_dict
              (dict_set (clients_dict w) peer (sock, handler)) w))%monad) in *.
  assert (Hsplit : forall w0,
            (print (LogAccepted peer) ;;
             size <- gets (fun w => button_size (app w)) ;;
             command_queue_put
               (Addr peer,
                String.append "resize:"
                  (String.append (string_of_nat (fst size))
                     (String.append ":" (string_of_nat (snd size))))) ;;
             paused <- gets pause_event ;;
             (if paused : bool then
                try_except
                  (key <- gets server_aes_key ;;
                   send_command sock key "pause" ;;
                   print LogPauseSent)
                  (fun e => print (LogPauseFailed peer e))
              else ret tt) ;;
             register)%monad w0
            = (prefix ;; register)%monad w0).
  { intros w0. unfold prefix, print, command_queue_put, modify, gets, bind.
    destruct (pause_event _); [|reflexivity].
    unfold try_except.
    destruct (send_command _ _ _ _) as [[u|e] w2]; reflexivity. }
  rewrite Hsplit in H.
  assert (Hpre : Stable prefix) by (unfold prefix; stable_auto).
  unfold bind at 1 in H.
  destruct (prefix w1) as [[u|e] w2] eqn:E2;
    pose proof (Hpre _ _ _ E2) as Hst2;
    pose proof (registry_agrees_stable _ _ Hst2 Hinv1) as Hinv2;
    assert (Hk2 : server_aes_key w2 = server_aes_key w1) by apply Hst2.
  - split.
    + pose proof (register_keeps_agreement sock peer w2 Hinv2) as Hreg.
      fold register in Hreg. rewrite H in Hreg. exact Hreg.
    + unfold register, gets, new_ClientHandler, modify, bind in H.
      injection H as _ <-. cbn. congruence.
  - injection H as <- <-. split; [exact Hinv2|congruence].
Qed.

(** ** The handshake hands out the server's key *)

Ltac inv_bind H :=
  let a := fresh "a" in
  let w := fresh "w" in
  let H1 := fresh "Hstep" in
  apply bind_inv_ok in H; destruct H as (a & w & H1 & H).

Lemma send_ok_outbox sock data w u w' :
  send sock data w = (Ok u, w') ->
  outbox (sockets w' sock) = outbox (sockets w sock) ++ [data] /\
  server_aes_key w' = server_aes_key w.
Proof.
  unfold send, on_socket, sock_send.
  destruct (closed (sockets w sock)); [discriminate|].
  destruct (send_plan (sockets w sock)) as [|[e|] plan];
    intros H; inversion H; subst; cbn; rewrite ?upd_same; auto.
Qed.

(** Whenever [key_exchange] admits a peer, the last record it wrote to
    the peer's socket is the server's one AES key, encrypted under the
    public key the peer sent. *)
Lemma key_exchange_sends_server_key w sock peer w' :
  key_exchange w = (Ok (Some (sock, peer)), w') ->
  exists client_key e n encrypted_aes_key earlier,
    fst (rsa_encrypt client_key (server_aes_key w) e) = Ok encrypted_aes_key /\
    to_bytes (length encrypted_aes_key) 4 = Ok n /\
    outbox (sockets w' sock) = earlier ++ [n; encrypted_aes_key].
Proof.
  unfold key_exchange. intros H.
  apply bind_inv_ok in H. destruct H as (stopped & w0 & Hs & H).
  injection Hs as <- <-.
  destruct (server_stop_event w); [discriminate|].
  unfold try_except in H.
  match type of H with
  | match ?body w with _ => _ end = _ =>
      destruct (body w) as [[res|ex] w1] eqn:Hbody
  end.
  2:{ unfold print, modify, ret, bind in H. discriminate. }
  injection H as -> ->.
  apply bind_inv_ok in Hbody.
  destruct Hbody as ([cs ca] & wa & Hacc & Hbody).
  pose proof (Stable_server_accept _ _ _ Hacc) as (Hka & _).
  apply bind_inv_ok in Hbody. destruct Hbody as (st & wb & Hst & Hbody).
  injection Hst as <- <-.
  destruct (server_stop_event wa).
  { inv_bind Hbody. discriminate. }
  apply bind_inv in Hbody.
  destruct Hbody as [(e & _ & He)|(received & wc & Hrecv & Hbody)];
    [discriminate|].
  assert (Hkc : server_aes_key wc = server_aes_key wa).
  { assert (St : Stable
      (try_except
         (len_field <- sock_recv_all cs 4 ;;
          client_key_bytes <- sock_recv_all cs (from_bytes len_field) ;;
          client_key <- lift (deserialize_public_key client_key_bytes) ;;
          ret (Some client_key))
         (fun e => match e with
                   | socket_timeout => close cs ;; ret None
                   | _ => raise e
                   end))%monad) by stable_auto.
    apply (St _ _ _ Hrecv). }
  destruct received as [client_key|]; [|discriminate].
  apply bind_inv_ok in Hbody. destruct Hbody as (skb & w1' & Hg & Hbody).
  injection Hg as <- <-.
  apply bind_inv_ok in Hbody. destruct Hbody as (n1 & w2 & Hl & Hbody).
  unfold lift in Hl. injection Hl as Hn1 <-.
  apply bind_inv_ok in Hbody. destruct Hbody as (u1 & w3 & Hs1 & Hbody).
  apply send_ok_outbox in Hs1. destruct Hs1 as [_ Hk1].
  apply bind_inv_ok in Hbody. destruct Hbody as (u2 & w4 & Hs2 & Hbody).
  apply send_ok_outbox in Hs2. destruct Hs2 as [_ Hk2].
  apply bind_inv_ok in Hbody. destruct Hbody as (key & w5 & Hg & Hbody).
  injection Hg as <- <-.
  apply bind_inv_ok in Hbody. destruct Hbody as (enc & w6 & Hr & Hbody).
  unfold rsa_encrypt_with_pool in Hr.
  destruct (rsa_encrypt client_key (server_aes_key w4) (urandom w4))
    as [renc e'] eqn:Hrsa.
  injection Hr as -> <-.
  apply bind_inv_ok in Hbody. destruct Hbody as (n2 & w7 & Hl & Hbody).
  unfold lift in Hl. injection Hl as Hn2 <-.
  apply bind_inv_ok in Hbody. destruct Hbody as (u3 & w8 & Hs3 & Hbody).
  apply send_ok_outbox in Hs3. destruct Hs3 as [Ho1 _].
  apply bind_inv_ok in Hbody. destruct Hbody as (u4 & w9 & Hs4 & Hbody).
  apply send_ok_outbox in Hs4. destruct Hs4 as [Ho2 _].
  apply bind_inv_ok in Hbody. destruct Hbody as (u5 & w10 & Hm & Hbody).
  injection Hm as _ <-.
  apply bind_inv_ok in Hbody. destruct Hbody as (u6 & w11 & Hal & Hbody).
  unfold allow_address, modify in Hal. injection Hal as _ <-.
  injection Hbody as <- <- <-.
  exists client_key, (urandom w4), n2, enc, (outbox (sockets w4 cs)).
  repeat split.
  - replace (server_aes_key w) with (server_aes_key w4) by congruence.
    rewrite Hrsa. reflexivity.
  - exact Hn2.
  - cbn. rewrite Ho2, Ho1. cbn. rewrite <- app_assoc. reflexivity.
Qed.

(** ** The dispatcher encrypts under the entry's key *)

Lemma dispatch_targeted_outcome target cmd sock thread w :
  registry_get w target = Some (sock, thread) ->
  let key := aes_key (handlers w thread) in
  sendable key cmd (urandom w) (sockets w sock) = true ->
  exists w',
    dispatch_targeted target cmd w = (Ok tt, w') /\
    exists rec, record_of key cmd (urandom w) rec /\
      outbox (sockets w' sock) = outbox (sockets w sock) ++ rec.
Proof.
  intros Hreg key Hsend.
  destruct target as [| |a]; try discriminate. cbn [registry_get] in Hreg.
  unfold dispatch_targeted, gets, bind at 1. cbn [registry_get].
  rewrite Hreg. unfold bind at 1. fold key.
  destruct (send_command_outcome sock key cmd w)
    as (r & w1 & Hrun & Hframe & Hok & Hrec).
  apply Hok in Hsend. subst r. destruct (Hrec eq_refl) as (rec & Hr & Hob).
  destruct Hframe as (Hh & _ & Hd & _).
  unfold try_except, bind at 1. rewrite Hrun.
  destruct (String.eqb cmd "kick").
  - unfold thread_stop, modify, bind, registry_del_slot, registry_del.
    cbn. rewrite Hd, Hreg.
    eexists. split; [reflexivity|]. exists rec. split; auto.
  - exists w1. split; [reflexivity|]. exists rec. auto.
Qed.

(** ** Runs of the operator *)

(** What can happen, in any order, during one run of the operator:
    a turn of the accept loop, of the dispatcher or of the frame
    consumer, some turns of a handler thread, the shutdown, and the
    application putting a command on the queue or changing its own
    state. *)
Inductive event : Type :=
| ServerTurn
| CommandTurn
| FrameTurn
| HandlerRun (turns self : nat)
| ServerStop
| GuiCommand (item : pyaddr * string)
| GuiState (gui : App).

Definition step (ev : event) (w : world) : world :=
  match ev with
  | ServerTurn => snd (Server_iteration w)
  | CommandTurn => snd (CommandConsumer_iteration w)
  | FrameTurn => snd (FrameConsumer_iteration w)
  | HandlerRun turns self => snd (ClientHandler_run zlib_decompress turns self w)
  | ServerStop => snd (Server_stop w)
  | GuiCommand item => set_command_queue (command_queue w ++ [item]) w
  | GuiState gui => set_app gui w
  end.

Definition run (evs : list event) (w : world) : world :=
  fold_left (fun w ev => step ev w) evs w.

Lemma Stable_snd {A} (m : M world A) w : Stable m -> stable w (snd (m w)).
Proof. intros H. apply (H w (fst (m w))). now destruct (m w). Qed.

Lemma step_keeps_agreement ev w :
  registry_agrees w ->
  registry_agrees (step ev w) /\ server_aes_key (step ev w) = server_aes_key w.
Proof.
  intros Hinv.
  assert (Hst : forall w', stable w w' ->
            registry_agrees w' /\ server_aes_key w' = server_aes_key w).
  { intros w' Hs. split; [eapply registry_agrees_stable; eauto|apply Hs]. }
  destruct ev; cbn [step].
  - apply (Server_iteration_keeps_agreement w (fst (Server_iteration w)));
      auto. now destruct (Server_iteration w).
  - apply Hst, Stable_snd. auto with stable.
  - apply Hst, Stable_snd. auto with stable.
  - apply Hst, Stable_snd. auto with stable.
  - apply Hst, Stable_snd. auto with stable.
  - apply Hst. unfold stable. cbn. auto.
  - apply Hst. unfold stable. cbn. auto.
Qed.

Lemma run_keeps_agreement evs :
  forall w, registry_agrees w ->
    registry_agrees (run evs w) /\ server_aes_key (run evs w) = server_aes_key w.
Proof.
  unfold run. induction evs as [|ev evs IH]; intros w Hinv; cbn [fold_left].
  - auto.
  - destruct (step_keeps_agreement ev w Hinv) as [Hinv1 Hk1].
    destruct (IH _ Hinv1) as [Hinv2 Hk2]. split; [auto|congruence].
Qed.

Lemma Server_init_key gui wall_clock connections e :
  let w0 := Server_init gui wall_clock connections e in
  server_aes_key w0 = fst (generate_aes_key (snd (generate_rsa_keys e))) /\
  length (server_aes_key w0) = 32 /\ clients_dict w0 = [].
Proof.
  unfold Server_init.
  destruct (generate_rsa_keys e) as [[priv pub] e1]. cbn [snd].
  pose proof (EncryptionFacts.os_urandom_length 32 e1) as Hlen.
  unfold generate_aes_key. destruct (os_urandom 32 e1) as [key e2].
  cbn in *. auto.
Qed.

Local Open Scope monad_scope.

(** ** The handshake, step by step *)

Lemma sock_recv_keeps s bufsize r s' :
  sock_recv s bufsize = (r, s') ->
  outbox s' = outbox s /\ closed s' = closed s /\ send_plan s' = send_plan s.
Proof.
  unfold sock_recv. destruct (closed s) eqn:Hcl; [intros [= <- <-]; auto|].
  destruct (bufsize =? 0); [intros [= <- <-]; auto|].
  destruct (recv_inbox bufsize (inbox s)) as [r0 i]. intros [= <- <-].
  cbn. auto.
Qed.

Lemma recv_all_loop_keeps k :
  forall sock n data r sock',
    n - length data = k ->
    recv_all_loop sock n data = (r, sock') ->
    outbox sock' = outbox sock /\ closed sock' = closed sock /\
    send_plan sock' = send_plan sock.
Proof.
  induction k as [k IH] using lt_wf_ind.
  intros sock n data r sock' Hk H.
  rewrite FunctionsModuleFacts.recv_all_loop_unfold in H.
  destruct (lt_dec (length data) n) as [Hlt|Hge];
    [|injection H as <- <-; auto].
  destruct (sock_recv sock (Nat.min MAX_CHUNK_SIZE (n - length data)))
    as [[[|b packet]|e] s1] eqn:Hr;
    pose proof (sock_recv_keeps _ _ _ _ Hr) as (O1 & C1 & P1).
  - injection H as <- <-. auto.
  - apply (IH (n - length (data ++ b :: packet))) in H; auto.
    + destruct H as (O2 & C2 & P2). repeat split; congruence.
    + rewrite length_app. cbn [length]. lia.
  - injection H as <- <-. auto.
Qed.

(** [recv_all] only reads. *)
Lemma recv_all_keeps sock n r sock' :
  recv_all sock n = (r, sock') ->
  outbox sock' = outbox sock /\ closed sock' = closed sock /\
  send_plan sock' = send_plan sock.
Proof. unfold recv_all. now apply (recv_all_loop_keeps (n - 0)). Qed.

Lemma dict_get_set_same {V} (d : list (address * V)) k v :
  dict_get (dict_set d k v) k = Some v.
Proof.
  induction d as [|[k' v'] d IH]; cbn [dict_set dict_get].
  - now rewrite address_eqb_refl.
  - destruct (address_eqb k' k) eqn:E; cbn [dict_get]; now rewrite E.
Qed.

(** What the statements of the handshake leave alone. *)
Definition same_keys (w w' : world) : Prop :=
  server_aes_key w' = server_aes_key w /\ urandom w' = urandom w /\
  public_key w' = public_key w /\ rsa_keys w' = rsa_keys w.

Lemma sock_recv_all_inv sock n w data w' :
  sock_recv_all sock n w = (Ok data, w') ->
  exists s',
    recv_all (sockets w sock) n = (Ok data, s') /\
    sockets w' sock = s' /\ same_keys w w'.
Proof.
  unfold sock_recv_all, on_socket.
  destruct (recv_all (sockets w sock) n) as [r s']. intros [= -> <-].
  exists s'. split; [reflexivity|]. cbn [sockets set_sockets].
  rewrite upd_same. unfold same_keys. cbn. auto.
Qed.

Lemma send_inv sock data w u w' :
  send sock data w = (Ok u, w') ->
  outbox (sockets w' sock) = outbox (sockets w sock) ++ [data] /\
  same_keys w w'.
Proof.
  unfold send, on_socket, sock_send, same_keys.
  destruct (closed (sockets w sock)); [discriminate|].
  destruct (send_plan (sockets w sock)) as [|[e|] plan];
    intros H; inversion H; subst; cbn; rewrite ?upd_same; auto.
Qed.

(** Whenever [key_exchange] admits a peer: the connection was first
    in the backlog; the key the peer sent, read from that connection
    as a length field and that many bytes, is the one the server's AES
    key is encrypted under and the one kept for the peer; and what the
    handshake has written to the connection is the server's public key
    and that ciphertext, each behind its length. *)
Lemma key_exchange_admits w sock peer w' :
  key_exchange w = (Ok (Some (sock, peer)), w') ->
  exists conn rest len_field conn1 client_key_bytes conn2 client_key
         n1 n2 encrypted_aes_key,
    backlog w = Accepted conn peer :: rest /\
    sock = next_object w /\
    recv_all conn 4 = (Ok len_field, conn1) /\
    recv_all conn1 (from_bytes len_field) = (Ok client_key_bytes, conn2) /\
    deserialize_public_key client_key_bytes = Ok client_key /\
    to_bytes (length (serialize_public_key (public_key w))) 4 = Ok n1 /\
    fst (rsa_encrypt client_key (server_aes_key w) (urandom w))
    = Ok encrypted_aes_key /\
    to_bytes (length encrypted_aes_key) 4 = Ok n2 /\
    outbox (sockets w' sock)
    = outbox conn
      ++ [n1; serialize_public_key (public_key w); n2; encrypted_aes_key] /\
    dict_get (rsa_keys w') peer = Some client_key.
Proof.
  unfold key_exchange. intros H.
  apply bind_inv_ok in H. destruct H as (stopped & w0 & Hs & H).
  injection Hs as <- <-.
  destruct (server_stop_event w) eqn:Hstop; [discriminate|].
  unfold try_except in H.
  match type of H with
  | match ?body w with _ => _ end = _ =>
      destruct (body w) as [[res|ex] w1] eqn:Hbody
  end.
  2:{ unfold print, modify, ret, bind in H. discriminate. }
  injection H as -> ->.
  apply bind_inv_ok in Hbody.
  destruct Hbody as ([cs ca] & wa & Hacc & Hbody).
  unfold server_accept in Hacc.
  destruct (backlog w) as [|[conn p|e] rest] eqn:Hbl; try discriminate.
  injection Hacc as <- <- <-.
  apply bind_inv_ok in Hbody. destruct Hbody as (st & wb & Hst & Hbody).
  injection Hst as <- <-.
  cbn [server_stop_event set_backlog set_next_object set_sockets] in Hbody.
  rewrite Hstop in Hbody.
  apply bind_inv in Hbody.
  destruct Hbody as [(e & _ & He)|(received & wc & Hrecv & Hbody)];
    [discriminate|].
  destruct received as [client_key|]; [|discriminate].
  unfold try_except in Hrecv.
  match type of Hrecv with
  | match ?body ?x with _ => _ end = _ =>
      destruct (body x) as [[got|ex] wr] eqn:Hread
  end.
  2:{ destruct ex; discriminate. }
  injection Hrecv as -> ->.
  apply bind_inv_ok in Hread. destruct Hread as (len_field & wr1 & Hr1 & Hread).
  apply sock_recv_all_inv in Hr1.
  destruct Hr1 as (conn1 & Hr1 & S1 & A1 & B1 & C1 & D1).
  cbn [sockets server_aes_key urandom public_key rsa_keys
       set_backlog set_next_object set_sockets] in Hr1, A1, B1, C1, D1.
  rewrite upd_same in Hr1.
  apply bind_inv_ok in Hread. destruct Hread as (ckb & wr2 & Hr2 & Hread).
  apply sock_recv_all_inv in Hr2.
  destruct Hr2 as (conn2 & Hr2 & S2 & A2 & B2 & C2 & D2).
  rewrite S1 in Hr2.
  apply bind_inv_ok in Hread. destruct Hread as (ck & wr3 & Hde & Hread).
  unfold lift in Hde. injection Hde as Hde <-.
  injection Hread as -> <-.
  apply bind_inv_ok in Hbody. destruct Hbody as (skb & w1' & Hg & Hbody).
  injection Hg as <- <-.
  apply bind_inv_ok in Hbody. destruct Hbody as (n1 & w2 & Hl & Hbody).
  unfold lift in Hl. injection Hl as Hn1 <-.
  apply bind_inv_ok in Hbody. destruct Hbody as (u1 & w3 & Hs1 & Hbody).
  apply send_inv in Hs1. destruct Hs1 as (Ho3 & A3 & B3 & C3 & D3).
  apply bind_inv_ok in Hbody. destruct Hbody as (u2 & w4 & Hs2 & Hbody).
  apply send_inv in Hs2. destruct Hs2 as (Ho4 & A4 & B4 & C4 & D4).
  apply bind_inv_ok in Hbody. destruct Hbody as (key & w5 & Hg & Hbody).
  injection Hg as <- <-.
  apply bind_inv_ok in Hbody. destruct Hbody as (enc & w6 & Hr & Hbody).
  unfold rsa_encrypt_with_pool in Hr.
  destruct (rsa_encrypt client_key (server_aes_key w4) (urandom w4))
    as [renc e'] eqn:Hrsa.
  injection Hr as -> Hw6.
  apply bind_inv_ok in Hbody. destruct Hbody as (n2 & w7 & Hl & Hbody).
  unfold lift in Hl. injection Hl as Hn2 <-.
  apply bind_inv_ok in Hbody. destruct Hbody as (u3 & w8 & Hs3 & Hbody).
  apply send_inv in Hs3. destruct Hs3 as (Ho5 & A5 & B5 & C5 & D5).
  apply bind_inv_ok in Hbody. destruct Hbody as (u4 & w9 & Hs4 & Hbody).
  apply send_inv in Hs4. destruct Hs4 as (Ho6 & A6 & B6 & C6 & D6).
  apply bind_inv_ok in Hbody. destruct Hbody as (u5 & w10 & Hm & Hbody).
  unfold modify in Hm.
  assert (Hw10 : w10 = set_rsa_keys (dict_set (rsa_keys w9) p client_key) w9)
    by congruence.
  clear Hm.
  apply bind_inv_ok in Hbody. destruct Hbody as (u6 & w11 & Hal & Hbody).
  unfold allow_address, modify in Hal.
  assert (Hw11 : sockets w11 = sockets w10 /\ rsa_keys w11 = rsa_keys w10).
  { assert (Hx : w11 = set_app
                         (set_kicked_addresses
                            (filter (fun a => negb (address_eqb a p))
                               (kicked_addresses (app w10))) (app w10)) w10)
      by congruence.
    rewrite Hx. split; reflexivity. }
  clear Hal. destruct Hw11 as [Hs11 Hk11].
  unfold ret in Hbody.
  assert (Hres : next_object w = sock /\ p = peer /\ w11 = w')
    by (split; [|split]; congruence).
  clear Hbody. destruct Hres as (<- & <- & <-).
  assert (Hs6 : sockets w6 = sockets w4) by (rewrite <- Hw6; reflexivity).
  destruct (recv_all_keeps _ _ _ _ Hr1) as (K1 & _).
  destruct (recv_all_keeps _ _ _ _ Hr2) as (K2 & _).
  exists conn, rest, len_field, conn1, ckb, conn2, client_key, n1, n2, enc.
  split; [reflexivity|]. split; [reflexivity|]. split; [exact Hr1|].
  split; [exact Hr2|]. split; [exact Hde|].
  assert (Hpk : public_key wr2 = public_key w) by congruence.
  rewrite Hpk in Hn1, Ho4.
  split; [exact Hn1|]. split.
  { replace (server_aes_key w) with (server_aes_key w4) by congruence.
    replace (urandom w) with (urandom w4) by congruence.
    now rewrite Hrsa. }
  split; [exact Hn2|]. split.
  - rewrite Hs11, Hw10. cbn [sockets set_rsa_keys].
    rewrite Ho6, Ho5, Hs6, Ho4, Ho3, S2, K2, K1, <- !app_assoc.
    reflexivity.
  - rewrite Hk11, Hw10. cbn [rsa_keys set_rsa_keys].
    apply dict_get_set_same.
Qed.

(** ** Every dispatched command is encrypted under the entry's key *)

(** The record of [cmd] under [key] with the IV drawn from [e]; there
    is none when [encrypt_aes] raises or the length does not fit the
    length field. *)
Definition record_bytes (key : bytes) (cmd : string) (e : entropy)
  : list bytes :=
  match fst (encrypt_aes key (PyBytes (encode cmd)) e) with
  | Ok (iv, ct) =>
      match to_bytes (length ct) 4 with
      | Ok n => [n; iv; ct]
      | Raise _ => []
      end
  | Raise _ => []
  end.

(** What has been written to a socket is the record of [cmd] under
    [key], or the part of it that was sent before a send failed, or
    nothing. *)
Definition written_under (key : bytes) (cmd : string)
  (before after : list bytes) : Prop :=
  exists e k, after = before ++ firstn k (record_bytes key cmd e).

Lemma written_under_refl key cmd l : written_under key cmd l l.
Proof.
  exists {| pool := fun _ => x00; pool_pos := 0 |}, 0.
  cbn [firstn]. now rewrite app_nil_r.
Qed.

(** What the turn of the dispatcher does to the wires: the key of
    every handler thread stays, the sockets other than [s] keep what
    was written to them, and [s] has received at most the record of
    [cmd] under [key]. *)
Definition touches (s : nat) (key : bytes) (cmd : string) (w w' : world)
  : Prop :=
  (forall t, aes_key (handlers w' t) = aes_key (handlers w t)) /\
  (forall s', s' <> s -> outbox (sockets w' s') = outbox (sockets w s')) /\
  written_under key cmd (outbox (sockets w s)) (outbox (sockets w' s)).

Lemma send_command_touches sock key cmd w r w' :
  send_command sock key cmd w = (r, w') -> touches sock key cmd w w'.
Proof.
  unfold send_command, encrypt, bind at 1.
  unfold touches, written_under, record_bytes.
  destruct (encrypt_aes key (PyBytes (encode cmd)) (urandom w))
    as [[[iv ct]|e] e'] eqn:Henc.
  2:{ intros [= <- <-]. cbn [handlers sockets set_urandom].
      split; [auto|]. split; [auto|].
      exists (urandom w), 0. cbn [firstn]. now rewrite app_nil_r. }
  unfold lift, bind at 1.
  destruct (to_bytes (length ct) 4) as [n|e] eqn:Hn.
  2:{ intros [= <- <-]. cbn [handlers sockets set_urandom].
      split; [auto|]. split; [auto|].
      exists (urandom w), 0. cbn [firstn]. now rewrite app_nil_r. }
  intros H.
  assert (Hk : exists k,
    (forall t, aes_key (handlers w' t) = aes_key (handlers w t)) /\
    (forall s', s' <> sock -> outbox (sockets w' s') = outbox (sockets w s')) /\
    outbox (sockets w' sock) = outbox (sockets w sock) ++ firstn k [n; iv; ct]).
  { revert H. unfold send, on_socket, bind, sock_send.
    cbn [sockets set_urandom set_sockets].
    destruct (closed (sockets w sock)) eqn:Hcl.
    { intros [= <- <-]. exists 0.
      cbn [handlers sockets set_sockets set_urandom firstn].
      rewrite upd_same, app_nil_r.
      split; [auto|]. split; [|reflexivity].
      intros s' Hs'. now rewrite upd_other. }
    destruct (send_plan (sockets w sock)) as [|[e1|] [|[e2|] [|[e3|] plan]]];
      cbn [sockets set_sockets closed send_plan outbox inbox];
      rewrite ?upd_same;
      cbn [sockets set_sockets closed send_plan outbox inbox];
      rewrite ?Hcl, ?upd_same;
      cbn [sockets set_sockets closed send_plan outbox inbox];
      rewrite ?Hcl, ?upd_same;
      cbn [sockets set_sockets closed send_plan outbox inbox];
      intros [= <- <-];
      cbn [handlers sockets set_sockets set_urandom];
      rewrite ?upd_same; cbn [outbox];
      first [ exists 3; cbn [firstn]; rewrite <- ?app_assoc;
                split; [auto|]; split; [|reflexivity];
                intros s' Hs'; now rewrite !upd_other by exact Hs'
            | exists 2; cbn [firstn]; rewrite <- ?app_assoc;
                split; [auto|]; split; [|reflexivity];
                intros s' Hs'; now rewrite !upd_other by exact Hs'
            | exists 1; cbn [firstn]; rewrite <- ?app_assoc;
                split; [auto|]; split; [|reflexivity];
                intros s' Hs'; now rewrite !upd_other by exact Hs'
            | exists 0; cbn [firstn]; rewrite ?app_nil_r;
                split; [auto|]; split; [|reflexivity];
                intros s' Hs'; now rewrite !upd_other by exact Hs' ]. }
  destruct Hk as (k & Hh & Hs & Ho).
  split; [exact Hh|]. split; [exact Hs|].
  exists (urandom w), k. rewrite Henc. cbn [fst]. rewrite Hn. exact Ho.
Qed.

(** The statements of the dispatcher that write to no socket. *)
Definition same_wires (w w' : world) : Prop :=
  sockets w' = sockets w /\
  (forall t, aes_key (handlers w' t) = aes_key (handlers w t)).

Lemma same_wires_refl w : same_wires w w.
Proof. split; auto. Qed.

Lemma same_wires_trans w1 w2 w3 :
  same_wires w1 w2 -> same_wires w2 w3 -> same_wires w1 w3.
Proof.
  intros [S1 K1] [S2 K2]. split; [congruence|].
  intros t. now rewrite K2, K1.
Qed.

Lemma drop_peer_wires l addr thread cb w r w' :
  (print l ;; thread_stop thread ;; registry_del addr ;; root_after cb) w
  = (r, w') ->
  same_wires w w'.
Proof.
  unfold print, thread_stop, registry_del, root_after, modify, bind.
  cbn [clients_dict app set_stdout set_handlers set_clients_dict].
  destruct (dict_get (clients_dict w) addr);
    cbn [clients_dict app set_stdout set_handlers set_clients_dict];
    [destruct (mainloop_running (app w))|];
    intros [= <- <-]; split;
    cbn [sockets handlers set_app set_clients_dict set_handlers set_stdout];
    auto; intros t; unfold upd; destruct (t =? thread) eqn:E; auto;
    apply Nat.eqb_eq in E; subst; reflexivity.
Qed.

Lemma touches_same_wires s key cmd w1 w2 w3 :
  touches s key cmd w1 w2 -> same_wires w2 w3 -> touches s key cmd w1 w3.
Proof.
  intros (K & O & W) [S2 K2]. unfold touches. rewrite S2.
  split; [intros t; now rewrite K2, K|]. auto.
Qed.

Lemma same_wires_touches s key cmd w w' :
  same_wires w w' -> touches s key cmd w w'.
Proof.
  intros [S K]. unfold touches. rewrite S.
  split; [exact K|]. split; [auto|apply written_under_refl].
Qed.

(** The statements of one peer in any of the three families: the
    record is sent under the key of the peer's handler thread, and
    the [except] clause writes nothing. *)
Lemma send_to_peer_touches l addr sock thread cb cmd w r w' :
  try_except
    (key <- gets (fun w => aes_key (handlers w thread)) ;;
     send_command sock key cmd)
    (fun e => print (l e) ;; thread_stop thread ;; registry_del addr ;;
              root_after cb) w = (r, w') ->
  touches sock (aes_key (handlers w thread)) cmd w w'.
Proof.
  unfold try_except, gets. unfold bind at 1.
  destruct (send_command sock (aes_key (handlers w thread)) cmd w)
    as [[u|e] w1] eqn:Hsend;
    pose proof (send_command_touches _ _ _ _ _ _ Hsend) as Ht.
  - intros [= <- <-]. exact Ht.
  - intros H. apply drop_peer_wires in H.
    eapply touches_same_wires; eauto.
Qed.

(** A loop over registry entries whose sockets are distinct. *)
Lemma for_each_touches cmd (body : address * (nat * nat) -> M world unit) :
  (forall a s t w r w',
     body (a, (s, t)) w = (r, w') ->
     touches s (aes_key (handlers w t)) cmd w w') ->
  forall entries w r w',
    NoDup (socks entries) ->
    for_each entries body w = (r, w') ->
    (forall t, aes_key (handlers w' t) = aes_key (handlers w t)) /\
    (forall s, ~ In s (socks entries) ->
               outbox (sockets w' s) = outbox (sockets w s)) /\
    (forall a s t, In (a, (s, t)) entries ->
       written_under (aes_key (handlers w t)) cmd
         (outbox (sockets w s)) (outbox (sockets w' s))).
Proof.
  intros Hbody. induction entries as [|[a [s t]] entries IH];
    intros w r w' Hnd H.
  - cbn [for_each] in H. injection H as <- <-.
    split; [auto|]. split; [auto|]. intros a s t [].
  - cbn [for_each] in H. cbn [socks map fst snd] in Hnd.
    inversion Hnd as [|? ? Hnin Hnd']; subst.
    apply bind_inv in H.
    destruct H as [(e & H & _)|(u & w1 & H & Hrest)];
      apply Hbody in H; destruct H as (K1 & O1 & W1).
    + split; [exact K1|]. split.
      * intros s' Hs'. apply O1. cbn [socks map In fst snd] in Hs'.
        intuition congruence.
      * intros a' s' t' [Heq|Hin].
        -- injection Heq as <- <- <-. exact W1.
        -- assert (Hne : s' <> s).
           { intros ->. apply Hnin.
             apply (in_map (fun entry => fst (snd entry)) _ _ Hin). }
           rewrite (O1 s' Hne). apply written_under_refl.
    + destruct (IH w1 r w' Hnd' Hrest) as (K2 & O2 & W2).
      split; [intros t'; now rewrite K2, K1|]. split.
      * intros s' Hs'. cbn [socks map In fst snd] in Hs'.
        rewrite O2 by (unfold socks; tauto).
        apply O1. intuition congruence.
      * intros a' s' t' [Heq|Hin].
        -- injection Heq as <- <- <-. rewrite (O2 s Hnin). exact W1.
        -- assert (Hne : s' <> s).
           { intros ->. apply Hnin.
             apply (in_map (fun entry => fst (snd entry)) _ _ Hin). }
           specialize (W2 a' s' t' Hin).
           rewrite K1, (O1 s' Hne) in W2. exact W2.
Qed.

Lemma NoDup_socks_entry (d : list (address * (nat * nat))) a s t a' t' :
  NoDup (socks d) -> In (a, (s, t)) d -> In (a', (s, t')) d ->
  a = a' /\ t = t'.
Proof.
  induction d as [|[k [s0 t0]] d IH]; cbn [socks map fst snd In];
    intros Hnd H1 H2; [tauto|].
  inversion Hnd as [|? ? Hnin Hnd']; subst.
  assert (Hin : forall x y, In (x, (s0, y)) d -> False).
  { intros x y Hx. apply Hnin.
    apply (in_map (fun entry => fst (snd entry)) _ _ Hx). }
  destruct H1 as [H1|H1], H2 as [H2|H2].
  - split; congruence.
  - injection H1 as _ <- _. exfalso. eapply Hin. exact H2.
  - injection H2 as _ <- _. exfalso. eapply Hin. exact H1.
  - now apply IH.
Qed.

(** What a loop over one entry of the registry means for the others. *)
Lemma one_entry_touches (d : list (address * (nat * nat))) a0 s0 t0 cmd w w' :
  NoDup (socks d) -> In (a0, (s0, t0)) d ->
  touches s0 (aes_key (handlers w t0)) cmd w w' ->
  (forall a s t, In (a, (s, t)) d ->
     written_under (aes_key (handlers w t)) cmd
       (outbox (sockets w s)) (outbox (sockets w' s))) /\
  (forall s, ~ In s (socks d) -> outbox (sockets w' s) = outbox (sockets w s)).
Proof.
  intros Hnd Hin0 (K & O & W). split.
  - intros a s t Hin. destruct (Nat.eq_dec s s0) as [->|Hne].
    + destruct (NoDup_socks_entry d a s0 t a0 t0 Hnd Hin Hin0) as [_ ->].
      exact W.
    + rewrite (O s Hne). apply written_under_refl.
  - intros s Hs. apply O. intros ->. apply Hs.
    apply (in_map (fun entry => fst (snd entry)) _ _ Hin0).
Qed.

Lemma nothing_written (d : list (address * (nat * nat))) cmd w w' :
  same_wires w w' ->
  (forall a s t, In (a, (s, t)) d ->
     written_under (aes_key (handlers w t)) cmd
       (outbox (sockets w s)) (outbox (sockets w' s))) /\
  (forall s, ~ In s (socks d) -> outbox (sockets w' s) = outbox (sockets w s)).
Proof.
  intros [S K]. rewrite S. split; [|auto].
  intros. apply written_under_refl.
Qed.

Lemma CommandConsumer_iteration_head w target cmd rest :
  command_queue w = (target, cmd) :: rest ->
  CommandConsumer_iteration w
  = (if String.eqb cmd "pause" || String.eqb cmd "unpause"
     then dispatch_global target cmd
     else if String.prefix "resize" cmd
     then dispatch_resize target cmd
     else dispatch_targeted target cmd)
      (set_stdout (stdout w ++ [LogCommand cmd]) (set_command_queue rest w)).
Proof.
  intros Hq. unfold CommandConsumer_iteration, command_queue_get.
  unfold bind at 1. rewrite Hq. reflexivity.
Qed.

(** In each of the three families, what a turn of the dispatcher
    writes to the socket of a registry entry is the record of the
    command under the key held by the handler thread of that entry,
    or a part of it when a send fails, and nothing is written to a
    socket that is not in the registry. *)
Lemma dispatcher_uses_entry_key w target cmd rest :
  command_queue w = (target, cmd) :: rest ->
  NoDup (socks (clients_dict w)) ->
  let w' := snd (CommandConsumer_iteration w) in
  (forall a s t, In (a, (s, t)) (clients_dict w) ->
     written_under (aes_key (handlers w t)) cmd
       (outbox (sockets w s)) (outbox (sockets w' s))) /\
  (forall s, ~ In s (socks (clients_dict w)) ->
     outbox (sockets w' s) = outbox (sockets w s)).
Proof.
  intros Hq Hnd w'. subst w'.
  rewrite (CommandConsumer_iteration_head w _ _ rest Hq).
  set (w1 := set_stdout (stdout w ++ [LogCommand cmd])
               (set_command_queue rest w)).
  change (clients_dict w) with (clients_dict w1) in *.
  change (sockets w) with (sockets w1).
  change (handlers w) with (handlers w1).
  clearbody w1. clear Hq w. rename w1 into w.
  destruct (String.eqb cmd "pause" || String.eqb cmd "unpause").
  - (* pause, unpause *)
    unfold dispatch_global.
    match goal with |- context [bind ?m ?k w] =>
      destruct (bind m k w) as [r w'] eqn:H end.
    cbn [snd]. apply bind_inv in H.
    destruct H as [(e & H & _)|(u & w1 & H & Hrest)].
    { destruct (String.eqb cmd "pause"); discriminate. }
    assert (Hw1 : sockets w1 = sockets w /\ handlers w1 = handlers w /\
                  clients_dict w1 = clients_dict w).
    { destruct (String.eqb cmd "pause"); injection H as _ <-; auto. }
    destruct Hw1 as (S1 & H1 & D1).
    unfold gets in Hrest. unfold bind at 1 in Hrest. rewrite D1 in Hrest.
    apply (for_each_touches cmd) in Hrest; [|
      intros a s t x r0 x' Hb;
      destruct (negb (pyaddr_eqb (Addr a) target));
      [ exact (send_to_peer_touches _ _ _ _ _ _ _ _ _ Hb)
      | injection Hb as _ <-; apply same_wires_touches, same_wires_refl ]
      | exact Hnd].
    rewrite S1, H1 in Hrest. destruct Hrest as (_ & O & W). auto.
  - destruct (String.prefix "resize" cmd).
    + (* resize *)
      destruct (dispatch_resize target cmd w) as [r w'] eqn:H.
      cbn [snd]. unfold dispatch_resize, gets in H.
      unfold bind at 1 in H.
      assert (Hbody : forall a s t x r0 x',
        (fun '(addr, (sock, thread)) =>
           try_except
             (key <- gets (fun w => aes_key (handlers w thread)) ;;
              send_command sock key cmd)
             (fun e => print (LogResizeFailed addr e) ;;
                       thread_stop thread ;; registry_del addr ;;
                       root_after (Cleanup DispatcherVar_addr)))
          (a, (s, t)) x = (r0, x') ->
        touches s (aes_key (handlers x t)) cmd x x').
      { intros a s t x r0 x' Hb.
        exact (send_to_peer_touches _ _ _ _ _ _ _ _ _ Hb). }
      destruct target as [| |a0].
      * apply (for_each_touches cmd _ Hbody) in H; [|exact Hnd].
        destruct H as (_ & O & W). auto.
      * cbn [registry_get for_each] in H. injection H as _ <-.
        apply nothing_written, same_wires_refl.
      * cbn [registry_get] in H.
        destruct (dict_get (clients_dict w) a0) as [[s0 t0]|] eqn:Hget.
        -- apply dict_get_Some_In in Hget.
           apply (for_each_touches cmd _ Hbody) in H;
             [|unfold socks; cbn [map fst snd];
               constructor; [intros []|constructor]].
           destruct H as (K & O & W).
           apply (one_entry_touches _ a0 s0 t0); auto.
           split; [exact K|]. split.
           ++ intros s' Hs'. apply O. unfold socks. cbn [map fst snd In].
              intuition congruence.
           ++ apply (W a0 s0 t0). now left.
        -- cbn [for_each] in H. injection H as _ <-.
           apply nothing_written, same_wires_refl.
    + (* the commands for one peer *)
      destruct (dispatch_targeted target cmd w) as [r w'] eqn:H.
      cbn [snd]. unfold dispatch_targeted, gets in H.
      unfold bind at 1 in H.
      destruct target as [| |a0]; cbn [registry_get] in H;
        try (injection H as _ <-; apply nothing_written, same_wires_refl).
      destruct (dict_get (clients_dict w) a0) as [[s0 t0]|] eqn:Hget;
        [|injection H as _ <-; apply nothing_written, same_wires_refl].
      apply dict_get_Some_In in Hget.
      unfold bind at 1 in H.
      apply (one_entry_touches _ a0 s0 t0); auto.
      unfold try_except in H.
      match type of H with
      | match ?body w with _ => _ end = _ =>
          destruct (body w) as [[u|e] w1] eqn:Hb
      end.
      * injection H as _ <-. apply bind_inv in Hb.
        destruct Hb as [(e & _ & He)|(u0 & w2 & Hsend & Hb)];
          [discriminate|].
        apply send_command_touches in Hsend.
        eapply touches_same_wires; [exact Hsend|].
        destruct (String.eqb cmd "kick").
        -- unfold thread_stop, modify, bind, registry_del_slot, registry_del
             in Hb.
           cbn [clients_dict set_handlers] in Hb.
           destruct (dict_get (clients_dict w2) a0); injection Hb as _ <-;
             split; cbn [sockets handlers set_clients_dict set_handlers];
             auto; intros t; unfold upd; destruct (t =? t0) eqn:E; auto;
             apply Nat.eqb_eq in E; subst; reflexivity.
        -- injection Hb as _ <-. apply same_wires_refl.
      * apply bind_inv in Hb.
        destruct Hb as [(e' & Hsend & _)|(u0 & w2 & Hsend & Hb)].
        -- apply send_command_touches in Hsend.
           eapply touches_same_wires; [exact Hsend|].
           cbn [registry_del_slot] in H.
           eapply drop_peer_wires. exact H.
        -- apply send_command_touches in Hsend.
           assert (Hw21 : same_wires w2 w1).
           { destruct (String.eqb cmd "kick").
             - unfold thread_stop, modify, bind, registry_del_slot,
                 registry_del in Hb.
               cbn [clients_dict set_handlers] in Hb.
               destruct (dict_get (clients_dict w2) a0); injection Hb as _ <-;
                 split; cbn [sockets handlers set_clients_dict set_handlers];
                 auto; intros t; unfold upd; destruct (t =? t0) eqn:E; auto;
                 apply Nat.eqb_eq in E; subst; reflexivity.
             - discriminate. }
           eapply touches_same_wires;
             [eapply touches_same_wires; [exact Hsend|exact Hw21]|].
           cbn [registry_del_slot] in H.
           eapply drop_peer_wires. exact H.
Qed.

(** ** No socket in two registry entries *)

(** Every socket of the registry has been allocated, and no socket is
    in two entries: [accept] returns a new socket object each time. *)
Definition registry_fresh (w : world) : Prop :=
  NoDup (socks (clients_dict w)) /\
  forall s, In s (socks (clients_dict w)) -> s < next_object w.

Lemma In_socks (d : list (address * (nat * nat))) a s t :
  In (a, (s, t)) d -> In s (socks d).
Proof.
  intros Hin. unfold socks. apply in_map_iff. now exists (a, (s, t)).
Qed.

Lemma socks_In (d : list (address * (nat * nat))) s :
  In s (socks d) -> exists a t, In (a, (s, t)) d.
Proof.
  unfold socks. rewrite in_map_iff. intros ([a [s' t]] & <- & Hin).
  now exists a, t.
Qed.

Lemma registry_fresh_stable w w' :
  stable w w' -> registry_fresh w -> registry_fresh w'.
Proof.
  intros (_ & N & _ & D & S) [Hnd Hlt]. split; [auto|].
  intros s Hin. apply socks_In in Hin. destruct Hin as (a & t & Hin).
  apply D, In_socks in Hin. specialize (Hlt s Hin). lia.
Qed.

Lemma socks_dict_set (d : list (address * (nat * nat))) k s t :
  NoDup (socks d) -> ~ In s (socks d) ->
  NoDup (socks (dict_set d k (s, t))) /\
  forall s', In s' (socks (dict_set d k (s, t))) -> s' = s \/ In s' (socks d).
Proof.
  induction d as [|[k' [s0 t0]] d IH]; cbn [dict_set].
  - intros _ _. split.
    + unfold socks. cbn [map fst snd]. constructor; [intros []|constructor].
    + unfold socks. cbn [map fst snd In]. intros s' [<-|[]]. auto.
  - change (socks ((k', (s0, t0)) :: d)) with (s0 :: socks d).
    intros Hnd Hnotin. inversion Hnd as [|? ? Hs0 Hnd']; subst.
    cbn [In] in Hnotin.
    destruct (address_eqb k' k).
    + change (socks ((k', (s, t)) :: d)) with (s :: socks d). split.
      * constructor; [tauto|exact Hnd'].
      * cbn [In]. intros s' [<-|Hin]; auto.
    + change (socks ((k', (s0, t0)) :: dict_set d k (s, t)))
        with (s0 :: socks (dict_set d k (s, t))).
      destruct IH as [IHnd IHin]; [exact Hnd'|tauto|]. split.
      * constructor; [|exact IHnd].
        intros Hin. destruct (IHin _ Hin) as [->|Hin']; tauto.
      * cbn [In]. intros s' [<-|Hin]; auto.
        destruct (IHin _ Hin); auto.
Qed.

(** Registration of an accepted peer whose socket is newer than every
    socket of the registry. *)
Lemma register_keeps_fresh sock peer w :
  registry_fresh w -> sock <= next_object w ->
  ~ In sock (socks (clients_dict w)) ->
  registry_fresh
    (snd ((key <- gets server_aes_key ;;
           handler <- new_ClientHandler sock peer key ;;
           modify (fun w =>
             set_clients_dict
               (dict_set (clients_dict w) peer (sock, handler)) w))%monad w)).
Proof.
  intros [Hnd Hlt] Hsock Hnew.
  unfold gets, new_ClientHandler, modify, bind. cbn -[upd].
  destruct (socks_dict_set (clients_dict w) peer sock (next_object w)
              Hnd Hnew) as [Hnd' Hin'].
  split; cbn -[upd]; [exact Hnd'|].
  intros s Hin. destruct (Hin' s Hin) as [->|Hold]; [lia|].
  specialize (Hlt s Hold). lia.
Qed.

Lemma Server_iteration_keeps_fresh w r w' :
  registry_fresh w ->
  Server_iteration w = (r, w') ->
  registry_fresh w'.
Proof.
  intros Hinv H. unfold Server_iteration in H.
  unfold bind at 1 in H.
  destruct (key_exchange w) as [[[[sock peer]|]|e] w1] eqn:E;
    pose proof (Stable_key_exchange _ _ _ E) as Hst1;
    pose proof (registry_fresh_stable _ _ Hst1 Hinv) as Hinv1;
    try (injection H as <- <-; auto).
  destruct (key_exchange_admits w sock peer w1 E)
    as (conn & rest & _ & _ & _ & _ & _ & _ & _ & _ & _ & Hsock & _).
  set (prefix :=
         (print (LogAccepted peer) ;;
          size <- gets (fun w => button_size (app w)) ;;
          command_queue_put
            (Addr peer,
             String.append "resize:"
               (String.append (string_of_nat (fst size))
                  (String.append ":" (string_of_nat (snd size))))) ;;
          paused <- gets pause_event ;;
          (if paused : bool then
             try_except
               (key <- gets server_aes_key ;;
                send_command sock key "pause" ;;
                print LogPauseSent)
               (fun e => print (LogPauseFailed peer e))
           else ret tt))%monad).
  set (register :=
         (key <- gets server_aes_key ;;
          handler <- new_ClientHandler sock peer key ;;
          modify (fun w =>
            set_clients_dict
              (dict_set (clients_dict w) peer (sock, handler)) w))%monad) in *.
  assert (Hsplit : forall w0,
            (print (LogAccepted peer) ;;
             size <- gets (fun w => button_size (app w)) ;;
             command_queue_put
               (Addr peer,
                String.append "resize:"
                  (String.append (string_of_nat (fst size))
                     (String.append ":" (string_of_nat (snd size))))) ;;
             paused <- gets pause_event ;;
             (if paused : bool then
                try_except
                  (key <- gets server_aes_key ;;
                   send_command sock key "pause" ;;
                   print LogPauseSent)
                  (fun e => print (LogPauseFailed peer e))
              else ret tt) ;;
             register)%monad w0
            = (prefix ;; register)%monad w0).
  { intros w0. unfold prefix, print, command_queue_put, modify, gets, bind.
    destruct (pause_event _); [|reflexivity].
    unfold try_except.
    destruct (send_command _ _ _ _) as [[u|e] w2]; reflexivity. }
  rewrite Hsplit in H.
  assert (Hpre : Stable prefix) by (unfold prefix; stable_auto).
  unfold bind at 1 in H.
  destruct (prefix w1) as [[u|e] w2] eqn:E2;
    pose proof (Hpre _ _ _ E2) as Hst2;
    pose proof (registry_fresh_stable _ _ Hst2 Hinv1) as Hinv2.
  - pose proof (stable_trans _ _ _ Hst1 Hst2) as (_ & N & _ & D & _).
    assert (Hreg : registry_fresh (snd (register w2))).
    { apply register_keeps_fresh; [exact Hinv2|lia|].
      intros Hin. apply socks_In in Hin. destruct Hin as (a & t & Hin).
      apply D, In_socks in Hin. destruct Hinv as [_ Hlt].
      specialize (Hlt _ Hin). lia. }
    now rewrite H in Hreg.
  - injection H as <- <-. exact Hinv2.
Qed.

Lemma step_keeps_fresh ev w : registry_fresh w -> registry_fresh (step ev w).
Proof.
  intros Hinv.
  assert (Hst : forall w', stable w w' -> registry_fresh w').
  { intros w' Hs. eapply registry_fresh_stable; eauto. }
  destruct ev; cbn [step].
  - apply (Server_iteration_keeps_fresh w (fst (Server_iteration w)));
      auto. now destruct (Server_iteration w).
  - apply Hst, Stable_snd. auto with stable.
  - apply Hst, Stable_snd. auto with stable.
  - apply Hst, Stable_snd. auto with stable.
  - apply Hst, Stable_snd. auto with stable.
  - apply Hst. unfold stable. cbn. repeat split; auto.
  - apply Hst. unfold stable. cbn. repeat split; auto.
Qed.

Lemma run_keeps_fresh evs :
  forall w, registry_fresh w -> registry_fresh (run evs w).
Proof.
  unfold run. induction evs as [|ev evs IH]; intros w Hinv; cbn [fold_left].
  - exact Hinv.
  - apply IH, step_keeps_fresh, Hinv.
Qed.

(** C7: in every run of the operator, the symmetric key is the one
    drawn by [Server.__init__] (32 bytes of [os.urandom]), it never
    changes, and the handler thread of every registered peer holds
    that same key.  Every handshake that admits a peer reads the
    peer's public key from the accepted connection and sends that
    symmetric key, RSA-encrypted under the key it has read, behind the
    server's public key.  No socket is in two entries of the registry
    of a run.  And whatever a turn of the dispatcher writes
    to the socket of a registry entry, for a [pause] or [unpause], for
    a [resize] or for a command to one peer, is the record of the
    command under the key held by the handler thread of that entry
    (or the part of it that went out before a send failed), whatever
    the server-wide key is; a command to one peer that can be sent is
    sent whole. *)
Theorem one_symmetric_key_per_run
  (gui : App) (wall_clock : nat -> Q) (connections : list accept_outcome)
  (e : entropy) (evs : list event) :
  let w0 := Server_init gui wall_clock connections e in
  let w := run evs w0 in
  (server_aes_key w0 = fst (generate_aes_key (snd (generate_rsa_keys e))) /\
   length (server_aes_key w0) = 32 /\
   server_aes_key w = server_aes_key w0) /\
  (forall a s t, dict_get (clients_dict w) a = Some (s, t) ->
                 aes_key (handlers w t) = server_aes_key w0) /\
  NoDup (socks (clients_dict w)) /\
  (forall w1 sock peer w2,
     key_exchange w1 = (Ok (Some (sock, peer)), w2) ->
     exists conn rest len_field conn1 client_key_bytes conn2 client_key
            n1 n2 encrypted_aes_key,
       backlog w1 = Accepted conn peer :: rest /\
       sock = next_object w1 /\
       recv_all conn 4 = (Ok len_field, conn1) /\
       recv_all conn1 (from_bytes len_field) = (Ok client_key_bytes, conn2) /\
       deserialize_public_key client_key_bytes = Ok client_key /\
       to_bytes (length (serialize_public_key (public_key w1))) 4 = Ok n1 /\
       fst (rsa_encrypt client_key (server_aes_key w1) (urandom w1))
       = Ok encrypted_aes_key /\
       to_bytes (length encrypted_aes_key) 4 = Ok n2 /\
       outbox (sockets w2 sock)
       = outbox conn
         ++ [n1; serialize_public_key (public_key w1); n2;
             encrypted_aes_key] /\
       dict_get (rsa_keys w2) peer = Some client_key) /\
  (forall w1 target cmd rest,
     command_queue w1 = (target, cmd) :: rest ->
     NoDup (socks (clients_dict w1)) ->
     let w2 := snd (CommandConsumer_iteration w1) in
     (forall a s t, In (a, (s, t)) (clients_dict w1) ->
        written_under (aes_key (handlers w1 t)) cmd
          (outbox (sockets w1 s)) (outbox (sockets w2 s))) /\
     (forall s, ~ In s (socks (clients_dict w1)) ->
        outbox (sockets w2 s) = outbox (sockets w1 s))) /\
  (forall w1 target cmd sock thread,
     registry_get w1 target = Some (sock, thread) ->
     let key := aes_key (handlers w1 thread) in
     sendable key cmd (urandom w1) (sockets w1 sock) = true ->
     exists w2,
       dispatch_targeted target cmd w1 = (Ok tt, w2) /\
       exists rec, record_of key cmd (urandom w1) rec /\
         outbox (sockets w2 sock) = outbox (sockets w1 sock) ++ rec).
Proof.
  intros w0 w.
  destruct (Server_init_key gui wall_clock connections e) as (Hk0 & Hlen & Hd0).
  fold w0 in Hk0, Hlen, Hd0.
  assert (Hinv0 : registry_agrees w0).
  { intros a s t Hin. rewrite Hd0 in Hin. destruct Hin. }
  destruct (run_keeps_agreement evs w0 Hinv0) as [Hinv Hk]. fold w in Hinv, Hk.
  assert (Hfresh0 : registry_fresh w0).
  { unfold registry_fresh. rewrite Hd0. split; [constructor|intros s []]. }
  pose proof (run_keeps_fresh evs w0 Hfresh0) as [Hsocks _].
  fold w in Hsocks.
  split; [auto|]. split; [|split; [exact Hsocks|split; [|split]]].
  - intros a s t Hget. apply dict_get_Some_In in Hget.
    destruct (Hinv a s t Hget) as [_ Hkey]. congruence.
  - apply key_exchange_admits.
  - intros w1 target cmd rest Hq Hnd.
    now apply (dispatcher_uses_entry_key w1 target cmd rest).
  - intros w1 target cmd sock thread Hreg key Hsend.
    now apply dispatch_targeted_outcome.
Qed.

End Threads.
End ServerThreadsFacts.

(** * Properties of ClientThreads.py *)
Module ClientThreadsFacts.
Import Encryption FunctionsModule ClientThreads MonadFacts.

Section Threads.
Context {C : BlockCipher} {R : RSA}.
Context (zlib_compress : bytes -> result bytes).
Context (int : string -> result Z).

(** ** The Frame Publisher *)

Lemma max0_nonneg x : (0 <= max0 x)%Q.
Proof.
  unfold max0. destruct (Qle_bool x 0) eqn:E.
  - apply Qle_refl.
  - apply Qlt_le_weak, Qnot_le_lt. intros H.
    apply Qle_bool_iff in H. congruence.
Qed.

Lemma time_sleep_ok d w :
  (0 <= d)%Q -> time_sleep d w = (Ok tt, set_sleeps (sleeps w ++ [d]) w).
Proof.
  intros H. unfold time_sleep. apply Qle_bool_iff in H. now rewrite H.
Qed.

(** What capture, compression and encryption come to in the cycle
    that starts in [w]: one of them returns nothing (the line the
    cycle prints says which), one of them raises, or all three
    deliver. *)
Inductive stages_outcome : Type :=
| StageEmpty (l : log_line)
| StageRaised (e : exn)
| StagesDone (image compressed iv ct : bytes).

Definition stages (w : world) : stages_outcome :=
  match screen w (captures w) with
  | Raise e => StageRaised e
  | Ok [] => StageEmpty LogScreenshotEmpty
  | Ok image =>
      match zlib_compress image with
      | Raise e => StageRaised e
      | Ok [] => StageEmpty LogCompressionFailed
      | Ok compressed =>
          match fst (encrypt_aes (server_aes_key w) (PyBytes compressed)
                       (urandom w)) with
          | Raise e => StageRaised e
          | Ok (_, []) => StageEmpty LogEncryptionFailed
          | Ok (iv, ct) => StagesDone image compressed iv ct
          end
      end
  end.

(** The measured cost of the cycle: the second reading of
    [time.perf_counter()] minus the first. *)
Definition elapsed (w : world) : Q :=
  (clock w (S (clock_reads w)) - clock w (clock_reads w))%Q.

(** The [try] block of a cycle, case by case. *)
Lemma ScreenShare_cycle_cases share w :
  exists r w1,
    ScreenShare_cycle zlib_compress share w = (r, w1) /\
    screen_share w1 = screen_share w /\
    match stages w with
    | StageEmpty l =>
        r = Ok tt /\ sleeps w1 = sleeps w ++ [(1 # 2)%Q] /\
        outbox (client w1) = outbox (client w) /\
        stdout w1 = stdout w ++ [LogTakingScreenshot; l]
    | StageRaised e =>
        r = Raise e /\ sleeps w1 = sleeps w /\
        outbox (client w1) = outbox (client w) /\
        stdout w1 = stdout w ++ [LogTakingScreenshot]
    | StagesDone image compressed iv ct =>
        match to_bytes (length ct) 8 with
        | Raise e =>
            r = Raise e /\ sleeps w1 = sleeps w /\
            outbox (client w1) = outbox (client w) /\
            stdout w1 = stdout w ++ [LogTakingScreenshot]
        | Ok n =>
            if ServerThreadsFacts.accepts 3 (client w) then
              r = Ok tt /\
              sleeps w1 = sleeps w ++ [max0 (1 / FPS - elapsed w)%Q] /\
              outbox (client w1) = outbox (client w) ++ [n; iv; ct] /\
              stdout w1
              = stdout w ++ [LogTakingScreenshot;
                             LogFrameSent (length image) (length compressed)
                               (length ct)]
            else
              (exists e, r = Raise e) /\ sleeps w1 = sleeps w /\
              stdout w1 = stdout w ++ [LogTakingScreenshot]
        end
    end.
Proof.
  unfold ScreenShare_cycle, stages, elapsed, print, perf_counter,
    take_screenshot, modify, bind at 1.
  unfold bind at 1. destruct (share_img_size share) as [width height].
  unfold bind at 1. cbn [screen captures set_clock_reads set_stdout].
  destruct (screen w (captures w)) as [[|b0 image]|e].
  - unfold bind. rewrite time_sleep_ok by discriminate.
    do 2 eexists. split; [reflexivity|]. cbn.
    rewrite <- app_assoc. auto.
  - unfold lift, bind at 1.
    destruct (zlib_compress (b0 :: image)) as [[|c0 compressed]|e].
    + unfold bind. rewrite time_sleep_ok by discriminate.
      do 2 eexists. split; [reflexivity|]. cbn.
      rewrite <- app_assoc. auto.
    + unfold gets, encrypt, bind at 1. unfold bind at 1.
      cbn [server_aes_key urandom set_captures set_clock_reads set_stdout].
      destruct (encrypt_aes (server_aes_key w) (PyBytes (c0 :: compressed))
                  (urandom w)) as [[[iv [|e0 encrypted]]|e] e'];
        cbn [fst].
      * unfold bind. rewrite time_sleep_ok by discriminate.
        do 2 eexists. split; [reflexivity|]. cbn.
        rewrite <- app_assoc. auto.
      * unfold bind at 1.
        destruct (to_bytes (length (e0 :: encrypted)) 8) as [n|e].
        2:{ do 2 eexists. split; [reflexivity|]. cbn. auto. }
        unfold client_send, on_client, sock_send, bind,
          ServerThreadsFacts.accepts.
        cbn [client set_urandom set_captures set_clock_reads set_stdout
             set_client].
        destruct (closed (client w)) eqn:Hcl.
        { do 2 eexists. split; [reflexivity|]. cbn. eauto. }
        destruct (send_plan (client w)) as [|[e1|] [|[e2|] [|[e3|] plan]]];
          cbn; rewrite ?Hcl; cbn; rewrite ?Hcl; cbn;
          try rewrite (time_sleep_ok _ _ (max0_nonneg _));
          do 2 eexists; (split; [reflexivity|]); cbn;
          rewrite <- ?app_assoc; eauto 10.
      * do 2 eexists. split; [reflexivity|]. cbn. auto.
    + do 2 eexists. split; [reflexivity|]. cbn. auto.
  - do 2 eexists. split; [reflexivity|]. cbn. auto.
Qed.

(** One turn of the publisher's loop. *)
Lemma ScreenShare_iteration_cases share w :
  exists w',
    ScreenShare_iteration zlib_compress share w = (Ok tt, w') /\
    screen_share w' = screen_share w /\
    if pause_event w then
      sleeps w' = sleeps w ++ [(1 # 2)%Q] /\
      outbox (client w') = outbox (client w) /\
      captures w' = captures w /\ stdout w' = stdout w
    else
      match stages w with
      | StageEmpty l =>
          sleeps w' = sleeps w ++ [(1 # 2)%Q] /\
          outbox (client w') = outbox (client w) /\
          stdout w' = stdout w ++ [LogTakingScreenshot; l]
      | StageRaised e =>
          sleeps w' = sleeps w ++ [1%Q] /\
          outbox (client w') = outbox (client w) /\
          stdout w' = stdout w ++ [LogTakingScreenshot; LogShareError e]
      | StagesDone image compressed iv ct =>
          match to_bytes (length ct) 8 with
          | Raise e =>
              sleeps w' = sleeps w ++ [1%Q] /\
              outbox (client w') = outbox (client w) /\
              stdout w' = stdout w ++ [LogTakingScreenshot; LogShareError e]
          | Ok n =>
              if ServerThreadsFacts.accepts 3 (client w) then
                sleeps w' = sleeps w ++ [max0 (1 / FPS - elapsed w)%Q] /\
                outbox (client w') = outbox (client w) ++ [n; iv; ct] /\
                stdout w'
                = stdout w ++ [LogTakingScreenshot;
                               LogFrameSent (length image)
                                 (length compressed) (length ct)]
              else
                sleeps w' = sleeps w ++ [1%Q] /\
                exists e,
                  stdout w'
                  = stdout w ++ [LogTakingScreenshot; LogShareError e]
          end
      end.
Proof.
  unfold ScreenShare_iteration, gets, bind at 1.
  destruct (pause_event w) eqn:Hp.
  - rewrite time_sleep_ok by discriminate.
    eexists. split; [reflexivity|]. cbn. auto.
  - destruct (ScreenShare_cycle_cases share w)
      as (r & w1 & Hrun & Hss & Hcases).
    unfold try_except. rewrite Hrun.
    assert (Hraise : forall e, r = Raise e ->
      exists w',
        (let (r0, s') := (r, w1) in
         match r0 with
         | Ok a => (Ok a, s')
         | Raise e0 => (print (LogShareError e0) ;; time_sleep 1)%monad s'
         end) = (Ok tt, w') /\
        screen_share w' = screen_share w1 /\
        sleeps w' = sleeps w1 ++ [1%Q] /\
        outbox (client w') = outbox (client w1) /\
        stdout w' = stdout w1 ++ [LogShareError e]).
    { intros e ->. unfold print, modify, bind.
      rewrite time_sleep_ok by discriminate.
      eexists. split; [reflexivity|]. cbn. auto. }
    destruct (stages w) as [l|e|image compressed iv ct].
    + destruct Hcases as (-> & Hsl & Ho & Hout).
      exists w1. auto.
    + destruct Hcases as (Hr & Hsl & Ho & Hout).
      destruct (Hraise e Hr) as (w' & Hrun' & Hss' & Hsl' & Ho' & Hout').
      exists w'. split; [exact Hrun'|]. split; [congruence|].
      rewrite Hsl', Ho', Hout', Hsl, Ho, Hout, <- app_assoc. auto.
    + destruct (to_bytes (length ct) 8) as [n|e].
      * destruct (ServerThreadsFacts.accepts 3 (client w)).
        -- destruct Hcases as (-> & Hsl & Ho & Hout). exists w1. auto.
        -- destruct Hcases as ((e & Hr) & Hsl & Hout).
           destruct (Hraise e Hr) as (w' & Hrun' & Hss' & Hsl' & Ho' & Hout').
           exists w'. split; [exact Hrun'|]. split; [congruence|].
           split; [congruence|]. exists e.
           rewrite Hout', Hout, <- app_assoc. reflexivity.
      * destruct Hcases as (Hr & Hsl & Ho & Hout).
        destruct (Hraise e Hr) as (w' & Hrun' & Hss' & Hsl' & Ho' & Hout').
        exists w'. split; [exact Hrun'|]. split; [congruence|].
        rewrite Hsl', Ho', Hout', Hsl, Ho, Hout, <- app_assoc. auto.
Qed.

Lemma ScreenShare_run_goes_on turns :
  forall w share,
    screen_share w = Some share -> share_stop_event share = false ->
    exists w', ScreenShare_run zlib_compress turns w = (Ok StillRunning, w') /\
               screen_share w' = screen_share w.
Proof.
  induction turns as [|turns IH]; intros w share Hs Hstop;
    cbn [ScreenShare_run].
  - exists w. auto.
  - unfold gets, bind at 1. rewrite Hs, Hstop. unfold bind at 1.
    destruct (ScreenShare_iteration_cases share w)
      as (w1 & Hrun & Hss & _).
    rewrite Hrun.
    destruct (IH w1 share) as (w' & Hrun' & Hss'); try congruence.
    exists w'. split; [exact Hrun'|congruence].
Qed.

Lemma max0_is_Qmax x : (max0 x == Qmax 0 x)%Q.
Proof.
  unfold max0. destruct (Qle_bool x 0) eqn:E.
  - apply Qle_bool_iff in E. symmetry. now apply Q.max_l.
  - assert (H : (0 <= x)%Q).
    { apply Qlt_le_weak, Qnot_le_lt. intros H.
      apply Qle_bool_iff in H. congruence. }
    symmetry. now apply Q.max_r.
Qed.

(** C8: a turn of the publisher never raises and always ends in one
    sleep.  When capture, compression or encryption returns nothing
    the cycle is skipped, nothing is written, the failure is logged
    and the sleep is 0.5 s; when one of them raises, nothing is
    written, the exception is logged and the sleep is 1 s; when all
    three deliver and the record is sent, the sleep is the cadence
    sleep [max(0, 1/FPS - elapsed)], the target period minus the
    measured cost of the cycle clamped at zero, which is never
    negative.  The loop goes on for as many turns as one looks at
    while the stop event is not set, and is left at the turn that
    finds it set. *)
Theorem publisher_survives_failures (w : world) (share : ScreenShare) :
  (exists w',
     ScreenShare_iteration zlib_compress share w = (Ok tt, w') /\
     screen_share w' = screen_share w /\
     if pause_event w then
       sleeps w' = sleeps w ++ [(1 # 2)%Q] /\
       outbox (client w') = outbox (client w) /\
       captures w' = captures w /\ stdout w' = stdout w
     else
       match stages w with
       | StageEmpty l =>
           sleeps w' = sleeps w ++ [(1 # 2)%Q] /\
           outbox (client w') = outbox (client w) /\
           stdout w' = stdout w ++ [LogTakingScreenshot; l]
       | StageRaised e =>
           sleeps w' = sleeps w ++ [1%Q] /\
           outbox (client w') = outbox (client w) /\
           stdout w' = stdout w ++ [LogTakingScreenshot; LogShareError e]
       | StagesDone image compressed iv ct =>
           match to_bytes (length ct) 8 with
           | Raise e =>
               sleeps w' = sleeps w ++ [1%Q] /\
               outbox (client w') = outbox (client w) /\
               stdout w' = stdout w ++ [LogTakingScreenshot; LogShareError e]
           | Ok n =>
               if ServerThreadsFacts.accepts 3 (client w) then
                 sleeps w' = sleeps w ++ [max0 (1 / FPS - elapsed w)%Q] /\
                 outbox (client w') = outbox (client w) ++ [n; iv; ct] /\
                 stdout w'
                 = stdout w ++ [LogTakingScreenshot;
                                LogFrameSent (length image)
                                  (length compressed) (length ct)]
               else
                 sleeps w' = sleeps w ++ [1%Q] /\
                 exists e,
                   stdout w'
                   = stdout w ++ [LogTakingScreenshot; LogShareError e]
           end
       end) /\
  (forall x, (0 <= max0 x)%Q /\ (max0 x == Qmax 0 x)%Q) /\
  (forall turns,
     screen_share w = Some share -> share_stop_event share = false ->
     exists w', ScreenShare_run zlib_compress turns w = (Ok StillRunning, w')) /\
  (forall turns,
     screen_share w = Some share -> share_stop_event share = true ->
     ScreenShare_run zlib_compress (S turns) w = (Ok Finished, w)).
Proof.
  split; [|split; [|split]].
  - exact (ScreenShare_iteration_cases share w).
  - intros x. split; [apply max0_nonneg|apply max0_is_Qmax].
  - intros turns Hs Hstop.
    destruct (ScreenShare_run_goes_on turns w share Hs Hstop) as (w' & H & _).
    eauto.
  - intros turns Hs Hstop. cbn [ScreenShare_run].
    unfold gets, bind. now rewrite Hs, Hstop.
Qed.

(** ** The command loop *)

Lemma client_recv_all_outcome n w :
  closed (client w) = false ->
  n <= length (pending (inbox (client w))) ->
  exists s',
    client_recv_all n w
    = (Ok (firstn n (pending (inbox (client w)))), set_client s' w) /\
    closed s' = false /\
    pending (inbox s') = skipn n (pending (inbox (client w))) /\
    outbox s' = outbox (client w) /\ send_plan s' = send_plan (client w).
Proof.
  intros Hcl Hav. unfold client_recv_all, on_client, recv_all.
  assert (Hn : n - length (@nil byte) = n) by (simpl; lia).
  destruct (FunctionsModuleFacts.recv_all_loop_ok n (client w) n [] Hn Hcl Hav)
    as (s' & Hrun & Hrest & Hcl' & Hout & Hplan).
  cbn [app] in Hrun. rewrite Hrun. exists s'. auto.
Qed.

(** The listeners of the blocker that are running. *)
Definition running_listeners (b : UserBlocker) : nat :=
  (match keyboard_listener b with Some true => 1 | _ => 0 end)
  + (match mouse_listener b with Some true => 1 | _ => 0 end).

(** A command record on the wire: the four-byte length of the
    ciphertext, the IV and the ciphertext. *)
Definition wire_record (n iv ct : bytes) : Prop :=
  to_bytes (length ct) 4 = Ok n /\ length iv = 16.

Lemma firstn_length_app (a x : bytes) : firstn (length a) (a ++ x) = a.
Proof.
  rewrite firstn_app, Nat.sub_diag, firstn_all. cbn [firstn].
  apply app_nil_r.
Qed.

Lemma skipn_length_app (a x : bytes) : skipn (length a) (a ++ x) = x.
Proof. rewrite skipn_app, Nat.sub_diag, skipn_all. reflexivity. Qed.

Lemma firstn_skipn_app3 (a b c rest : bytes) :
  firstn (length a) (a ++ b ++ c ++ rest) = a /\
  firstn (length b) (skipn (length a) (a ++ b ++ c ++ rest)) = b /\
  firstn (length c)
    (skipn (length b) (skipn (length a) (a ++ b ++ c ++ rest))) = c.
Proof.
  rewrite !skipn_length_app, !firstn_length_app. auto.
Qed.

(** The turn of the loop that reads a record decrypting to [kick]. *)
Lemma Client_iteration_kick w n iv ct rest :
  closed (client w) = false ->
  pending (inbox (client w)) = n ++ iv ++ ct ++ rest ->
  wire_record n iv ct ->
  decrypt_aes (server_aes_key w) iv ct = Ok (encode "kick") ->
  exists s',
    Client_iteration int w
    = (Ok (Some "kicked from session"%string),
       set_stdout (stdout w ++ [LogKickReceived]) (set_client s' w)) /\
    closed s' = false /\ outbox s' = outbox (client w).
Proof.
  intros Hcl Hpend [Hn Hiv] Hdec.
  destruct (LengthFieldFacts.from_bytes_to_bytes _ _ _ Hn) as [Hnlen Hnval].
  destruct (firstn_skipn_app3 n iv ct rest) as (F1 & F2 & F3).
  rewrite Hnlen in F1, F2, F3. rewrite Hiv in F2, F3.
  assert (Hlen : length (pending (inbox (client w)))
                 = 4 + 16 + length ct + length rest).
  { rewrite Hpend, !length_app. lia. }
  destruct (client_recv_all_outcome 4 w Hcl) as (s1 & R1 & C1 & P1 & O1 & _);
    [lia|].
  rewrite Hpend, F1 in R1. rewrite Hpend in P1.
  destruct (client_recv_all_outcome 16 (set_client s1 w))
    as (s2 & R2 & C2 & P2 & O2 & _); cbn [client set_client]; auto.
  { rewrite P1, length_skipn, <- Hpend. lia. }
  cbn [client set_client] in R2, P2, O2. rewrite P1, F2 in R2. rewrite P1 in P2.
  destruct (client_recv_all_outcome (length ct) (set_client s2 (set_client s1 w)))
    as (s3 & R3 & C3 & P3 & O3 & _); cbn [client set_client]; auto.
  { rewrite P2, !length_skipn, <- Hpend. lia. }
  cbn [client set_client] in R3, P3, O3. rewrite P2, F3 in R3.
  exists s3. split; [|split; [exact C3|congruence]].
  unfold Client_iteration, try_except.
  unfold bind at 1. rewrite R1. unfold bind at 1. rewrite R2.
  unfold bind at 1. rewrite Hnval, R3.
  unfold gets, bind at 1. unfold lift, bind at 1.
  cbn [server_aes_key set_client]. rewrite Hdec. unfold bind at 1.
  reflexivity.
Qed.

(** What [stop_blocking] leaves alone. *)
Definition same_session (w w' : world) : Prop :=
  client w' = client w /\ _disconnected w' = _disconnected w /\
  stop_event w' = stop_event w /\ screen_share w' = screen_share w /\
  disconnect_callback w' = disconnect_callback w /\
  disconnect_calls w' = disconnect_calls w.

(** [UserBlocker.stop_blocking]: the running listeners are stopped and
    both are dropped. *)
Lemma stop_blocking_outcome w :
  exists w',
    stop_blocking w = (Ok tt, w') /\
    blocker w' = {| keyboard_listener := None; mouse_listener := None |} /\
    listeners_running w'
    = listeners_running w - running_listeners (blocker w) /\
    same_session w w'.
Proof.
  unfold stop_blocking, stop_listener, running_listeners, same_session.
  unfold gets, bind at 1.
  destruct (blocker w) as [[[|]|] [[|]|]];
    cbn [keyboard_listener mouse_listener];
    unfold modify, ret, bind; eexists; (split; [reflexivity|]);
    cbn; repeat split; lia.
Qed.

(** [Client.stop] on a client that has disconnected already. *)
Lemma Client_stop_disconnected reason w :
  _disconnected w = true -> Client_stop reason w = (Ok tt, w).
Proof.
  intros H. unfold Client_stop, gets, bind. now rewrite H.
Qed.

(** The publisher's stop event after [ScreenShare.stop]. *)
Definition stopped_share (o : option ScreenShare) : option ScreenShare :=
  match o with
  | Some share =>
      Some {| share_stop_event := true;
              share_img_size := share_img_size share |}
  | None => None
  end.

Lemma share_stop_outcome w :
  exists w',
    share_stop w = (Ok tt, w') /\
    screen_share w' = stopped_share (screen_share w) /\
    blocker w' = blocker w /\ listeners_running w' = listeners_running w /\
    client w' = client w /\ _disconnected w' = _disconnected w /\
    stop_event w' = stop_event w /\
    disconnect_callback w' = disconnect_callback w /\
    disconnect_calls w' = disconnect_calls w.
Proof.
  unfold share_stop, modify, stopped_share. eexists. split; [reflexivity|].
  destruct (screen_share w) eqn:E; cbn; rewrite ?E; repeat split.
Qed.

(** [Client.stop] on a client that has not disconnected yet. *)
Lemma Client_stop_outcome reason w :
  _disconnected w = false ->
  exists w',
    Client_stop reason w = (Ok tt, w') /\
    disconnect_calls w'
    = (if disconnect_callback w then disconnect_calls w ++ [reason]
       else disconnect_calls w) /\
    _disconnected w' = true /\ stop_event w' = true /\
    closed (client w') = true /\ outbox (client w') = outbox (client w) /\
    blocker w' = {| keyboard_listener := None; mouse_listener := None |} /\
    listeners_running w'
    = listeners_running w - running_listeners (blocker w) /\
    screen_share w' = stopped_share (screen_share w).
Proof.
  intros Hdis.
  destruct (share_stop_outcome (set_stop_event true (set__disconnected true w)))
    as (w2 & Hshare & S2 & B2 & L2 & C2 & D2 & E2 & K2 & N2).
  cbn [screen_share blocker listeners_running client _disconnected stop_event
       disconnect_callback disconnect_calls set_stop_event set__disconnected]
    in S2, B2, L2, C2, D2, E2, K2, N2.
  destruct (stop_blocking_outcome w2)
    as (w3 & Hblock & B3 & L3 & C3 & D3 & E3 & S3 & K3 & N3).
  unfold Client_stop. unfold gets at 1, bind at 1. rewrite Hdis.
  unfold modify at 1, bind at 1. unfold modify at 1, bind at 1.
  rewrite (bind_ok _ _ _ _ _ Hshare), (bind_ok _ _ _ _ _ Hblock).
  unfold client_close, on_client, bind at 1.
  unfold gets, bind at 1. cbn [disconnect_callback set_client].
  rewrite K3, K2.
  destruct (disconnect_callback w); unfold modify, ret;
    (eexists; split; [reflexivity|]);
    cbn [disconnect_calls _disconnected stop_event client blocker
         listeners_running screen_share set_client set_disconnect_calls
         closed outbox sock_close];
    rewrite ?N3, ?N2, ?D3, ?D2, ?E3, ?E2, ?C3, ?C2, ?L3, ?L2, ?B2, ?S3, ?S2;
    auto 10.
Qed.

(** ** [Client.stop] under concurrent calls *)

(** The thread is inside [with self._lock:]. *)
Definition critical (pc : stop_pc) : bool :=
  match pc with
  | AtAcquire | Returned => false
  | _ => true
  end.

(** The statement that calls the disconnect callback is behind the
    thread. *)
Definition past_callback (pc : stop_pc) : bool :=
  match pc with
  | AtRelease | Returned => true
  | _ => false
  end.

(** What the first thread to enter [stop(reason)] on a client that is
    not disconnected has made of the session when it is at [pc]. *)
Definition reached (reason : string) (pc : stop_pc) (w : world) : world :=
  let w2 := set__disconnected true w in
  let w3 := set_stop_event true w2 in
  let w4 := snd (share_stop w3) in
  let w5 := snd (stop_blocking w4) in
  let w6 := snd (client_close w5) in
  let w7 :=
    if disconnect_callback w6
    then set_disconnect_calls (disconnect_calls w6 ++ [reason]) w6
    else w6 in
  match pc with
  | AtAcquire | AtTest | AtSetDisconnected => w
  | AtSetStopEvent => w2
  | AtShareStop => w3
  | AtStopBlocking => w4
  | AtClose => w5
  | AtCallback => w6
  | AtRelease | Returned => w7
  end.

Lemma stop_blocking_snd w : stop_blocking w = (Ok tt, snd (stop_blocking w)).
Proof.
  destruct (stop_blocking_outcome w) as (w' & H & _). now rewrite H.
Qed.

(** A thread that runs the body alone performs [Client_stop]. *)
Lemma reached_release reason w :
  _disconnected w = false ->
  Client_stop reason w = (Ok tt, reached reason AtRelease w).
Proof.
  intros Hdis. unfold Client_stop. unfold gets at 1, bind at 1.
  rewrite Hdis. unfold modify at 1, bind at 1. unfold modify at 1, bind at 1.
  assert (Hshare : forall x, share_stop x = (Ok tt, snd (share_stop x)))
    by reflexivity.
  rewrite (bind_ok _ _ _ _ _ (Hshare _)).
  rewrite (bind_ok _ _ _ _ _ (stop_blocking_snd _)).
  assert (Hclose : forall x, client_close x = (Ok tt, snd (client_close x)))
    by reflexivity.
  rewrite (bind_ok _ _ _ _ _ (Hclose _)).
  unfold gets, bind. unfold reached.
  match goal with |- context [disconnect_callback ?x] =>
    destruct (disconnect_callback x) end; reflexivity.
Qed.

Lemma reached_disconnected reason w :
  _disconnected w = false ->
  _disconnected (reached reason AtRelease w) = true.
Proof.
  intros Hdis.
  destruct (Client_stop_outcome reason w Hdis) as (w' & Hrun & _ & Hd & _).
  rewrite (reached_release reason w Hdis) in Hrun. congruence.
Qed.

(** The callback has been called once the first thread to enter is
    past the statement that calls it, and not before. *)
Lemma reached_calls reason pc w :
  disconnect_calls (reached reason pc w)
  = if disconnect_callback w && past_callback pc
    then disconnect_calls w ++ [reason]
    else disconnect_calls w.
Proof.
  destruct (share_stop_outcome (set_stop_event true (set__disconnected true w)))
    as (w4 & Hshare & _ & _ & _ & _ & _ & _ & K4 & N4).
  destruct (stop_blocking_outcome w4)
    as (w5 & Hblock & _ & _ & _ & _ & _ & _ & K5 & N5).
  cbn [disconnect_callback disconnect_calls set_stop_event set__disconnected]
    in K4, N4.
  assert (H4 : snd (share_stop (set_stop_event true (set__disconnected true w)))
               = w4) by now rewrite Hshare.
  assert (H5 : snd (stop_blocking w4) = w5) by now rewrite Hblock.
  unfold reached. rewrite H4, H5.
  unfold client_close, on_client.
  cbn [snd disconnect_callback disconnect_calls set_client].
  rewrite K5, K4.
  destruct pc; cbn [past_callback]; rewrite ?andb_false_r, ?andb_true_r;
    cbn [disconnect_calls set_stop_event set__disconnected set_client];
    try congruence;
    destruct (disconnect_callback w);
    cbn [disconnect_calls set_disconnect_calls set_client]; congruence.
Qed.

Section Interleaving.
Variable reasons : nat -> string.
Variable w : world.
Hypothesis Hdis : _disconnected w = false.

(** What a thread other than the first to enter may be doing while
    [l] holds the lock: the holder tests the flag or releases, the
    others wait or have returned. *)
Definition waiting (l : option nat) (t : nat) (pc : stop_pc) : Prop :=
  match l with
  | Some g =>
      if t =? g then pc = AtTest \/ pc = AtRelease
      else pc = AtAcquire \/ pc = Returned
  | None => pc = AtAcquire \/ pc = Returned
  end.

(** Thread [f] was the first to enter: it is inside and every other
    thread waits, or it has returned, the teardown is complete, and
    the threads that enter after it find the client disconnected. *)
Definition entered (f : nat) (st : (nat -> stop_pc) * locked_client) : Prop :=
  (_lock (snd st) = Some f /\ critical (fst st f) = true /\
   (forall t, t <> f -> fst st t = AtAcquire) /\
   session (snd st) = reached (reasons f) (fst st f) w)
  \/
  (fst st f = Returned /\
   (forall t, waiting (_lock (snd st)) t (fst st t)) /\
   session (snd st) = reached (reasons f) AtRelease w).

Lemma first_enters f : entered f (schedule_thread reasons f (stop_called w)).
Proof.
  left. unfold schedule_thread, stop_called, stop_step.
  cbn [fst snd _lock session]. rewrite Nat.eqb_refl.
  repeat split. intros t Ht. apply Nat.eqb_neq in Ht. now rewrite Ht.
Qed.

Lemma entered_step f me st :
  entered f st -> entered f (schedule_thread reasons me st).
Proof.
  destruct st as [pcs [l s]]. unfold entered, schedule_thread.
  cbn [fst snd _lock session].
  intros [(Hl & Hcrit & Hothers & Hs)|(Hf & Hwait & Hs)].
  - subst l. destruct (Nat.eq_dec me f) as [->|Hne].
    + destruct (pcs f) eqn:Hpc; try discriminate; unfold stop_step;
        cbn [_lock session fst snd];
        try (left; rewrite Nat.eqb_refl; split; [reflexivity|];
             split; [reflexivity|]; split;
             [intros t Ht; pose proof Ht as Ht';
              apply Nat.eqb_neq in Ht'; rewrite Ht'; now apply Hothers
             |rewrite Hs; reflexivity]).
      * (* AtTest *)
        rewrite Hs. cbn [reached]. rewrite Hdis.
        left. cbn [fst snd _lock session]. rewrite Nat.eqb_refl.
        split; [reflexivity|]. split; [reflexivity|]. split;
          [intros t Ht; pose proof Ht as Ht';
           apply Nat.eqb_neq in Ht'; rewrite Ht'; now apply Hothers
          |reflexivity].
      * (* AtRelease *)
        right. cbn [fst snd _lock session]. rewrite Nat.eqb_refl.
        split; [reflexivity|]. split; [|exact Hs].
        intros t. unfold waiting. destruct (t =? f) eqn:E; [now right|].
        apply Nat.eqb_neq in E. left. now apply Hothers.
    + rewrite (Hothers me Hne). unfold stop_step. cbn [_lock].
      left. cbn [fst snd _lock session]. auto.
  - pose proof (Hwait me) as Hme. unfold waiting in Hme.
    destruct l as [g|].
    + destruct (me =? g) eqn:E.
      * apply Nat.eqb_eq in E. subst g.
        assert (Hfg : f <> me).
        { intros ->. rewrite Hf in Hme. destruct Hme; discriminate. }
        destruct Hme as [Hme|Hme]; rewrite Hme; unfold stop_step;
          cbn [_lock session fst snd]; right; cbn [fst snd _lock session].
        -- rewrite Hs, (reached_disconnected _ _ Hdis).
           cbn [fst snd _lock session].
           apply Nat.eqb_neq in Hfg. rewrite Hfg.
           split; [exact Hf|]. split; [|reflexivity].
           intros t. specialize (Hwait t). unfold waiting in *.
           destruct (t =? me) eqn:Et; [now right|exact Hwait].
        -- apply Nat.eqb_neq in Hfg. rewrite Hfg.
           split; [exact Hf|]. split; [|exact Hs].
           intros t. specialize (Hwait t). unfold waiting in *.
           destruct (t =? me) eqn:Et; [now right|exact Hwait].
      * destruct Hme as [Hme|Hme]; rewrite Hme; unfold stop_step;
          cbn [_lock]; right; cbn [fst snd _lock session]; auto.
    + destruct Hme as [Hme|Hme]; rewrite Hme; unfold stop_step;
        cbn [_lock session]; right; cbn [fst snd _lock session].
      * assert (Hfm : f <> me) by (intros ->; congruence).
        apply Nat.eqb_neq in Hfm. rewrite Hfm.
        split; [exact Hf|]. split; [|exact Hs].
        intros t. specialize (Hwait t). unfold waiting in *.
        destruct (t =? me) eqn:Et; [now left|exact Hwait].
      * auto.
Qed.

Lemma interleave_entered f schedule : forall st,
  entered f st -> entered f (interleave reasons schedule st).
Proof.
  induction schedule as [|me schedule IH]; intros st H; [exact H|].
  cbn [interleave fold_left]. apply IH. now apply entered_step.
Qed.

(** Under every schedule, the thread scheduled first is the first to
    enter. *)
Lemma interleave_first schedule :
  schedule = [] \/
  entered (hd 0 schedule) (interleave reasons schedule (stop_called w)).
Proof.
  destruct schedule as [|f schedule]; [now left|right].
  cbn [hd interleave fold_left]. apply interleave_entered, first_enters.
Qed.

Lemma entered_calls f st :
  entered f st ->
  disconnect_calls (session (snd st))
  = if disconnect_callback w && past_callback (fst st f)
    then disconnect_calls w ++ [reasons f]
    else disconnect_calls w.
Proof.
  intros [(_ & _ & _ & Hs)|(Hf & _ & Hs)]; rewrite Hs.
  - apply reached_calls.
  - rewrite Hf. apply (reached_calls (reasons f) AtRelease).
Qed.

Lemma entered_returned f st t :
  entered f st -> fst st t = Returned ->
  session (snd st) = reached (reasons f) AtRelease w.
Proof.
  intros [(_ & Hcrit & Hothers & _)|(_ & _ & Hs)] Ht; [|exact Hs].
  destruct (Nat.eq_dec t f) as [->|Hne].
  - rewrite Ht in Hcrit. discriminate.
  - rewrite (Hothers t Hne) in Ht. discriminate.
Qed.

End Interleaving.

(** The reasons of the calls that race: thread 0 is the command loop,
    in the [finally] of [run]; the threads from 1 on call [stop] with
    reasons of their own. *)
Definition racing (reason : string) (others : nat -> string) (t : nat)
  : string :=
  match t with
  | 0 => reason
  | S t' => others t'
  end.

(** The amended C6: a decrypted command equal to [kick] ends the
    command loop with the stop reason ["kicked from session"], and the
    teardown that follows sets the publisher's stop event, stops and
    drops the input listeners, closes the socket and calls the
    disconnect callback once, with that reason.  When other threads
    call [stop] at the same time, under every interleaving of the
    statements of the calls that the lock allows the callback is
    called at most once, by the call that enters [with self._lock]
    first and with the reason of that call; once the call of the
    command loop has returned the teardown is complete and the
    callback has been called exactly once; when the call of the
    command loop is the one that enters first the reason is
    ["kicked from session"]. *)
Theorem kick_tears_down_once (turns : nat) (w : world)
  (n iv ct rest : bytes) :
  stop_event w = false ->
  _disconnected w = false ->
  closed (client w) = false ->
  pending (inbox (client w)) = n ++ iv ++ ct ++ rest ->
  wire_record n iv ct ->
  decrypt_aes (server_aes_key w) iv ct = Ok (encode "kick") ->
  exists w1 w',
    Client_loop int (S turns) w
    = (Ok (Some "kicked from session"%string), w1) /\
    Client_serve int (S turns) w = (Ok Finished, w') /\
    disconnect_calls w'
    = (if disconnect_callback w
       then disconnect_calls w ++ ["kicked from session"%string]
       else disconnect_calls w) /\
    _disconnected w' = true /\ stop_event w' = true /\
    closed (client w') = true /\ outbox (client w') = outbox (client w) /\
    blocker w' = {| keyboard_listener := None; mouse_listener := None |} /\
    listeners_running w'
    = listeners_running w - running_listeners (blocker w) /\
    (forall share, screen_share w = Some share ->
       screen_share w'
       = Some {| share_stop_event := true;
                 share_img_size := share_img_size share |}) /\
    (forall reason, Client_stop reason w' = (Ok tt, w')) /\
    forall (others : nat -> string) (schedule : list nat),
      let reasons := racing "kicked from session" others in
      let st := interleave reasons schedule (stop_called w1) in
      let first := hd 0 schedule in
      disconnect_calls (session (snd st))
      = (if disconnect_callback w && past_callback (fst st first)
         then disconnect_calls w ++ [reasons first]
         else disconnect_calls w) /\
      (fst st 0 = Returned ->
       disconnect_calls (session (snd st))
       = (if disconnect_callback w
          then disconnect_calls w ++ [reasons first]
          else disconnect_calls w) /\
       _disconnected (session (snd st)) = true /\
       stop_event (session (snd st)) = true /\
       closed (client (session (snd st))) = true /\
       blocker (session (snd st))
       = {| keyboard_listener := None; mouse_listener := None |} /\
       screen_share (session (snd st)) = stopped_share (screen_share w)) /\
      (first = 0 -> fst st 0 = Returned -> session (snd st) = w').
Proof.
  intros Hstop Hdis Hcl Hpend Hrec Hdec.
  destruct (Client_iteration_kick w n iv ct rest Hcl Hpend Hrec Hdec)
    as (s' & Hit & Hcl' & Hout).
  set (w1 := set_stdout (stdout w ++ [LogKickReceived]) (set_client s' w))
    in *.
  assert (Hdis1 : _disconnected w1 = false) by exact Hdis.
  assert (Hloop : Client_loop int (S turns) w
                  = (Ok (Some "kicked from session"%string), w1)).
  { cbn [Client_loop]. unfold gets at 1, bind at 1. rewrite Hstop.
    now rewrite (bind_ok _ _ _ _ _ Hit). }
  destruct (Client_stop_outcome "kicked from session" w1 Hdis1)
    as (w' & Hrun & Hcalls & Hd & He & Hc & Ho & Hb & Hl & Hs).
  change (disconnect_callback w1) with (disconnect_callback w) in Hcalls.
  change (disconnect_calls w1) with (disconnect_calls w) in Hcalls.
  change (client w1) with s' in Ho.
  change (blocker w1) with (blocker w) in Hl.
  change (listeners_running w1) with (listeners_running w) in Hl.
  change (screen_share w1) with (screen_share w) in Hs.
  exists w1, w'. split; [exact Hloop|]. split.
  { unfold Client_serve. rewrite Hloop.
    now rewrite (bind_ok _ _ _ _ _ Hrun). }
  split; [exact Hcalls|]. split; [exact Hd|]. split; [exact He|].
  split; [exact Hc|]. split; [congruence|]. split; [exact Hb|].
  split; [exact Hl|]. split.
  { intros share Hshare. now rewrite Hs, Hshare. }
  split.
  { intros reason. now apply Client_stop_disconnected. }
  intros others schedule reasons st first.
  destruct (interleave_first reasons w1 Hdis1 schedule) as [->|Hent].
  - subst st first. cbn [interleave fold_left stop_called fst snd session hd].
    cbn [past_callback]. rewrite andb_false_r.
    split; [reflexivity|]. split; discriminate.
  - fold first in Hent. fold st in Hent.
    pose proof (entered_calls reasons w1 first st Hent) as Hcount.
    change (disconnect_callback w1) with (disconnect_callback w) in Hcount.
    change (disconnect_calls w1) with (disconnect_calls w) in Hcount.
    split; [exact Hcount|].
    assert (Hfin : fst st 0 = Returned ->
                   Client_stop (reasons first) w1
                   = (Ok tt, session (snd st))).
    { intros H0.
      rewrite (entered_returned reasons w1 first st 0 Hent H0).
      now apply reached_release. }
    split.
    + intros H0. specialize (Hfin H0).
      destruct (Client_stop_outcome (reasons first) w1 Hdis1)
        as (w2 & Hrun2 & Hcalls2 & Hd2 & He2 & Hc2 & _ & Hb2 & _ & Hs2).
      assert (w2 = session (snd st)) by congruence. subst w2.
      split; [exact Hcalls2|]. auto.
    + intros Hfirst H0. specialize (Hfin H0).
      rewrite Hfirst in Hfin. cbn [reasons racing] in Hfin. congruence.
Qed.

End Threads.
End ClientThreadsFacts.
(** * The definitions at work on concrete inputs

    The block transformation and RSA are interfaces of the
    development; here they are instantiated by stand-ins so that the
    definitions run, and every theorem above is applied to a session
    that can be computed. *)
Module Samples.
Import Encryption FunctionsModule.

Lemma byte_xor_cancel_map k blk :
  map (fun b => byte_xor b k) (map (fun b => byte_xor b k) blk) = blk.
Proof.
  induction blk as [|b blk IH]; simpl; auto.
  now rewrite EncryptionFacts.byte_xor_cancel, IH.
Defined.

Lemma xor_cipher_laws : BlockCipherLaws xor_cipher.
Proof.
  split; cbn [aes_encrypt_block aes_decrypt_block xor_cipher]; intros.
  - unfold xor_block. now rewrite length_map.
  - apply byte_xor_cancel_map.
Defined.

(** A stand-in for RSA: a key is a byte string, and a ciphertext is
    the plaintext behind the key it was encrypted for. *)
Definition stub_rsa : RSA :=
  {| RSAPrivateKey := bytes;
     RSAPublicKey := bytes;
     generate_rsa_keys := fun e => let '(k, e') := os_urandom 8 e in ((k, k), e');
     rsa_encrypt := fun pub text e => (Ok (pub ++ text), e);
     rsa_decrypt := fun priv ct => Ok (skipn (length priv) ct);
     serialize_public_key := fun pub => pub;
     deserialize_public_key := fun b => Ok b |}.

(** A stand-in for [zlib]: the data as it is. *)
Definition stored (b : bytes) : result bytes := Ok b.

(** Python's [int] on a string of ASCII characters: white space
    around the number is dropped, a sign may come first, and what is
    left is one or more decimal digits, with single underscores
    allowed between digits; anything else, the empty string included,
    raises [ValueError].  (The digits and spaces of other scripts,
    which [int] takes too, and the limit of recent interpreters on
    the number of digits are left out.) *)
Definition is_space (c : ascii) : bool :=
  let n := nat_of_ascii c in
  ((9 <=? n) && (n <=? 13)) || ((28 <=? n) && (n <=? 32)).

Fixpoint lstrip (s : string) : string :=
  match s with
  | String c s' => if is_space c then lstrip s' else s
  | EmptyString => EmptyString
  end.

Fixpoint rstrip (s : string) : string :=
  match s with
  | EmptyString => EmptyString
  | String c s' =>
      match rstrip s' with
      | EmptyString => if is_space c then EmptyString else String c EmptyString
      | t => String c t
      end
  end.

Definition digit_value (c : ascii) : option Z :=
  let n := nat_of_ascii c in
  if (48 <=? n) && (n <=? 57) then Some (Z.of_nat (n - 48)) else None.

(** The digits after the sign; [after_digit] tells whether the
    character before was a digit, as an underscore and the end of the
    string require. *)
Fixpoint digits (acc : Z) (after_digit : bool) (s : string) : option Z :=
  match s with
  | EmptyString => if after_digit then Some acc else None
  | String c s' =>
      if Ascii.eqb c "_"
      then (if after_digit then digits acc false s' else None)
      else match digit_value c with
           | Some d => digits (10 * acc + d) true s'
           | None => None
           end
  end.

Definition decimal (s : string) : result Z :=
  let signed :=
    match lstrip (rstrip s) with
    | String "-" s' => option_map Z.opp (digits 0 false s')
    | String "+" s' => digits 0 false s'
    | s' => digits 0 false s'
    end in
  match signed with
  | Some z => Ok z
  | None => Raise ValueError
  end.

Example decimal_values :
  decimal EmptyString = Raise ValueError /\ decimal "-3" = Ok (-3)%Z /\
  decimal "+12" = Ok 12%Z /\ decimal " 1_920 " = Ok 1920%Z /\
  decimal "007" = Ok 7%Z /\ decimal "1__0" = Raise ValueError /\
  decimal "_1" = Raise ValueError /\ decimal "1_" = Raise ValueError /\
  decimal "-" = Raise ValueError /\ decimal "- 3" = Raise ValueError /\
  decimal "12a" = Raise ValueError /\ decimal "1.5" = Raise ValueError.
Proof. repeat split; reflexivity. Qed.

Definition sample_key : bytes := repeat x2a 32.

Definition sample_entropy : entropy :=
  {| pool := fun i => byte_of_nat (7 * i + 3); pool_pos := 5 |}.

Lemma decrypt_aes_encrypt_aes_witness :
  length sample_key = 32 /\
  exists iv ct,
    fst (encrypt_aes (C := xor_cipher) sample_key (PyStr "pause") sample_entropy)
    = Ok (iv, ct) /\
    decrypt_aes (C := xor_cipher) sample_key iv ct = Ok (encode "pause").
Proof.
  split; [reflexivity|].
  apply (EncryptionFacts.decrypt_aes_encrypt_aes (L := xor_cipher_laws)
           sample_key (PyStr "pause") sample_entropy).
  reflexivity.
Defined.

Lemma encrypt_aes_lengths_witness :
  exists iv ct,
    fst (encrypt_aes (C := xor_cipher) sample_key (PyBytes []) sample_entropy)
    = Ok (iv, ct) /\ length iv = 16 /\ length ct = 16.
Proof.
  destruct (EncryptionFacts.encrypt_aes_lengths (L := xor_cipher_laws)
              sample_key (PyBytes []) sample_entropy) as [Hret Hlen].
  destruct (Hret eq_refl) as (iv & ct & H).
  exists iv, ct. split; [exact H|].
  destruct (Hlen iv ct H) as (Hiv & Hct & _). split; assumption.
Defined.

(** A stream that delivers five bytes in three arrivals, one of them
    empty, and is then closed by the peer. *)
Definition five_bytes : socket :=
  {| inbox := [Data [x01; x02]; Data []; Data [x03; x04; x05]];
     outbox := []; send_plan := []; closed := false |}.

Lemma recv_all_exact_witness :
  (exists sock', recv_all five_bytes 5
                 = (Ok [x01; x02; x03; x04; x05], sock')) /\
  (exists sock', recv_all five_bytes 6 = (Raise ConnectionError, sock')).
Proof.
  split.
  - destruct (FunctionsModuleFacts.recv_all_exact five_bytes 5)
      as (_ & Hok & _).
    destruct Hok as (sock' & H & _); [reflexivity|simpl; lia|].
    exists sock'. exact H.
  - destruct (FunctionsModuleFacts.recv_all_exact five_bytes 6)
      as (_ & _ & Hlost).
    apply Hlost; [reflexivity|reflexivity|simpl; lia].
Defined.

(** ** An operator with three peers *)
Import ServerThreads ServerThreadsFacts.

Definition peer_A : address := ("10.0.0.1"%string, 4001).
Definition peer_B : address := ("10.0.0.2"%string, 4002).
Definition peer_C : address := ("10.0.0.3"%string, 4003).

Definition length_field (n : nat) : bytes :=
  match to_bytes n 4 with
  | Ok b => b
  | Raise _ => []
  end.

(** A connection whose peer has sent its handshake record, a public
    key of three bytes, and whose sends will go as [plan] says. *)
Definition connection (k : byte) (plan : list (option exn)) : socket :=
  {| inbox := [Data (length_field 3); Data [k; k; k]];
     outbox := []; send_plan := plan; closed := false |}.

Definition gui : App :=
  {| shutdown_event := false;
     mainloop_running := true;
     fullscreen_widget := false;
     fullscreen_address := AddrEmpty;
     button_size := (320, 180);
     kicked_addresses := [];
     after_queue := [];
     update_screen_calls := [] |}.

Definition wall_clock (n : nat) : Q := Z.of_nat n # 10.

(** The connection of [peer_B] takes the four records of the
    handshake and the three of the first [resize], and is then
    reset. *)
Definition started : world (R := stub_rsa) :=
  Server_init gui wall_clock
    [Accepted (connection x41 []) peer_A;
     Accepted (connection x42 (repeat None 7 ++ [Some ConnectionResetError]))
       peer_B;
     Accepted (connection x43 []) peer_C]
    sample_entropy.

Definition three_peers : world (R := stub_rsa) :=
  run (C := xor_cipher) stored
    [ServerTurn; ServerTurn; ServerTurn;
     CommandTurn; CommandTurn; CommandTurn;
     GuiCommand (Addr peer_A, "pause"%string)]
    started.

Example three_peers_registry :
  clients_dict three_peers
  = [(peer_A, (0, 1)); (peer_B, (2, 3)); (peer_C, (4, 5))].
Proof. vm_compute. reflexivity. Qed.

Lemma global_command_broadcast_witness :
  exists w',
    CommandConsumer_iteration (C := xor_cipher) three_peers = (Ok tt, w') /\
    pause_event w' = true /\
    sockets w' 0 = sockets three_peers 0 /\
    (stop_event (handlers w' 3) = true /\
     dict_get (clients_dict w') peer_B = None) /\
    (exists rec,
       command_record (L := xor_cipher_laws)
         (aes_key (handlers three_peers 5)) "pause" rec /\
       outbox (sockets w' 4) = outbox (sockets three_peers 4) ++ rec) /\
    dict_get (clients_dict w') peer_C = Some (4, 5).
Proof.
  destruct (global_command_broadcast (L := xor_cipher_laws)
              three_peers (Addr peer_A) "pause" [])
    as (w' & Hrun & Hp & Hpeers & _).
  - vm_compute. reflexivity.
  - left. reflexivity.
  - vm_compute. repeat constructor; simpl; intuition discriminate.
  - vm_compute. repeat constructor; simpl; intuition discriminate.
  - vm_compute. repeat constructor; simpl; intuition discriminate.
  - vm_compute. reflexivity.
  - exists w'. split; [exact Hrun|]. split; [exact Hp|].
    destruct (Hpeers peer_A 0 1) as (HA & _); [vm_compute; reflexivity|].
    destruct (Hpeers peer_B 2 3) as (_ & _ & HB); [vm_compute; reflexivity|].
    destruct (Hpeers peer_C 4 5) as (_ & HC & _); [vm_compute; reflexivity|].
    split; [apply HA; reflexivity|].
    split; [apply HB; [discriminate|vm_compute; reflexivity]|].
    destruct HC as (Hrec & _ & Hreg);
      [discriminate|vm_compute; reflexivity|vm_compute; reflexivity|].
    split; [exact Hrec|exact Hreg].
Defined.

(** The same operator once the Tk main loop has ended: [root.after]
    raises [RuntimeError] now. *)
Definition main_loop_ended : world (R := stub_rsa) :=
  set_app
    {| shutdown_event := shutdown_event (app three_peers);
       mainloop_running := false;
       fullscreen_widget := fullscreen_widget (app three_peers);
       fullscreen_address := fullscreen_address (app three_peers);
       button_size := button_size (app three_peers);
       kicked_addresses := kicked_addresses (app three_peers);
       after_queue := after_queue (app three_peers);
       update_screen_calls := update_screen_calls (app three_peers) |}
    three_peers.

(** C3 on the code, where the main loop has ended: the [pause] of
    [peer_A] is taken from the queue, the send to [peer_B] fails and
    [peer_B] is stopped and dropped from the registry, but the
    [root.after] of the [except] clause is not guarded (the one of
    [ClientHandler.run] is) and raises [RuntimeError]; the exception
    leaves the [for] loop and the turn, and [peer_C], which is
    registered, whose socket takes a record and which comes after
    [peer_B] in the registry, is sent nothing. *)
Lemma broadcast_aborted_without_main_loop :
  command_queue main_loop_ended = [(Addr peer_A, "pause"%string)] /\
  clients_dict main_loop_ended
  = [(peer_A, (0, 1)); (peer_B, (2, 3)); (peer_C, (4, 5))] /\
  accepts 3 (sockets main_loop_ended 2) = false /\
  accepts 3 (sockets main_loop_ended 4) = true /\
  let w' := snd (CommandConsumer_iteration (C := xor_cipher) main_loop_ended) in
  fst (CommandConsumer_iteration (C := xor_cipher) main_loop_ended)
  = Raise RuntimeError /\
  pause_event w' = true /\
  clients_dict w' = [(peer_A, (0, 1)); (peer_C, (4, 5))] /\
  stop_event (handlers w' 3) = true /\
  after_queue (app w') = after_queue (app main_loop_ended) /\
  outbox (sockets w' 4) = outbox (sockets main_loop_ended 4).
Proof. vm_compute. repeat split; reflexivity. Qed.

(** A frame of [peer_A] captured at 10.0 s and polled at 10.4 s. *)
Definition frame_polled : world (R := stub_rsa) :=
  set_clock_reads 104
    (set_frame_queue [(peer_A, [x4a; x46], 10 # 1)] three_peers).

Lemma FrameConsumer_delivers_fresh_frames_witness :
  delivered frame_polled
    (snd (FrameConsumer_iteration frame_polled)) peer_A [x4a; x46].
Proof.
  destruct (FrameConsumer_delivers_fresh_frames stored
              frame_polled peer_A [x4a; x46] (10 # 1) [] eq_refl)
    as (_ & _ & Hiff & _).
  apply Hiff. split.
  - vm_compute. discriminate.
  - left. reflexivity.
Defined.

(** A [block] for a peer that is not registered. *)
Definition stranger : address := ("10.0.0.9"%string, 4009).

Definition block_for_stranger : world (R := stub_rsa) :=
  set_command_queue [(Addr stranger, "block"%string)] three_peers.

Lemma absent_target_is_ignored_witness :
  CommandConsumer_iteration (C := xor_cipher) block_for_stranger
  = (Ok tt,
     set_stdout (stdout block_for_stranger ++ [LogCommand "block"])
       (set_command_queue [] block_for_stranger)).
Proof.
  destruct (absent_target_is_ignored (C := xor_cipher)
              block_for_stranger (Addr stranger) "block" [])
    as (H & _); [vm_compute; reflexivity ..|exact H].
Defined.

(** The socket of [peer_A] delivers a frame record whose length field
    is zero. *)
Definition zero_length_frame : world (R := stub_rsa) :=
  set_sockets
    (upd (sockets three_peers) 0
       {| inbox := [Data (repeat x00 5); Data (repeat x00 3)];
          outbox := []; send_plan := []; closed := false |})
    three_peers.

Lemma zero_length_frame_ends_ingestor_witness :
  exists w',
    ClientHandler_run (C := xor_cipher) stored 1 1 zero_length_frame
    = (Ok Finished, w') /\
    closed (sockets w' 0) = true /\
    frame_queue w' = [] /\
    after_queue (app w') = [Cleanup (HandlerAddress peer_A)].
Proof.
  destruct (zero_length_frame_ends_ingestor (C := xor_cipher) stored
              0 1 zero_length_frame)
    as (w' & Hrun & Hcl & Hfq & _ & _ & Hsched & _).
  - vm_compute. reflexivity.
  - vm_compute. reflexivity.
  - vm_compute. lia.
  - vm_compute. reflexivity.
  - exists w'. split; [exact Hrun|]. split; [exact Hcl|].
    split; [exact Hfq|].
    destruct Hsched as [Hq _]; [reflexivity|reflexivity|]. exact Hq.
Defined.

(** The run of [three_peers]: the key of every handler is the key of
    [started]; the handshake of [peer_A] reads the public key
    [x41 x41 x41] that [peer_A] has sent and answers with the
    symmetric key encrypted under it; and the turn of the dispatcher
    that takes the [pause] of [peer_A] writes to the socket of
    [peer_C] under the key of the handler of [peer_C], and nothing to
    a socket that is not in the registry. *)
Lemma one_symmetric_key_per_run_witness :
  length (server_aes_key started) = 32 /\
  aes_key (handlers three_peers 1) = server_aes_key started /\
  aes_key (handlers three_peers 3) = server_aes_key started /\
  aes_key (handlers three_peers 5) = server_aes_key started /\
  (exists n1 n2 encrypted_aes_key,
     fst (rsa_encrypt (RSA := stub_rsa) [x41; x41; x41]
            (server_aes_key started) (urandom started))
     = Ok encrypted_aes_key /\
     outbox (sockets (snd (key_exchange started)) 0)
     = [n1; serialize_public_key (public_key started); n2;
        encrypted_aes_key] /\
     dict_get (rsa_keys (snd (key_exchange started))) peer_A
     = Some [x41; x41; x41]) /\
  written_under (C := xor_cipher) (aes_key (handlers three_peers 5)) "pause"
    (outbox (sockets three_peers 4))
    (outbox (sockets (snd (CommandConsumer_iteration (C := xor_cipher)
                             three_peers)) 4)) /\
  outbox (sockets (snd (CommandConsumer_iteration (C := xor_cipher)
                          three_peers)) 6)
  = outbox (sockets three_peers 6).
Proof.
  destruct (one_symmetric_key_per_run (C := xor_cipher) (R := stub_rsa)
              stored gui wall_clock
              [Accepted (connection x41 []) peer_A;
               Accepted (connection x42
                           (repeat None 7 ++ [Some ConnectionResetError]))
                 peer_B;
               Accepted (connection x43 []) peer_C]
              sample_entropy
              [ServerTurn; ServerTurn; ServerTurn;
               CommandTurn; CommandTurn; CommandTurn;
               GuiCommand (Addr peer_A, "pause"%string)])
    as ((_ & Hlen & _) & Hreg & Hsocks & Hshake & Hdisp & _).
  split; [exact Hlen|].
  split; [|split; [|split; [|split]]].
  - apply (Hreg peer_A 0 1). vm_compute. reflexivity.
  - apply (Hreg peer_B 2 3). vm_compute. reflexivity.
  - apply (Hreg peer_C 4 5). vm_compute. reflexivity.
  - destruct (Hshake started 0 peer_A (snd (key_exchange started)))
      as (conn & rest & len_field & conn1 & key_bytes & conn2 & client_key
          & n1 & n2 & encrypted & Hback & _ & Hlenf & Hkey & Hde & _ & Henc
          & _ & Hout & Hget).
    { vm_compute. reflexivity. }
    assert (Hconn : conn = connection x41 []).
    { vm_compute in Hback. now injection Hback as <- _. }
    subst conn.
    assert (Hck : client_key = [x41; x41; x41]).
    { vm_compute in Hlenf. injection Hlenf as <- <-.
      vm_compute in Hkey. injection Hkey as <- _.
      vm_compute in Hde. now injection Hde as <-. }
    subst client_key.
    exists n1, n2, encrypted. split; [exact Henc|]. split; [exact Hout|].
    exact Hget.
  - destruct (Hdisp three_peers (Addr peer_A) "pause"%string [])
      as (Hin & Hout); [vm_compute; reflexivity|exact Hsocks|].
    split.
    + apply (Hin peer_C 4 5). vm_compute. tauto.
    + apply Hout. vm_compute. intuition discriminate.
Defined.

(** ** A peer that is kicked *)
Import ClientThreads ClientThreadsFacts.

(** The record the operator writes for [kick] under [sample_key]. *)
Definition kick_iv : bytes :=
  match fst (encrypt_aes (C := xor_cipher) sample_key
               (PyBytes (encode "kick")) sample_entropy) with
  | Ok (iv, _) => iv
  | Raise _ => []
  end.

Definition kick_ct : bytes :=
  match fst (encrypt_aes (C := xor_cipher) sample_key
               (PyBytes (encode "kick")) sample_entropy) with
  | Ok (_, ct) => ct
  | Raise _ => []
  end.

(** A peer in session, blocked and sharing its screen, at the head of
    its command loop; the record arrives in two pieces. *)
Definition in_session : ClientThreads.world (R := stub_rsa) :=
  {| client := {| inbox := [Data (length_field (length kick_ct) ++ kick_iv);
                            Data kick_ct];
                  outbox := []; send_plan := []; closed := false |};
     connect_outcome := None;
     ClientThreads.private_key := [x50] : @RSAPrivateKey stub_rsa;
     ClientThreads.public_key := [x50] : @RSAPublicKey stub_rsa;
     server_rsa_key := None;
     ClientThreads.server_aes_key := sample_key;
     _disconnected := false;
     ClientThreads.stop_event := false;
     ClientThreads.pause_event := false;
     block_event := true;
     blocker := {| keyboard_listener := Some true;
                   mouse_listener := Some true |};
     listeners_running := 2;
     screen_share := Some {| share_stop_event := false;
                             share_img_size := (1920, 1080)%Z |};
     img_size := (1920, 1080)%Z;
     disconnect_callback := true;
     disconnect_calls := [];
     injected := [];
     screen := fun n => if Nat.even n then Raise OSError else Ok [];
     captures := 0;
     ClientThreads.clock := wall_clock;
     ClientThreads.clock_reads := 0;
     ClientThreads.sleeps := [];
     ClientThreads.urandom := sample_entropy;
     ClientThreads.stdout := [] |}.

(** The client when its command loop has read the [kick] and is
    about to call [stop] in the [finally] of [run]. *)
Definition kicked_out : ClientThreads.world (R := stub_rsa) :=
  snd (Client_loop (C := xor_cipher) decimal 1 in_session).

(** The window is closed while the [kick] arrives: thread 1 calls
    [stop("window closed")] while thread 0, the command loop, calls
    [stop("kicked from session")]. *)
Definition window_closed (t : nat) : string := "window closed".

(** Thread 1 is the first at the lock, and thread 0 waits for it. *)
Definition closing_first : list nat :=
  [1; 0; 1; 1; 0; 1; 1; 1; 1; 0; 1; 1; 0; 0; 0].

(** Thread 0 is the first at the lock, and thread 1 waits for it. *)
Definition kick_first : list nat :=
  [0; 1; 0; 0; 1; 0; 0; 0; 0; 1; 0; 0; 1; 1; 1].

(** C6 as stated fails twice.  The reason of the command loop is
    ["kicked from session"], not ["kicked"].  And when another thread
    calls [stop] at the same time and is the first at the lock, the
    callback is called once, with the reason of that thread, and the
    [stop] of the command loop finds the client disconnected and
    returns: the reason of the kick is handed to no one. *)
Lemma kick_reason_and_race :
  (fst (Client_serve (C := xor_cipher) decimal 1 in_session) = Ok Finished /\
   disconnect_calls (snd (Client_serve (C := xor_cipher) decimal 1 in_session))
   = ["kicked from session"%string] /\
   disconnect_calls (snd (Client_serve (C := xor_cipher) decimal 1 in_session))
   <> ["kicked"%string]) /\
  (let st := interleave (racing "kicked from session" window_closed)
               closing_first (stop_called kicked_out) in
   fst st 0 = Returned /\ fst st 1 = Returned /\
   _lock (snd st) = None /\
   disconnect_calls (session (snd st)) = ["window closed"%string] /\
   disconnect_calls (session (snd st)) <> ["kicked"%string] /\
   disconnect_calls (session (snd st)) <> ["kicked from session"%string]).
Proof.
  split.
  - split; [vm_compute; reflexivity|].
    split; [vm_compute; reflexivity|].
    vm_compute. discriminate.
  - vm_compute. repeat (split; [reflexivity|]). split; discriminate.
Qed.

Lemma kick_tears_down_once_witness :
  exists w',
    Client_serve (C := xor_cipher) decimal 1 in_session = (Ok Finished, w') /\
    disconnect_calls w' = ["kicked from session"%string] /\
    closed (client w') = true /\
    listeners_running w' = 0 /\
    screen_share w' = Some {| share_stop_event := true;
                              share_img_size := (1920, 1080)%Z |} /\
    Client_stop "client crashed" w' = (Ok tt, w') /\
    (let st := interleave (racing "kicked from session" window_closed)
                 kick_first (stop_called kicked_out) in
     session (snd st) = w') /\
    (let st := interleave (racing "kicked from session" window_closed)
                 closing_first (stop_called kicked_out) in
     disconnect_calls (session (snd st)) = ["window closed"%string] /\
     closed (client (session (snd st))) = true /\
     screen_share (session (snd st))
     = Some {| share_stop_event := true;
               share_img_size := (1920, 1080)%Z |}).
Proof.
  destruct (kick_tears_down_once (C := xor_cipher) decimal 0 in_session
              (length_field (length kick_ct)) kick_iv kick_ct [])
    as (w1 & w' & Hloop & Hrun & Hcalls & _ & _ & Hcl & _ & _ & Hlis & Hshare
        & Honce & Hrace).
  - reflexivity.
  - reflexivity.
  - reflexivity.
  - vm_compute. reflexivity.
  - split; vm_compute; reflexivity.
  - vm_compute. reflexivity.
  - assert (Hw1 : w1 = kicked_out).
    { unfold kicked_out. now rewrite Hloop. }
    subst w1.
    exists w'. split; [exact Hrun|]. split; [exact Hcalls|].
    split; [exact Hcl|]. split; [exact Hlis|].
    split; [exact (Hshare {| share_stop_event := false;
                             share_img_size := (1920, 1080)%Z |} eq_refl)|].
    split; [apply Honce|]. split.
    + destruct (Hrace window_closed kick_first) as (_ & _ & Hsame).
      apply Hsame; [reflexivity|vm_compute; reflexivity].
    + destruct (Hrace window_closed closing_first) as (_ & Hret & _).
      destruct Hret as (Hc & _ & _ & Hclosed & _ & Hs);
        [vm_compute; reflexivity|].
      split; [exact Hc|]. split; [exact Hclosed|exact Hs].
Defined.

(** ** A peer that publishes its screen *)

Definition share_1080 : ScreenShare :=
  {| share_stop_event := false; share_img_size := (1920, 1080)%Z |}.

(** The first capture delivers an image, the second an empty one, and
    the captures after that raise. *)
Definition on_screen (n : nat) : result bytes :=
  match n with
  | 0 => Ok [x4a; x46]
  | 1 => Ok []
  | _ => Raise OSError
  end.

(** The peer of [in_session] with that screen, at its capture
    [taken], and with a clock that advances by [tick] at every
    reading. *)
Definition publishing (taken : nat) (tick : Q)
  : ClientThreads.world (R := stub_rsa) :=
  {| client := {| inbox := []; outbox := []; send_plan := [];
                  closed := false |};
     connect_outcome := None;
     ClientThreads.private_key := [x50] : @RSAPrivateKey stub_rsa;
     ClientThreads.public_key := [x50] : @RSAPublicKey stub_rsa;
     server_rsa_key := None;
     ClientThreads.server_aes_key := sample_key;
     _disconnected := false;
     ClientThreads.stop_event := false;
     ClientThreads.pause_event := false;
     block_event := false;
     blocker := {| keyboard_listener := None; mouse_listener := None |};
     listeners_running := 0;
     screen_share := Some share_1080;
     img_size := (1920, 1080)%Z;
     disconnect_callback := true;
     disconnect_calls := [];
     injected := [];
     screen := on_screen;
     captures := taken;
     ClientThreads.clock := fun n => (inject_Z (Z.of_nat n) * tick)%Q;
     ClientThreads.clock_reads := 0;
     ClientThreads.sleeps := [];
     ClientThreads.urandom := sample_entropy;
     ClientThreads.stdout := [] |}.

(** The turns of that publisher.  A cycle of 0.02 s that sends its
    frame is followed by a sleep of 0.1 s - 0.02 s, and one of 0.5 s
    by a sleep of 0 s; the empty capture writes nothing and is
    followed by a sleep of 0.5 s, the capture that raises writes
    nothing and is followed by a sleep of 1 s; and the publisher
    whose captures fail is still running after any number of
    turns. *)
Lemma publisher_survives_failures_witness :
  (exists w' n iv ct,
     ScreenShare_iteration (C := xor_cipher) stored share_1080
       (publishing 0 (1 # 50)) = (Ok tt, w') /\
     ClientThreads.sleeps w'
     = [max0 (1 / FPS - elapsed (publishing 0 (1 # 50)))%Q] /\
     (elapsed (publishing 0 (1 # 50)) == 2 # 100)%Q /\
     (max0 (1 / FPS - elapsed (publishing 0 (1 # 50))) == 8 # 100)%Q /\
     outbox (client w') = [n; iv; ct] /\
     length n = 8 /\ length iv = 16 /\ from_bytes n = length ct) /\
  (exists w',
     ScreenShare_iteration (C := xor_cipher) stored share_1080
       (publishing 0 (1 # 2)) = (Ok tt, w') /\
     ClientThreads.sleeps w' = [0%Q] /\ length (outbox (client w')) = 3) /\
  (exists w',
     ScreenShare_iteration (C := xor_cipher) stored share_1080
       (publishing 1 (1 # 50)) = (Ok tt, w') /\
     ClientThreads.sleeps w' = [(1 # 2)%Q] /\ outbox (client w') = []) /\
  (exists w',
     ScreenShare_iteration (C := xor_cipher) stored share_1080
       (publishing 2 (1 # 50)) = (Ok tt, w') /\
     ClientThreads.sleeps w' = [1%Q] /\ outbox (client w') = []) /\
  (exists w', ScreenShare_run (C := xor_cipher) stored 4
                (publishing 1 (1 # 50)) = (Ok StillRunning, w')).
Proof.
  split; [|split; [|split; [|split]]].
  - destruct (publisher_survives_failures (C := xor_cipher) stored
                (publishing 0 (1 # 50)) share_1080)
      as ((w' & Hit & _ & Hcase) & _).
    vm_compute in Hcase. destruct Hcase as (Hs & Ho & _).
    eexists w', _, _, _. split; [exact Hit|]. split; [exact Hs|].
    split; [reflexivity|]. split; [reflexivity|]. split; [exact Ho|].
    repeat split; reflexivity.
  - destruct (publisher_survives_failures (C := xor_cipher) stored
                (publishing 0 (1 # 2)) share_1080)
      as ((w' & Hit & _ & Hcase) & _).
    vm_compute in Hcase. destruct Hcase as (Hs & Ho & _).
    exists w'. split; [exact Hit|]. split; [exact Hs|].
    pose proof (Ho : outbox (client w') = _) as Ho'.
    now rewrite Ho'.
  - destruct (publisher_survives_failures (C := xor_cipher) stored
                (publishing 1 (1 # 50)) share_1080)
      as ((w' & Hit & _ & Hcase) & _).
    vm_compute in Hcase. destruct Hcase as (Hs & Ho & _).
    exists w'. split; [exact Hit|]. split; [exact Hs|exact Ho].
  - destruct (publisher_survives_failures (C := xor_cipher) stored
                (publishing 2 (1 # 50)) share_1080)
      as ((w' & Hit & _ & Hcase) & _).
    vm_compute in Hcase. destruct Hcase as (Hs & Ho & _).
    exists w'. split; [exact Hit|]. split; [exact Hs|exact Ho].
  - destruct (publisher_survives_failures (C := xor_cipher) stored
                (publishing 1 (1 # 50)) share_1080)
      as (_ & _ & Hrun & _).
    apply Hrun; reflexivity.
Defined.

End Samples.
